(** * git-repo-brief: the request/response normalisation layer

    A shallow embedding of [src/tools/overview.ts], [src/tools/files.ts],
    [src/tools/releases.ts], [src/tools/activity.ts] and [src/types.ts],
    with the properties of the specification stated over it; and of
    [src/config.ts], the input schemas and the handlers of [src/server.ts]
    and of the two HTTP transports, with further properties of the code.

    Conventions.
    - A JavaScript string is a [string]: a sequence of code units, each
      below 256 here.  [String.length] is the [.length] of the source.
    - A JavaScript number that holds an integer is a [Z].  The embedding is
      exact for magnitudes up to 2^53, the range in which a double holds
      every integer.
    - [null] and [undefined] are [None]; where the source reads through
      one of them and throws, the two are kept apart ([member]).
    - A number that arrives from a caller and is not checked to be an
      integer, the limit of the release notes, is a [Js.double].
    - An asynchronous function is a computation in the monad [io], whose
      only effect is the outbound HTTP call; [Promise.all] is [Par], and
      the order in which the calls of its branches leave is not fixed. *)

From Stdlib Require Import ZArith String Ascii List Lia Bool.
From stdpp Require Import gmap strings.
Import ListNotations.
Open Scope string_scope.
Open Scope Z_scope.

(** ** The JavaScript primitives the tools call *)

Module Js.

Definition code (c : ascii) : Z := Z.of_N (N_of_ascii c).

Definition dquote : ascii := "034"%char.

(** [quoted s] is [s] between two double quotes. *)
Definition quoted (s : string) : string :=
  String dquote (s +:+ String dquote "").

(** [\d] of a regular expression. *)
Definition is_digit (c : ascii) : bool :=
  (48 <=? code c) && (code c <=? 57).

(** Truthiness of a [string | null]: only [null] and the empty string are
    falsy. *)
Definition truthy (o : option string) : bool :=
  match o with
  | None | Some "" => false
  | Some _ => true
  end.

(** [s.startsWith(p)], returning what follows the prefix. *)
Fixpoint strip_prefix (p s : string) : option string :=
  match p, s with
  | "", _ => Some s
  | String a p', String b s' =>
      if Ascii.eqb a b then strip_prefix p' s' else None
  | String _ _, "" => None
  end.

(** [hay.includes(needle)]. *)
Fixpoint includes (needle hay : string) : bool :=
  match strip_prefix needle hay with
  | Some _ => true
  | None =>
      match hay with
      | "" => false
      | String _ hay' => includes needle hay'
      end
  end.

(** The longest run of decimal digits at the head of [s], and the rest. *)
Fixpoint span_digits (s : string) : string * string :=
  match s with
  | "" => ("", "")
  | String c s' =>
      if is_digit c
      then let (ds, rest) := span_digits s' in (String c ds, rest)
      else ("", s)
  end.

(** The regular expression [/page=(\d+)>; rel="REL"/] tried at the head
    of [s]; the result is capture group 1.  [\d+] is greedy, and since
    the character that must follow it is [>], which is no digit, the only
    run that can succeed is the longest one. *)
Definition match_page_rel (rel : string) (s : string) : option string :=
  match strip_prefix "page=" s with
  | None => None
  | Some s1 =>
      match span_digits s1 with
      | ("", _) => None
      | (ds, s2) =>
          match strip_prefix (">; rel=" +:+ quoted rel) s2 with
          | Some _ => Some ds
          | None => None
          end
      end
  end.

(** [s.match(/page=(\d+)>; rel="REL"/)]: the leftmost position at which
    the expression matches wins.  [None] is the [null] of the source. *)
Fixpoint search_page_rel (rel : string) (s : string) : option string :=
  match match_page_rel rel s with
  | Some ds => Some ds
  | None =>
      match s with
      | "" => None
      | String _ s' => search_page_rel rel s'
      end
  end.

(** [s.replace(/\.git$/, '')]: [$] matches at the end of the string only,
    so the one place the expression can match is a final [.git]. *)
Fixpoint replace_git_suffix (s : string) : string :=
  if String.eqb s ".git" then ""
  else match s with
       | "" => ""
       | String c s' => String c (replace_git_suffix s')
       end.

(** [s.split('/')]. *)
Fixpoint split_slash (s : string) : list string :=
  match s with
  | "" => [""]
  | String c s' =>
      if Ascii.eqb c "/"
      then "" :: split_slash s'
      else match split_slash s' with
           | seg :: segs => String c seg :: segs
           | [] => [String c ""]
           end
  end.

(** [l.filter(Boolean)] on strings: the empty ones are dropped. *)
Definition filter_Boolean (l : list string) : list string :=
  List.filter (fun s => negb (String.eqb s "")) l.

(** [l.join(sep)]. *)
Fixpoint join (sep : string) (l : list string) : string :=
  match l with
  | [] => ""
  | [s] => s
  | s :: l' => s +:+ sep +:+ join sep l'
  end.

(** The value of a character as a digit of [parseInt], below 36. *)
Definition digit_value (c : ascii) : option Z :=
  let n := code c in
  if (48 <=? n) && (n <=? 57) then Some (n - 48)
  else if (97 <=? n) && (n <=? 122) then Some (n - 87)
  else if (65 <=? n) && (n <=? 90) then Some (n - 55)
  else None.

(** Horner evaluation of the longest prefix of radix-[r] digits; the
    second component counts the digits read. *)
Fixpoint read_digits (r : Z) (acc : Z) (n : nat) (s : string) : Z * nat :=
  match s with
  | "" => (acc, n)
  | String c s' =>
      match digit_value c with
      | Some d => if d <? r then read_digits r (r * acc + d) (S n) s'
                  else (acc, n)
      | None => (acc, n)
      end
  end.

(** White space of [parseInt] among the code units below 256. *)
Definition is_white (c : ascii) : bool :=
  let n := code c in
  ((9 <=? n) && (n <=? 13)) || (n =? 32) || (n =? 160).

Fixpoint trim_start (s : string) : string :=
  match s with
  | "" => ""
  | String c s' => if is_white c then trim_start s' else s
  end.

(** A number: an integer, or [NaN]. *)
Inductive number : Type :=
| Int (n : Z)
| NaN.

(** [a * k] for an integer constant [k]. *)
Definition times (a : number) (k : Z) : number :=
  match a with
  | Int n => Int (n * k)
  | NaN => NaN
  end.

(** Steps 4 to 6 of [parseInt]: the sign, and the input without it. *)
Definition read_sign (s : string) : Z * string :=
  match s with
  | String c s' =>
      if Ascii.eqb c "-" then (-1, s')
      else if Ascii.eqb c "+" then (1, s')
      else (1, s)
  | "" => (1, s)
  end.

(** Step 10 of [parseInt]: a leading [0x] or [0X] switches to radix 16. *)
Definition read_hex_prefix (r : Z) (s : string) : Z * string :=
  match s with
  | String c1 (String c2 s') =>
      if Ascii.eqb c1 "0" && (Ascii.eqb c2 "x" || Ascii.eqb c2 "X")
      then (16, s')
      else (r, s)
  | _ => (r, s)
  end.

(** [parseInt(input, radix)] (ECMA-262, 19.2.5); radix [0] stands for an
    omitted radix. *)
Definition parseInt (input : string) (radix : Z) : number :=
  let '(sign, s) := read_sign (trim_start input) in
  if negb (radix =? 0) && ((radix <? 2) || (36 <? radix)) then NaN
  else
    let stripPrefix := (radix =? 0) || (radix =? 16) in
    let r := if radix =? 0 then 10 else radix in
    let '(r, s) := if stripPrefix then read_hex_prefix r s else (r, s) in
    match read_digits r 0 0%nat s with
    | (_, O) => NaN
    | (v, S _) => Int (sign * v)
    end.

(** The decimal numeral of a non-negative integer, as a template literal
    renders a status code. *)
Fixpoint render_digits (fuel : nat) (n : Z) (acc : string) : string :=
  match fuel with
  | O => acc
  | S fuel' =>
      let acc' := String (ascii_of_N (Z.to_N (48 + n mod 10))) acc in
      if n <? 10 then acc' else render_digits fuel' (n / 10) acc'
  end.

Definition string_of_Z (n : Z) : string :=
  if n <? 0
  then String "-" (render_digits (S (Z.to_nat (Z.log2 (- n)))) (- n) "")
  else render_digits (S (Z.to_nat (Z.log2 n))) n "".

(** A number of any kind, for code that takes a [number] from its caller
    and only compares it with integer constants and writes it into a
    string: an integer; [NaN]; a number that is no integer, given by the
    integer just below it and by the text [ToString] renders it with (1.5
    is [Fraction 1 "1.5"]); or an infinity. *)
Inductive double : Type :=
| Whole (n : Z)
| NotANumber
| Fraction (below : Z) (text : string)
| Infinite (negative : bool).

(** [x < k] for an integer constant [k]. *)
Definition less_than (x : double) (k : Z) : bool :=
  match x with
  | Whole n => n <? k
  | NotANumber => false
  | Fraction below _ => below <? k
  | Infinite negative => negative
  end.

(** [x > k] for an integer constant [k]. *)
Definition greater_than (x : double) (k : Z) : bool :=
  match x with
  | Whole n => k <? n
  | NotANumber => false
  | Fraction below _ => k <=? below
  | Infinite negative => negb negative
  end.

(** The text of [x] in a template literal; an integer is written with its
    decimal digits (as it is below 10^21). *)
Definition double_to_string (x : double) : string :=
  match x with
  | Whole n => string_of_Z n
  | NotANumber => "NaN"
  | Fraction _ text => text
  | Infinite negative => if negative then "-Infinity" else "Infinity"
  end.

End Js.

(** ** [Date]: from a time value to its ISO-8601 text and back *)

Module JsDate.

Definition msPerDay : Z := 86400000.

(** The largest magnitude [TimeClip] lets through. *)
Definition maxTime : Z := 8640000000000000.

(** [Day(t)] and [TimeWithinDay(t)] of ECMA-262, 21.4.1.3. *)
Definition Day (t : Z) : Z := t / msPerDay.
Definition TimeWithinDay (t : Z) : Z := t mod msPerDay.

Definition HourFromTime (t : Z) : Z := (t / 3600000) mod 24.
Definition MinFromTime (t : Z) : Z := (t / 60000) mod 60.
Definition SecFromTime (t : Z) : Z := (t / 1000) mod 60.
Definition msFromTime (t : Z) : Z := t mod 1000.

(** Month (1 to 12) and day of the month of the day [doy] of a year that
    starts on a 1 March. *)
Definition month_day (doy : Z) : Z * Z :=
  let mp := (5 * doy + 2) / 153 in
  let d := doy - (153 * mp + 2) / 5 + 1 in
  (if mp <? 10 then mp + 3 else mp - 9, d).

(** Position of a day inside its 400-year era, which starts on a
    1 March: year of the era, month and day of the month.  The era splits
    into four centuries of 36524 days (the last one a day longer), a
    century into cycles of 1461 days, a cycle into four years of 365 days
    (the last one a day longer). *)
Definition era_fields (doe : Z) : Z * Z * Z :=
  let c := Z.min (doe / 36524) 3 in
  let r1 := doe - c * 36524 in
  let q := r1 / 1461 in
  let r2 := r1 - q * 1461 in
  let a := Z.min (r2 / 365) 3 in
  let doy := r2 - a * 365 in
  let '(m, d) := month_day doy in
  (c * 100 + q * 4 + a, m, d).

(** [YearFromTime], [MonthFromTime] (here 1 to 12) and [DateFromTime] of
    a day number, in the proleptic Gregorian calendar. *)
Definition civil_from_days (z : Z) : Z * Z * Z :=
  let z := z + 719468 in
  let era := z / 146097 in
  let doe := z mod 146097 in
  let '(yoe, m, d) := era_fields doe in
  (yoe + era * 400 + (if m <=? 2 then 1 else 0), m, d).

(** Day number inside the era of the date [(yoe, m, d)]. *)
Definition era_day (yoe m d : Z) : Z :=
  let doy := (153 * (if 2 <? m then m - 3 else m + 9) + 2) / 5 + d - 1 in
  yoe * 365 + yoe / 4 - yoe / 100 + doy.

(** [MakeDay]: the day number of a calendar date. *)
Definition days_from_civil (y m d : Z) : Z :=
  let y := if m <=? 2 then y - 1 else y in
  let era := y / 400 in
  let yoe := y mod 400 in
  era * 146097 + era_day yoe m d - 719468.

Definition is_leap (y : Z) : bool :=
  (y mod 4 =? 0) && (negb (y mod 100 =? 0) || (y mod 400 =? 0)).

Definition DaysInMonth (y m : Z) : Z :=
  if m =? 2 then (if is_leap y then 29 else 28)
  else if (m =? 4) || (m =? 6) || (m =? 9) || (m =? 11) then 30
  else 31.

Definition digit_char (d : Z) : ascii := ascii_of_N (Z.to_N (48 + d)).

(** The last [w] decimal digits of [n], in front of [acc]. *)
Fixpoint pad (w : nat) (n : Z) (acc : string) : string :=
  match w with
  | O => acc
  | S w' => pad w' (n / 10) (String (digit_char (n mod 10)) acc)
  end.

(** [Date.prototype.toISOString] of the time value [t] (ECMA-262,
    21.4.4.36): [YYYY-MM-DDTHH:mm:ss.sssZ], the year written with a sign
    and six digits outside 0..9999.  [None] stands for the [RangeError]
    thrown for an invalid date, which is what [new Date(v)] holds when
    [v] is [NaN] or beyond [maxTime]. *)
Definition toISOString (t : Z) : option string :=
  if (t <? - maxTime) || (maxTime <? t) then None
  else
    let '(y, m, d) := civil_from_days (Day t) in
    let tail :=
      String "-" (pad 2 m (String "-" (pad 2 d (String "T"
        (pad 2 (HourFromTime t) (String ":" (pad 2 (MinFromTime t)
        (String ":" (pad 2 (SecFromTime t) (String "."
        (pad 3 (msFromTime t) "Z"))))))))))) in
    Some (if (0 <=? y) && (y <=? 9999) then pad 4 y tail
          else String (if y <? 0 then "-" else "+") (pad 6 (Z.abs y) tail)).

(** *** Reading an ISO-8601 timestamp back *)

(** Exactly [w] decimal digits at the head of [s]: their value and the
    rest. *)
Fixpoint read_fixed (w : nat) (acc : Z) (s : string) : option (Z * string) :=
  match w with
  | O => Some (acc, s)
  | S w' =>
      match s with
      | String c s' =>
          if Js.is_digit c then read_fixed w' (10 * acc + (Js.code c - 48)) s'
          else None
      | "" => None
      end
  end.

Definition expect (c : ascii) (s : string) : option string :=
  match s with
  | String c' s' => if Ascii.eqb c c' then Some s' else None
  | "" => None
  end.

(** The time value an ISO-8601 timestamp in the format of [toISOString]
    denotes; [None] when the text is not such a timestamp: wrong shape,
    month outside 1..12, a day the month does not have, hour above 23,
    minute or second above 59. *)
Definition time_of_iso (s : string) : option Z :=
  let year :=
    match s with
    | String c s' =>
        if Ascii.eqb c "+" then read_fixed 6 0 s'
        else if Ascii.eqb c "-" then
          match read_fixed 6 0 s' with
          | Some (y, r) => if y =? 0 then None else Some (- y, r)
          | None => None
          end
        else read_fixed 4 0 s
    | "" => None
    end in
  match year with
  | None => None
  | Some (y, s) =>
  match expect "-" s with None => None | Some s =>
  match read_fixed 2 0 s with None => None | Some (m, s) =>
  match expect "-" s with None => None | Some s =>
  match read_fixed 2 0 s with None => None | Some (d, s) =>
  match expect "T" s with None => None | Some s =>
  match read_fixed 2 0 s with None => None | Some (hh, s) =>
  match expect ":" s with None => None | Some s =>
  match read_fixed 2 0 s with None => None | Some (mm, s) =>
  match expect ":" s with None => None | Some s =>
  match read_fixed 2 0 s with None => None | Some (ss, s) =>
  match expect "." s with None => None | Some s =>
  match read_fixed 3 0 s with None => None | Some (ms, s) =>
    if String.eqb s "Z"
       && (1 <=? m) && (m <=? 12) && (1 <=? d) && (d <=? DaysInMonth y m)
       && (hh <=? 23) && (mm <=? 59) && (ss <=? 59)
    then Some (days_from_civil y m d * msPerDay
               + hh * 3600000 + mm * 60000 + ss * 1000 + ms)
    else None
  end end end end end end end end end end end end end.

(** A string is a valid ISO-8601 timestamp when it denotes a time. *)
Definition is_iso8601 (s : string) : bool :=
  match time_of_iso s with Some _ => true | None => false end.

(** [f] holds of the [n] integers from [z] on. *)
Fixpoint all_from (n : nat) (z : Z) (f : Z -> bool) : bool :=
  match n with
  | O => true
  | S n' => f z && all_from n' (z + 1) f
  end.

(** What [month_day] owes for the day [doy] of a year that starts in
    March: a month, a day that the month has (February has 29 days only
    on day 365, which only a leap year has), and the day of the year back
    from them. *)
Definition doy_ok (doy : Z) : bool :=
  let '(m, d) := month_day doy in
  (1 <=? m) && (m <=? 12) && (1 <=? d)
  && (d <=? (if m =? 2 then (if doy =? 365 then 29 else 28)
             else if (m =? 4) || (m =? 6) || (m =? 9) || (m =? 11) then 30
             else 31))
  && ((153 * (if 2 <? m then m - 3 else m + 9) + 2) / 5 + d - 1 =? doy).

End JsDate.

(** ** The response envelope ([src/types.ts]) *)

Inductive ErrorCode : Type :=
| INVALID_INPUT
| UPSTREAM_ERROR
| RATE_LIMITED
| TIMEOUT
| PARSE_ERROR
| INTERNAL_ERROR.

(** A value stored under a key of [error.details]. *)
Inductive detail : Type :=
| DNull
| DStr (s : string)
| DNum (n : Z)
| DNumber (x : Js.double).    (* a number as the caller passed it *)

Record SuccessMeta : Type := {
  source : option string;
  retrieved_at : string;
  next_cursor : option string;   (* meta.pagination.next_cursor *)
  warnings : list string
}.

Record ErrorBody : Type := {
  code : ErrorCode;
  message : string;
  details : list (string * detail)
}.

(** [ApiResponse<T>]: the constructor is the [ok] flag. *)
Inductive ApiResponse (T : Type) : Type :=
| SuccessResponse (data : T) (meta : SuccessMeta)
| ErrorResponse (error : ErrorBody) (meta_retrieved_at : string).

Arguments SuccessResponse {T} data meta.
Arguments ErrorResponse {T} error meta_retrieved_at.

Definition ok_flag {T} (r : ApiResponse T) : bool :=
  match r with
  | SuccessResponse _ _ => true
  | ErrorResponse _ _ => false
  end.

Definition error_code {T} (r : ApiResponse T) : option ErrorCode :=
  match r with
  | SuccessResponse _ _ => None
  | ErrorResponse e _ => Some (code e)
  end.

(** The [options] argument of [createSuccessResponse]. *)
Record SuccessOptions : Type := {
  opt_source : option string;
  opt_warnings : option (list string);
  opt_next_cursor : option string
}.

(** ** Output records *)

Record OwnerData : Type := {
  login : string;
  avatar_url : string;
  type : string
}.

Record RepoOverviewData : Type := {
  ov_name : string;
  ov_full_name : string;
  ov_description : option string;
  ov_stars : Z;
  ov_forks : Z;
  ov_language : option string;
  ov_topics : list string;
  ov_license : option string;
  ov_created_at : string;
  ov_updated_at : string;
  ov_default_branch : string;
  ov_homepage : option string;
  ov_owner : OwnerData
}.

Record FileContent : Type := {
  path : string;
  content : option string;
  size : option Z;
  encoding : string;
  error : option string
}.

Record ExtractKeyFilesData : Type := {
  files : list FileContent;
  kf_default_branch : string
}.

Record ReleaseData : Type := {
  tag_name : string;
  rel_name : option string;
  rel_body : option string;
  published_at : option string;
  prerelease : bool;
  draft : bool;
  html_url : string
}.

Record ReleaseNotesData : Type := {
  releases : list ReleaseData;
  total_count : Z
}.

Record ActivitySnapshotData : Type := {
  last_commit_date : option string;
  last_commit_message : option string;
  as_open_issues_count : Z;
  open_prs_count : Js.number;
  contributors_count : Js.number;
  as_watchers_count : Z;
  as_has_wiki : bool;
  as_has_discussions : bool
}.

(** ** Upstream payloads *)

Record License : Type := {
  spdx_id : string;
  license_name : string
}.

Record GitHubRepoResponse : Type := {
  name : string;
  full_name : string;
  description : option string;
  stargazers_count : Z;
  forks_count : Z;
  language : option string;
  topics : option (list string);
  license : option License;
  created_at : string;
  updated_at : string;
  default_branch : string;
  homepage : option string;
  open_issues_count : Z;
  watchers_count : Z;
  has_wiki : bool;
  has_discussions : bool;
  owner : OwnerData
}.

(** The body of a response is cast to its type and never checked.  On the
    path the activity snapshot reads, [commit.author.date] and
    [commit.message], an object may therefore be left out or be [null],
    and reading a property of it throws; a string that is left out or
    [null] is [None]. *)
Inductive nullish : Type :=
| JsUndefined
| JsNull.

Inductive member (A : Type) : Type :=
| Present (a : A)
| Missing (n : nullish).

Arguments Present {A} a.
Arguments Missing {A} n.

Record CommitAuthor : Type := {
  author_name : string;
  date : option string
}.

Record CommitDetail : Type := {
  commit_message : option string;
  author : member CommitAuthor
}.

Record GitHubCommitResponse : Type := {
  sha : string;
  commit : member CommitDetail
}.

Record GitHubPullResponse : Type := {
  number : Z;
  state : string
}.

Record GitHubContributorResponse : Type := {
  contributor_login : string;
  contributions : Z
}.

Record ParsedRepoInfo : Type := {
  pr_owner : string;
  pr_repo : string
}.

(** ** The outbound call as an effect *)

(** What a [throw] or a rejected promise carries: an [Error] with its
    [name] and [message], or some other value. *)
Inductive thrown : Type :=
| ThrownError (name message : string)
| ThrownOther.

Inductive result (A : Type) : Type :=
| Ok (a : A)
| Throw (e : thrown).

Arguments Ok {A} a.
Arguments Throw {A} e.

(** [obj.name] and what follows it, for an [obj] that may be missing:
    reading the property [name] of [undefined] or of [null] throws the
    [TypeError] of V8; otherwise the object is there to be read. *)
Definition reading {A} (name : string) (obj : member A) : result A :=
  match obj with
  | Present a => Ok a
  | Missing n =>
      Throw (ThrownError "TypeError"
               ("Cannot read properties of "
                  +:+ match n with
                      | JsUndefined => "undefined"
                      | JsNull => "null"
                      end
                  +:+ " (reading '" +:+ name +:+ "')"))
  end.

(** The type a call site casts the body of its response to. *)
Inductive shape : Type :=
| SRepo            (* as GitHubRepoResponse *)
| SBranch          (* as { default_branch?: string } *)
| SCommits         (* as GitHubCommitResponse[] *)
| SPulls           (* as GitHubPullResponse[] *)
| SContributors    (* as GitHubContributorResponse[] *)
| SReleases        (* as GitHubReleaseResponse[] *)
| SText.           (* response.text() *)

Definition body_of (s : shape) : Type :=
  match s with
  | SRepo => GitHubRepoResponse
  | SBranch => option string
  | SCommits => list GitHubCommitResponse
  | SPulls => list GitHubPullResponse
  | SContributors => list GitHubContributorResponse
  | SReleases => list ReleaseData
  | SText => string
  end.

(** A [Response]; [body] is what [json()] or [text()] resolves to, or what
    it rejects with. *)
Record Response (B : Type) : Type := {
  status : Z;
  statusText : string;
  headers : gmap string string;
  body : result B
}.

Arguments status {B} r.
Arguments statusText {B} r.
Arguments headers {B} r.
Arguments body {B} r.

(** [response.ok]. *)
Definition ok {B} (r : Response B) : bool :=
  (200 <=? status r) && (status r <=? 299).

(** [response.headers.get(name)]. *)
Definition headers_get {B} (r : Response B) (name : string) : option string :=
  headers r !! name.

(** An asynchronous computation: it returns; or it issues one outbound
    call and goes on with what the call resolved to or rejected with; or
    it starts two computations that run side by side, as the members of a
    [Promise.all] do, and goes on with what both returned. *)
Inductive io (A : Type) : Type :=
| Ret (a : A)
| Fetch (s : shape) (url : string) (k : result (Response (body_of s)) -> io A)
| Par (X Y : Type) (first : io X) (second : io Y) (k : X -> Y -> io A).

Arguments Ret {A} a.
Arguments Fetch {A} s url k.
Arguments Par {A X Y} first second k.

Fixpoint bind {A B} (m : io A) (f : A -> io B) : io B :=
  match m with
  | Ret a => f a
  | Fetch s url k => Fetch s url (fun r => bind (k r) f)
  | Par first second k => Par first second (fun x y => bind (k x y) f)
  end.

#[global] Instance io_ret : MRet io := @Ret.
#[global] Instance io_bind : MBind io := fun A B f m => bind m f.

(** [await Promise.all(l.map(f))]: every member is started before any is
    awaited, and the results come in the order of the list. *)
Fixpoint all {A B} (f : A -> io B) (l : list A) : io (list B) :=
  match l with
  | [] => Ret []
  | a :: l' => Par (f a) (all f l') (fun b bs => Ret (b :: bs))
  end.

(** [await Promise.all([a, b, c, d])]. *)
Definition Promise_all4 {A B C D} (a : io A) (b : io B) (c : io C) (d : io D)
  : io (A * B * C * D) :=
  Par a
    (Par b (Par c d (fun z w => Ret (z, w))) (fun y zw => Ret (y, zw)))
    (fun x yzw => Ret (x, fst yzw, fst (snd yzw), snd (snd yzw))).

(** The upstream: what each call resolves to or rejects with. *)
Definition upstream : Type :=
  forall s : shape, string -> result (Response (body_of s)).

(** Running a computation against an upstream: its value, and the URLs it
    asks [rateLimitedFetch] for, in the order in which it asks.  The
    members of a [Promise.all] ask one after the other, in the order of
    the array, before any of them is answered; each member of the tools
    asks once.  The value does not depend on the order in which the calls
    then leave, since the upstream answers each call by its URL. *)
Fixpoint run {A} (net : upstream) (m : io A) : A * list string :=
  match m with
  | Ret a => (a, [])
  | Fetch s url k =>
      let (a, calls) := run net (k (net s url)) in (a, url :: calls)
  | Par first second k =>
      let (x, calls1) := run net first in
      let (y, calls2) := run net second in
      let (a, calls3) := run net (k x y) in
      (a, (calls1 ++ calls2 ++ calls3)%list)
  end.

(** [l] holds the entries of [l1] and of [l2], each list in its own
    order. *)
Inductive interleaves {X : Type} : list X -> list X -> list X -> Prop :=
| interleaves_nil : interleaves [] [] []
| interleaves_first (x : X) (l1 l2 l : list X) :
    interleaves l1 l2 l -> interleaves (x :: l1) l2 (x :: l)
| interleaves_second (x : X) (l1 l2 l : list X) :
    interleaves l1 l2 l -> interleaves l1 (x :: l2) (x :: l).

(** The orders in which the calls of a computation can reach [fetch].
    [rateLimitedFetch] may sleep on a timer of its own before it calls
    [fetch], so the calls of two computations that run side by side can
    leave in any order that keeps the order within each; what follows a
    [Promise.all] comes after all of its calls. *)
Inductive fetch_order (net : upstream) : forall A : Type, io A -> list string -> Prop :=
| fetch_order_Ret (A : Type) (a : A) : fetch_order net A (Ret a) []
| fetch_order_Fetch (A : Type) (s : shape) (url : string)
    (k : result (Response (body_of s)) -> io A) (l : list string) :
    fetch_order net A (k (net s url)) l ->
    fetch_order net A (Fetch s url k) (url :: l)
| fetch_order_Par (A X Y : Type) (first : io X) (second : io Y)
    (k : X -> Y -> io A) (l1 l2 l12 l3 : list string) :
    fetch_order net X first l1 ->
    fetch_order net Y second l2 ->
    interleaves l1 l2 l12 ->
    fetch_order net A (k (fst (run net first)) (fst (run net second))) l3 ->
    fetch_order net A (Par first second k) (l12 ++ l3)%list.

Arguments fetch_order net {A} m l.

(** A computation that issues no outbound call. *)
Definition no_call {A} (m : io A) : Prop :=
  exists a, m = Ret a.

(** The computation answers with an error envelope of the given code and
    calls nothing, whatever the upstream. *)
Definition fails_without_call {T} (c : ErrorCode) (m : io (ApiResponse T)) : Prop :=
  no_call m /\
  forall net : upstream,
    exists r, run net m = (r, []) /\ ok_flag r = false /\ error_code r = Some c.

(** What [new URL(s)] exposes of a parsed URL. *)
Record URL : Type := {
  hostname : string;
  pathname : string
}.

(** ** The tools *)

Section Tools.

(** [new URL(s)] of the platform; [None] when it throws. *)
Variable new_URL : string -> option URL.

(** [new Date().toISOString()] at the moment the envelope is built. *)
Variable now : string.

(** [getConfig().requestTimeoutMs]. *)
Variable requestTimeoutMs : Z.

(** *** [src/types.ts] *)

Definition createSuccessResponse {T} (data : T) (options : SuccessOptions)
  : ApiResponse T :=
  SuccessResponse data
    {| source := opt_source options;
       retrieved_at := now;
       next_cursor := opt_next_cursor options;
       warnings := default [] (opt_warnings options) |}.

Definition createErrorResponse {T} (code : ErrorCode) (message : string)
    (details : option (list (string * detail))) : ApiResponse T :=
  ErrorResponse
    {| code := code; message := message; details := default [] details |}
    now.

(** *** [src/tools/overview.ts] *)

(** The outbound call of [rateLimitedFetch].  The delay it takes before
    the call is the subject of [RateLimiter] below; the request headers
    it adds and its abort timer do not show in what the tools compute,
    except that an abort rejects with an [AbortError]. *)
Definition rateLimitedFetch (s : shape) (url : string)
  : io (result (Response (body_of s))) :=
  Fetch s url Ret.

(** The URL of the repository resource,
    [https://api.github.com/repos/${owner}/${repo}]. *)
Definition repo_api_url (owner repo : string) : string :=
  "https://api.github.com/repos/" +:+ owner +:+ "/" +:+ repo.

Definition parseRepoUrl (url : string) : option ParsedRepoInfo :=
  match new_URL url with
  | None => None
  | Some parsed =>
      if negb (String.eqb (hostname parsed) "github.com")
         && negb (String.eqb (hostname parsed) "www.github.com")
      then None
      else
        let pathParts := Js.filter_Boolean (Js.split_slash (pathname parsed)) in
        if Z.of_nat (length pathParts) <? 2 then None
        else Some {| pr_owner := nth 0 pathParts "";
                     pr_repo := Js.replace_git_suffix (nth 1 pathParts "") |}
  end.

Definition invalid_url {T} (repoUrl : string) : ApiResponse T :=
  createErrorResponse INVALID_INPUT
    "Invalid GitHub repository URL. Expected format: https://github.com/owner/repo"
    (Some [("provided_url", DStr repoUrl)]).

(** The [catch] block the four tools share. *)
Definition on_throw {T} (e : thrown) : ApiResponse T :=
  match e with
  | ThrownError name message =>
      if String.eqb name "AbortError"
      then createErrorResponse TIMEOUT "Request timed out"
             (Some [("timeout_ms", DNum requestTimeoutMs)])
      else createErrorResponse INTERNAL_ERROR message
             (Some [("error_name", DStr name)])
  | ThrownOther =>
      createErrorResponse INTERNAL_ERROR "An unexpected error occurred" None
  end.

(** [new Date(v).toISOString()]; the [RangeError] is the one V8 throws. *)
Definition new_Date_toISOString (v : Js.number) : result string :=
  match v with
  | Js.Int t =>
      match JsDate.toISOString t with
      | Some s => Ok s
      | None => Throw (ThrownError "RangeError" "Invalid time value")
      end
  | Js.NaN => Throw (ThrownError "RangeError" "Invalid time value")
  end.

(** The branch [if (response.status === 403) { ... }], which
    [repoOverview] and [releaseNotes] both have. *)
Definition forbidden {T B} (response : Response B) : ApiResponse T :=
  let rateLimitRemaining := headers_get response "x-ratelimit-remaining" in
  if decide (rateLimitRemaining = Some "0") then
    let resetTime := headers_get response "x-ratelimit-reset" in
    let reset_at :=
      match resetTime with
      | Some t =>
          if Js.truthy resetTime
          then match new_Date_toISOString (Js.times (Js.parseInt t 0) 1000) with
               | Ok s => Ok (DStr s)
               | Throw e => Throw e
               end
          else Ok DNull
      | None => Ok DNull
      end in
    match reset_at with
    | Ok v =>
        createErrorResponse RATE_LIMITED "GitHub API rate limit exceeded"
          (Some [("reset_at", v)])
    | Throw e => on_throw e
    end
  else
    createErrorResponse UPSTREAM_ERROR "Access forbidden"
      (Some [("status", DNum 403)]).

Definition repoOverview (repoUrl : string) : io (ApiResponse RepoOverviewData) :=
  match parseRepoUrl repoUrl with
  | None => Ret (invalid_url repoUrl)
  | Some repoInfo =>
      let apiUrl := repo_api_url (pr_owner repoInfo) (pr_repo repoInfo) in
      r ← rateLimitedFetch SRepo apiUrl;
      Ret
        match r with
        | Throw e => on_throw e
        | Ok response =>
            if status response =? 404 then
              createErrorResponse UPSTREAM_ERROR
                ("Repository not found: " +:+ pr_owner repoInfo +:+ "/"
                   +:+ pr_repo repoInfo)
                (Some [("status", DNum 404)])
            else if status response =? 403 then forbidden response
            else if negb (ok response) then
              createErrorResponse UPSTREAM_ERROR
                ("GitHub API error: " +:+ Js.string_of_Z (status response)
                   +:+ " " +:+ statusText response)
                (Some [("status", DNum (status response))])
            else
              match body response with
              | Throw e => on_throw e
              | Ok data =>
                  createSuccessResponse
                    {| ov_name := name data;
                       ov_full_name := full_name data;
                       ov_description := description data;
                       ov_stars := stargazers_count data;
                       ov_forks := forks_count data;
                       ov_language := language data;
                       ov_topics := default [] (topics data);
                       ov_license := spdx_id <$> license data;
                       ov_created_at := created_at data;
                       ov_updated_at := updated_at data;
                       ov_default_branch := default_branch data;
                       ov_homepage := homepage data;
                       ov_owner :=
                         {| login := login (owner data);
                            avatar_url := avatar_url (owner data);
                            type := type (owner data) |} |}
                    {| opt_source := Some apiUrl;
                       opt_warnings := None;
                       opt_next_cursor := None |}
              end
        end
  end.

(** *** [src/tools/files.ts] *)

Definition DEFAULT_PATHS : list string :=
  ["README.md"; "LICENSE"; "package.json"; "pyproject.toml"].

(** The [url] of [fetchRawFile]. *)
Definition raw_file_url (owner repo branch path : string) : string :=
  "https://raw.githubusercontent.com/" +:+ owner +:+ "/" +:+ repo +:+ "/"
    +:+ branch +:+ "/" +:+ path.

Definition fetchRawFile (owner repo branch path : string) : io FileContent :=
  let url := raw_file_url owner repo branch path in
  let failed (msg : string) :=
    {| path := path; content := None; size := None; encoding := "utf-8";
       error := Some msg |} in
  let caught (e : thrown) :=
    failed match e with
           | ThrownError _ message => message
           | ThrownOther => "Unknown error"
           end in
  r ← rateLimitedFetch SText url;
  Ret
    match r with
    | Throw e => caught e
    | Ok response =>
        if status response =? 404 then failed "File not found"
        else if negb (ok response) then
          failed ("HTTP " +:+ Js.string_of_Z (status response) +:+ ": "
                    +:+ statusText response)
        else
          match body response with
          | Throw e => caught e
          | Ok text =>
              {| path := path; content := Some text;
                 size := Some (Z.of_nat (String.length text));
                 encoding := "utf-8"; error := None |}
          end
    end.

Definition getDefaultBranch (owner repo : string) : io (option string) :=
  let apiUrl := repo_api_url owner repo in
  r ← rateLimitedFetch SBranch apiUrl;
  Ret
    match r with
    | Throw _ => None
    | Ok response =>
        if negb (ok response) then None
        else
          match body response with
          | Throw _ => None
          | Ok data_default_branch => Some (default "main" data_default_branch)
          end
    end.

(** [fetchRawFile] catches what it throws and [getDefaultBranch] does too,
    and nothing else in the [try] block can throw, so the [catch] block of
    [extractKeyFiles] is never entered. *)
Definition extractKeyFiles (repoUrl : string) (paths : option (list string))
  : io (ApiResponse ExtractKeyFilesData) :=
  match parseRepoUrl repoUrl with
  | None => Ret (invalid_url repoUrl)
  | Some repoInfo =>
      let filePaths :=
        match paths with
        | Some ps => if 0 <? Z.of_nat (length ps) then ps else DEFAULT_PATHS
        | None => DEFAULT_PATHS
        end in
      defaultBranch ← getDefaultBranch (pr_owner repoInfo) (pr_repo repoInfo);
      if Js.truthy defaultBranch then
        let branch := default "" defaultBranch in
        files ← all (fetchRawFile (pr_owner repoInfo) (pr_repo repoInfo) branch)
                    filePaths;
        let filesNotFound :=
          List.filter (fun f => bool_decide (error f = Some "File not found"))
            files in
        let filesWithErrors :=
          List.filter
            (fun f => Js.truthy (error f)
                      && negb (bool_decide (error f = Some "File not found")))
            files in
        let warnings :=
          ((if 0 <? Z.of_nat (length filesNotFound)
           then ["Files not found: " +:+ Js.join ", " (map path filesNotFound)]
           else [])
          ++
          (if 0 <? Z.of_nat (length filesWithErrors)
           then ["Errors fetching files: "
                   +:+ Js.join "; "
                         (map (fun f => path f +:+ ": " +:+ default "" (error f))
                            filesWithErrors)]
           else []))%list in
        Ret (createSuccessResponse
               {| files := files; kf_default_branch := branch |}
               {| opt_source :=
                    Some ("https://github.com/" +:+ pr_owner repoInfo +:+ "/"
                            +:+ pr_repo repoInfo);
                  opt_warnings := Some warnings;
                  opt_next_cursor := None |})
      else
        Ret (createErrorResponse UPSTREAM_ERROR
               ("Could not determine default branch for " +:+ pr_owner repoInfo
                  +:+ "/" +:+ pr_repo repoInfo
                  +:+ ". Repository may not exist or be private.")
               (Some [("owner", DStr (pr_owner repoInfo));
                      ("repo", DStr (pr_repo repoInfo))]))
  end.

(** *** [src/tools/releases.ts] *)

(** The page number of the [rel="next"] link, as the tool reads it. *)
Definition next_cursor_of (linkHeader : option string) : option string :=
  match linkHeader with
  | Some h =>
      if Js.truthy linkHeader && Js.includes ("rel=" +:+ Js.quoted "next") h
      then Js.search_page_rel "next" h
      else None
  | None => None
  end.

(** [limit: number = 5]: the limit is whatever number the caller passes,
    and 5 when it passes none. *)
Definition releaseNotes (repoUrl : string) (limit_arg : option Js.double)
  : io (ApiResponse ReleaseNotesData) :=
  let limit := default (Js.Whole 5) limit_arg in
  match parseRepoUrl repoUrl with
  | None => Ret (invalid_url repoUrl)
  | Some repoInfo =>
      if Js.less_than limit 1 || Js.greater_than limit 100 then
        Ret (createErrorResponse INVALID_INPUT "Limit must be between 1 and 100"
               (Some [("provided_limit", DNumber limit)]))
      else
        let apiUrl :=
          repo_api_url (pr_owner repoInfo) (pr_repo repoInfo)
            +:+ "/releases?per_page=" +:+ Js.double_to_string limit in
        r ← rateLimitedFetch SReleases apiUrl;
        Ret
          match r with
          | Throw e => on_throw e
          | Ok response =>
              if status response =? 404 then
                createErrorResponse UPSTREAM_ERROR
                  ("Repository not found: " +:+ pr_owner repoInfo +:+ "/"
                     +:+ pr_repo repoInfo)
                  (Some [("status", DNum 404)])
              else if status response =? 403 then forbidden response
              else if negb (ok response) then
                createErrorResponse UPSTREAM_ERROR
                  ("GitHub API error: " +:+ Js.string_of_Z (status response)
                     +:+ " " +:+ statusText response)
                  (Some [("status", DNum (status response))])
              else
                match body response with
                | Throw e => on_throw e
                | Ok data =>
                    let releases :=
                      map (fun release =>
                             {| tag_name := tag_name release;
                                rel_name := rel_name release;
                                rel_body := rel_body release;
                                published_at := published_at release;
                                prerelease := prerelease release;
                                draft := draft release;
                                html_url := html_url release |}) data in
                    let nextCursor :=
                      next_cursor_of (headers_get response "link") in
                    createSuccessResponse
                      {| releases := releases;
                         total_count := Z.of_nat (length releases) |}
                      {| opt_source := Some apiUrl;
                         opt_next_cursor := nextCursor;
                         opt_warnings :=
                           Some (if Z.of_nat (length releases) =? 0
                                 then ["No releases found for this repository"]
                                 else []) |}
                end
          end
  end.

(** *** [src/tools/activity.ts] *)

Definition fetchRepoInfo (owner repo : string) : io (option GitHubRepoResponse) :=
  let url := repo_api_url owner repo in
  r ← rateLimitedFetch SRepo url;
  Ret
    match r with
    | Throw _ => None
    | Ok response =>
        if negb (ok response) then None
        else match body response with
             | Ok data => Some data
             | Throw _ => None
             end
    end.

Definition fetchLatestCommit (owner repo : string)
  : io (option GitHubCommitResponse) :=
  let url := repo_api_url owner repo +:+ "/commits?per_page=1" in
  r ← rateLimitedFetch SCommits url;
  Ret
    match r with
    | Throw _ => None
    | Ok response =>
        if negb (ok response) then None
        else match body response with
             | Ok data => if 0 <? Z.of_nat (length data) then head data else None
             | Throw _ => None
             end
    end.

(** What the two count fetches do with a response: the page number of the
    [rel="last"] link if the header has one, else the length of the
    array. *)
Definition count_of_response {E} (response : Response (list E))
  : option Js.number :=
  if negb (ok response) then None
  else
    let linkHeader := headers_get response "link" in
    let lastMatch :=
      match linkHeader with
      | Some h => if Js.truthy linkHeader then Js.search_page_rel "last" h
                  else None
      | None => None
      end in
    match lastMatch with
    | Some group1 => Some (Js.parseInt group1 10)
    | None =>
        match body response with
        | Ok data => Some (Js.Int (Z.of_nat (length data)))
        | Throw _ => None
        end
    end.

Definition fetchOpenPRsCount (owner repo : string) : io (option Js.number) :=
  let url := repo_api_url owner repo +:+ "/pulls?state=open&per_page=1" in
  r ← rateLimitedFetch SPulls url;
  Ret
    match r with
    | Throw _ => None
    | Ok response => count_of_response response
    end.

Definition fetchContributorsCount (owner repo : string)
  : io (option Js.number) :=
  let url :=
    repo_api_url owner repo +:+ "/contributors?per_page=1&anon=true" in
  r ← rateLimitedFetch SContributors url;
  Ret
    match r with
    | Throw _ => None
    | Ok response => count_of_response response
    end.

(** What [activitySnapshot] does with what its four fetches returned:
    the rest of its [try] block, and its [catch] block.  The fetches catch
    what they throw; what can be thrown here is the [TypeError] of reading
    the author or the date of a commit that has none. *)
Definition merge_activity (repoInfo : ParsedRepoInfo)
    (repoData : option GitHubRepoResponse)
    (latestCommit : option GitHubCommitResponse)
    (openPRsCount contributorsCount : option Js.number)
  : ApiResponse ActivitySnapshotData :=
  match repoData with
  | None =>
      createErrorResponse UPSTREAM_ERROR
        ("Could not fetch repository data for " +:+ pr_owner repoInfo +:+ "/"
           +:+ pr_repo repoInfo
           +:+ ". Repository may not exist or be private.")
        (Some [("owner", DStr (pr_owner repoInfo));
               ("repo", DStr (pr_repo repoInfo))])
  | Some repoData =>
      let warnings :=
        ((if openPRsCount is None
          then ["Could not fetch open PRs count"] else [])
         ++ (if contributorsCount is None
             then ["Could not fetch contributors count"] else [])
         ++ (if latestCommit is None
             then ["Could not fetch latest commit information"] else []))%list in
      (* latestCommit?.commit.author.date ?? null *)
      let commitDate : result (option string) :=
        match latestCommit with
        | None => Ok None
        | Some c =>
            match reading "author" (commit c) with
            | Throw e => Throw e
            | Ok detail =>
                match reading "date" (author detail) with
                | Throw e => Throw e
                | Ok a => Ok (date a)
                end
            end
        end in
      (* latestCommit?.commit.message ?? null *)
      let commitMessage : result (option string) :=
        match latestCommit with
        | None => Ok None
        | Some c =>
            match reading "message" (commit c) with
            | Throw e => Throw e
            | Ok detail => Ok (commit_message detail)
            end
        end in
      match commitDate, commitMessage with
      | Throw e, _ => on_throw e
      | Ok _, Throw e => on_throw e
      | Ok d, Ok m =>
          createSuccessResponse
            {| last_commit_date := d;
               last_commit_message := m;
               as_open_issues_count := open_issues_count repoData;
               open_prs_count := default (Js.Int 0) openPRsCount;
               contributors_count := default (Js.Int 0) contributorsCount;
               as_watchers_count := watchers_count repoData;
               as_has_wiki := has_wiki repoData;
               as_has_discussions := has_discussions repoData |}
            {| opt_source :=
                 Some (repo_api_url (pr_owner repoInfo) (pr_repo repoInfo));
               opt_warnings := Some warnings;
               opt_next_cursor := None |}
      end
  end.

Definition activitySnapshot (repoUrl : string)
  : io (ApiResponse ActivitySnapshotData) :=
  match parseRepoUrl repoUrl with
  | None => Ret (invalid_url repoUrl)
  | Some repoInfo =>
      '(repoData, latestCommit, openPRsCount, contributorsCount) ←
        Promise_all4
          (fetchRepoInfo (pr_owner repoInfo) (pr_repo repoInfo))
          (fetchLatestCommit (pr_owner repoInfo) (pr_repo repoInfo))
          (fetchOpenPRsCount (pr_owner repoInfo) (pr_repo repoInfo))
          (fetchContributorsCount (pr_owner repoInfo) (pr_repo repoInfo));
      Ret (merge_activity repoInfo repoData latestCommit openPRsCount
             contributorsCount)
  end.

End Tools.


(** ** The throttle of [rateLimitedFetch] on the event loop

    [rateLimitedFetch] reads the clock and [lastRequestTime], sleeps if the
    last call is less than [requestDelayMs] old, then writes
    [lastRequestTime] and calls [fetch].  JavaScript runs one task at a
    time: a call runs without interruption up to its [await], and what
    follows the [await] runs when its timer fires.  The state below is the
    module variable, the clock, the timers that are pending and the log of
    dispatched calls. *)

Module RateLimiter.

Record state : Type := {
  clock : Z;                       (* Date.now() *)
  lastRequestTime : Z;
  timers : list (Z * nat);         (* due time and caller, oldest first *)
  dispatched : list (nat * Z)      (* caller and time of its fetch *)
}.

(** [let lastRequestTime = 0], at some time after the process started. *)
Definition init (t0 : Z) : state :=
  {| clock := t0; lastRequestTime := 0; timers := []; dispatched := [] |}.

(** Line 25 and the [fetch] that follows:
    [lastRequestTime = Date.now()], then the request leaves. *)
Definition dispatch (id : nat) (st : state) : state :=
  {| clock := clock st;
     lastRequestTime := clock st;
     timers := timers st;
     dispatched := (dispatched st ++ [(id, clock st)])%list |}.

(** Lines 15 to 23: a caller enters [rateLimitedFetch].  With the last
    request recent, the caller sets a timer and yields; otherwise it goes
    on to dispatch at once. *)
Definition enter (requestDelayMs : Z) (id : nat) (st : state) : state :=
  let now := clock st in
  let timeSinceLastRequest := now - lastRequestTime st in
  if timeSinceLastRequest <? requestDelayMs then
    {| clock := clock st;
       lastRequestTime := lastRequestTime st;
       timers :=
         (timers st ++ [(now + (requestDelayMs - timeSinceLastRequest), id)])%list;
       dispatched := dispatched st |}
  else dispatch id st.

(** The pending timer that fires first: the earliest due time, the oldest
    among equals; and the timers that stay. *)
Fixpoint earliest (l : list (Z * nat)) : option ((Z * nat) * list (Z * nat)) :=
  match l with
  | [] => None
  | t :: l' =>
      match earliest l' with
      | Some (t', rest) =>
          if fst t' <? fst t then Some (t', t :: rest) else Some (t, l')
      | None => Some (t, [])
      end
  end.

(** Time passes up to [target] on an event loop whose timers are
    punctual: every timer due by then fires in turn, at its due time, the
    oldest first among those due together, and its caller resumes after
    the [await].  The timers of Node promise less: [EventLoop] below
    leaves the moment and the order in which they fire open. *)
Fixpoint fire_due (fuel : nat) (target : Z) (st : state) : state :=
  match fuel with
  | O => st
  | S fuel' =>
      match earliest (timers st) with
      | Some ((due, id), rest) =>
          if due <=? target then
            fire_due fuel' target
              (dispatch id
                 {| clock := Z.max (clock st) due;
                    lastRequestTime := lastRequestTime st;
                    timers := rest;
                    dispatched := dispatched st |})
          else st
      | None => st
      end
  end.

Definition elapse (ms : Z) (st : state) : state :=
  let target := clock st + ms in
  let st' := fire_due (length (timers st)) target st in
  {| clock := Z.max (clock st') target;
     lastRequestTime := lastRequestTime st';
     timers := timers st';
     dispatched := dispatched st' |}.

(** What happens to the module: a caller enters, or time passes. *)
Inductive event : Type :=
| Call (id : nat)
| Elapse (ms : Z).

Definition step (requestDelayMs : Z) (st : state) (e : event) : state :=
  match e with
  | Call id => enter requestDelayMs id st
  | Elapse ms => elapse ms st
  end.

Definition run_events (requestDelayMs : Z) (evs : list event) (st : state) : state :=
  fold_left (step requestDelayMs) evs st.

(** The times at which the calls were dispatched, in order. *)
Definition dispatch_times (st : state) : list Z := map snd (dispatched st).

(** Successive times are at least [d] apart. *)
Fixpoint spaced (d : Z) (ts : list Z) : Prop :=
  match ts with
  | t1 :: ((t2 :: _) as ts') => t1 + d <= t2 /\ spaced d ts'
  | _ => True
  end.

(** The four fetches [activitySnapshot] starts inside one [Promise.all],
    none awaited before the next begins, and then a second going by. *)
Definition concurrent_calls : list event :=
  [Call 0%nat; Call 1%nat; Call 2%nat; Call 3%nat; Elapse 1000].

(** What holds between two callers that do not overlap: no timer is
    pending, and every call so far was dispatched by [lastRequestTime], at
    least [d] after the one before. *)
Definition settled (d : Z) (st : state) : Prop :=
  timers st = [] /\ lastRequestTime st <= clock st
  /\ spaced d (dispatch_times st)
  /\ Forall (fun x => x <= lastRequestTime st) (dispatch_times st).

End RateLimiter.

(** ** The throttle with timers as they come

    [setTimeout] promises no exact time.  The callback runs once the event
    loop gets to it: by the clock [Date.now()] reads that can be later
    than asked, or a little earlier, and callbacks that are due together
    can run in any order.  Here both are left to the environment: a run
    is a sequence of callers that enter [rateLimitedFetch], of the clock
    moving on, and of waiting callers that are resumed, each whenever the
    environment has it. *)

Module EventLoop.
Import RateLimiter.

Inductive event : Type :=
| Enter (id : nat)
| Pass (ms : Z)
| Resume (id : nat).

(** The due time of the timer the caller [id] waits on, if it waits. *)
Fixpoint waiting (id : nat) (l : list (Z * nat)) : option Z :=
  match l with
  | [] => None
  | (due, id') :: l' => if Nat.eqb id' id then Some due else waiting id l'
  end.

(** The timers without the one of the caller [id]. *)
Fixpoint cleared (id : nat) (l : list (Z * nat)) : list (Z * nat) :=
  match l with
  | [] => []
  | (due, id') :: l' =>
      if Nat.eqb id' id then l' else (due, id') :: cleared id l'
  end.

(** The timer of the caller [id] fires: the caller goes on after its
    [await], writes [lastRequestTime] and calls [fetch], whatever the
    clock reads by now.  It does not look at [lastRequestTime] again. *)
Definition resume (id : nat) (st : state) : state :=
  match waiting id (timers st) with
  | Some _ =>
      dispatch id
        {| clock := clock st;
           lastRequestTime := lastRequestTime st;
           timers := cleared id (timers st);
           dispatched := dispatched st |}
  | None => st
  end.

Definition pass (ms : Z) (st : state) : state :=
  {| clock := clock st + ms;
     lastRequestTime := lastRequestTime st;
     timers := timers st;
     dispatched := dispatched st |}.

Definition step (requestDelayMs : Z) (st : state) (e : event) : state :=
  match e with
  | Enter id => enter requestDelayMs id st
  | Pass ms => pass ms st
  | Resume id => resume id st
  end.

Definition run (requestDelayMs : Z) (evs : list event) (st : state) : state :=
  fold_left (step requestDelayMs) evs st.

(** A run in which callers do not overlap, the clock does not go back and
    no timer fires more than [early] before it is due: a caller enters
    only when none is waiting, and a caller is resumed only if it waits,
    and not more than [early] before the due time of its timer. *)
Fixpoint orderly (early requestDelayMs : Z) (evs : list event) (st : state)
  : Prop :=
  match evs with
  | [] => True
  | e :: evs' =>
      match e with
      | Enter _ => timers st = []
      | Pass ms => 0 <= ms
      | Resume id =>
          exists due, waiting id (timers st) = Some due /\ due - early <= clock st
      end
      /\ orderly early requestDelayMs evs' (step requestDelayMs st e)
  end.

(** What a run with callers that do not overlap keeps: the calls so far
    are spaced and none is later than [lastRequestTime], and the one
    caller that may be waiting waits for [lastRequestTime + d]. *)
Definition spaced_so_far (early d : Z) (st : state) : Prop :=
  lastRequestTime st <= clock st
  /\ spaced (d - early) (dispatch_times st)
  /\ Forall (fun x => x <= lastRequestTime st) (dispatch_times st)
  /\ (timers st = [] \/ exists id, timers st = [(lastRequestTime st + d, id)]).

End EventLoop.


(** ** Notions of the specification

    These definitions follow the words of the specification, not the
    source; the theorems compare the tools with them. *)

Module Spec.

(** [s.split(c)] for any separator character. *)
Fixpoint split_char (c : ascii) (s : string) : list string :=
  match s with
  | "" => [""]
  | String a s' =>
      if Ascii.eqb a c then "" :: split_char c s'
      else match split_char c s' with
           | seg :: segs => String a seg :: segs
           | [] => [String a ""]
           end
  end.

(** The text before the first [c], and what follows that [c]. *)
Fixpoint cut_at (c : ascii) (s : string) : option (string * string) :=
  match s with
  | "" => None
  | String a s' =>
      if Ascii.eqb a c then Some ("", s')
      else match cut_at c s' with
           | Some (l, r) => Some (String a l, r)
           | None => None
           end
  end.

Definition all_digits (s : string) : bool :=
  forallb Js.is_digit (list_ascii_of_string s).

(** The number a string of decimal digits writes. *)
Definition decimal (s : string) : Z :=
  fold_left (fun acc c => 10 * acc + (Js.code c - 48)) (list_ascii_of_string s) 0.

(** The value of the query parameter [name] of a URL. *)
Definition query_param (name url : string) : option string :=
  match cut_at "?" url with
  | None => None
  | Some (_, query) =>
      head (omap (Js.strip_prefix (name +:+ "=")) (split_char "&" query))
  end.

(** One entry [<URL>; rel="REL"] of a [Link] header: the URL, if the entry
    has the relation [rel]. *)
Definition link_target (rel entry : string) : option string :=
  match cut_at "<" entry with
  | None => None
  | Some (_, r) =>
      match cut_at ">" r with
      | None => None
      | Some (url, params) =>
          if Js.includes ("rel=" +:+ Js.quoted rel) params then Some url else None
      end
  end.

(** "The page number of the [rel] marker": the [page] parameter of the URL
    that the [Link] header gives for the relation [rel]. *)
Definition link_page (rel header : string) : option string :=
  match omap (link_target rel) (split_char "," header) with
  | url :: _ =>
      match query_param "page" url with
      | Some ds => if all_digits ds && negb (String.eqb ds "") then Some ds else None
      | None => None
      end
  | [] => None
  end.

(** The non-empty segments of a path, read off from left to right. *)
Fixpoint path_segments_from (cur : string) (s : string) : list string :=
  match s with
  | "" => if String.eqb cur "" then [] else [cur]
  | String c s' =>
      if Ascii.eqb c "/"
      then (if String.eqb cur "" then [] else [cur]) ++ path_segments_from "" s'
      else path_segments_from (cur +:+ String c "") s'
  end%list.

Definition path_segments (p : string) : list string := path_segments_from "" p.

(** [repo] is [seg] without its trailing [.git], if [seg] has one, and
    [seg] itself otherwise. *)
Definition without_dot_git (seg repo : string) : Prop :=
  (exists s, seg = s +:+ ".git" /\ repo = s)
  \/ ((forall s, seg <> s +:+ ".git") /\ repo = seg).

(** The length in bytes of a string once encoded as UTF-8: a code unit
    below 128 takes one byte, one from 128 to 255 takes two. *)
Definition utf8_byte_length (s : string) : Z :=
  fold_left (fun acc c => acc + (if Js.code c <? 128 then 1 else 2))
    (list_ascii_of_string s) 0.

(** The paths the key-files tool is asked for: the given list, or the
    default list when none or an empty one is given. *)
Definition requested_paths (paths : option (list string)) : list string :=
  match paths with
  | Some (p :: ps) => p :: ps
  | Some [] | None => DEFAULT_PATHS
  end.

Definition is_not_found (f : FileContent) : bool :=
  bool_decide (error f = Some "File not found").

(** Any other error that has a text. *)
Definition is_other_error (f : FileContent) : bool :=
  match error f with
  | Some e => negb (String.eqb e "") && negb (String.eqb e "File not found")
  | None => false
  end.

(** The warning that lists the files not found, if there is one. *)
Definition not_found_warning (fs : list FileContent) : list string :=
  match List.filter is_not_found fs with
  | [] => []
  | nf => ["Files not found: " +:+ Js.join ", " (map path nf)]
  end.

(** The warning that lists the other per-file errors, if there is one. *)
Definition other_errors_warning (fs : list FileContent) : list string :=
  match List.filter is_other_error fs with
  | [] => []
  | errs =>
      ["Errors fetching files: "
         +:+ Js.join "; "
               (map (fun f => path f +:+ ": " +:+ default "" (error f)) errs)]
  end.

(** A fetch that failed: it rejected, or it answered outside 2xx. *)
Definition failed {B} (r : result (Response B)) : Prop :=
  match r with
  | Throw _ => True
  | Ok response => ok response = false
  end.

(** A fetch that succeeded with [data]: it answered 2xx and its body was
    read as [data]. *)
Definition succeeded {B} (r : result (Response B)) (data : B) : Prop :=
  exists response, r = Ok response /\ ok response = true /\ body response = Ok data.

(** A commit whose author can be read: it has a [commit] member, and
    that has an [author] member. *)
Definition readable (c : GitHubCommitResponse) : Prop :=
  exists detail a, commit c = Present detail /\ author detail = Present a.

(** The commits fetch did not bring a commit that cannot be read. *)
Definition first_commit_readable
    (r : result (Response (list GitHubCommitResponse))) : Prop :=
  forall c rest, succeeded r (c :: rest) -> readable c.

(** One for a value that is missing, zero for one that is there. *)
Definition missing {A} (o : option A) : nat :=
  match o with
  | None => 1
  | Some _ => 0
  end.

(** What the specification asks of the envelope [r] a tool returns for a
    403 [response], at the time [now]: with [x-ratelimit-remaining] equal
    to [0] it is [RATE_LIMITED], and [reset_at] is null when there is no
    reset header, and an ISO-8601 timestamp of the reset time when the
    header holds epoch seconds that [Date] can represent; any other 403
    is an [UPSTREAM_ERROR]. *)
Definition forbidden_classified {T B} (now : string) (response : Response B)
    (r : ApiResponse T) : Prop :=
  let resetTime := headers_get response "x-ratelimit-reset" in
  let rate_limited reset_at :=
    ErrorResponse
      {| code := RATE_LIMITED; message := "GitHub API rate limit exceeded";
         details := [("reset_at", reset_at)] |} now in
  if decide (headers_get response "x-ratelimit-remaining" = Some "0") then
    (resetTime = None -> r = rate_limited DNull)
    /\ (forall s, resetTime = Some s -> s <> "" -> all_digits s = true ->
         decimal s * 1000 <= JsDate.maxTime ->
         exists iso, r = rate_limited (DStr iso)
                     /\ JsDate.is_iso8601 iso = true
                     /\ JsDate.time_of_iso iso = Some (decimal s * 1000))
  else
    ok_flag r = false /\ error_code r = Some UPSTREAM_ERROR.

(** A reset header the tools cannot turn into a time: it is not empty,
    and [parseInt] reads no number from it, or reads a number of seconds
    beyond the times [Date] represents. *)
Definition reset_unreadable (s : string) : Prop :=
  s <> ""
  /\ (Js.parseInt s 0 = Js.NaN
      \/ exists n, Js.parseInt s 0 = Js.Int n
                   /\ (n * 1000 < - JsDate.maxTime \/ JsDate.maxTime < n * 1000)).

(** The text [pre] ends with the mark that opens a query parameter, so
    that a [page=] that follows it is a parameter of its own and not the
    tail of another name, such as [per_page=]. *)
Definition opens_parameter (pre : string) : Prop :=
  exists p, pre = p +:+ "?" \/ pre = p +:+ "&".

(** What the activity snapshot reads as a count from a [response].  An
    answer outside 2xx gives no count, whatever its headers.  For a 2xx
    answer: if the [Link] header reads [...page=N>; rel="last"...], where
    the page parameter closes the URL of the first [rel="last"] link, the
    count is [N]; if there is no [Link] header, or none with a
    [rel="last"] link, the count is the length of the array in the
    body. *)
Definition count_read {E} (response : Response (list E))
    (count : option Js.number) : Prop :=
  (ok response = false -> count = None)
  /\ (ok response = true ->
      forall pre ds post,
        headers_get response "link"
          = Some (pre +:+ "page=" +:+ ds +:+ ">; rel=" +:+ Js.quoted "last" +:+ post) ->
        opens_parameter pre ->
        Js.includes ("rel=" +:+ Js.quoted "last") pre = false ->
        ds <> "" -> all_digits ds = true -> decimal ds <= 2 ^ 53 ->
        count = Some (Js.Int (decimal ds)))
  /\ (ok response = true ->
      forall data,
        headers_get response "link" = None
        \/ (exists h, headers_get response "link" = Some h
                      /\ Js.includes ("rel=" +:+ Js.quoted "last") h = false) ->
        body response = Ok data ->
        count = Some (Js.Int (Z.of_nat (length data)))).

(** What the release notes read as the next cursor from a [response]. If
    the [Link] header reads [...page=N>; rel="next"...], where the page
    parameter closes the URL of the first [rel="next"] link, the cursor is
    the digits of [N]; if there is no [Link] header, or none with a
    [rel="next"] link, there is no cursor. *)
Definition cursor_read {B} (response : Response B) (cursor : option string) : Prop :=
  (forall pre ds post,
     headers_get response "link"
       = Some (pre +:+ "page=" +:+ ds +:+ ">; rel=" +:+ Js.quoted "next" +:+ post) ->
     opens_parameter pre ->
     Js.includes ("rel=" +:+ Js.quoted "next") pre = false ->
     ds <> "" -> all_digits ds = true ->
     cursor = Some ds)
  /\ (headers_get response "link" = None
      \/ (exists h, headers_get response "link" = Some h
                    /\ Js.includes ("rel=" +:+ Js.quoted "next") h = false) ->
      cursor = None).

(** The limit passes the range test of the release notes: it is not
    below 1 and not above 100. *)
Definition limit_accepted (limit : Js.double) : Prop :=
  Js.less_than limit 1 = false /\ Js.greater_than limit 100 = false.

(** The character [c] occurs nowhere in [s]. *)
Definition free_of (c : ascii) (s : string) : Prop :=
  forall a b, s <> a +:+ String c b.

End Spec.

(** ** Concrete upstreams and inputs *)

Module Examples.

(** [new URL] on the plainest input, [https://host/path] with no port,
    credentials, query or fragment; everything else is rejected.  It is
    used to run the tools on concrete URLs only. *)
Definition plain_URL (s : string) : option URL :=
  match Js.strip_prefix "https://" s with
  | None => None
  | Some r =>
      match Spec.cut_at "/" r with
      | Some (h, p) =>
          if String.eqb h "" then None
          else Some {| hostname := h; pathname := String "/" p |}
      | None =>
          if String.eqb r "" then None
          else Some {| hostname := r; pathname := "/" |}
      end
  end.

Definition now : string := "2024-01-15T10:00:00.000Z".

Definition respond {B} (st : Z) (text : string) (h : gmap string string)
    (b : result B) : result (Response B) :=
  Ok {| status := st; statusText := text; headers := h; body := b |}.

Definition unparsed : thrown :=
  ThrownError "SyntaxError" "Unexpected end of JSON input".

Definition fetch_failed : thrown := ThrownError "TypeError" "fetch failed".

Definition link_of (url rel : string) : string :=
  "<" +:+ url +:+ ">; rel=" +:+ Js.quoted rel.

Definition newline : string := String "010" "".

(** The one-character string [é], code unit 233. *)
Definition e_acute : string := String "233" "".

(** The upstream of the key-files example of the specification: the
    default branch is [main], the README is there, the other three files
    are not. *)
Definition key_files_upstream : upstream :=
  fun s url =>
    match s return result (Response (body_of s)) with
    | SBranch => respond 200 "OK" ∅ (Ok (Some "main"))
    | SText =>
        if String.eqb url "https://raw.githubusercontent.com/owner/test-repo/main/README.md"
        then respond 200 "OK" ∅ (Ok ("# Test Repo" +:+ newline +:+ "Description here"))
        else respond 404 "Not Found" ∅ (Ok "404: Not Found")
    | _ => Throw fetch_failed
    end.

(** An upstream that answers every call with status [st] and the given
    status text and headers, and a body that does not parse. *)
Definition status_upstream (st : Z) (text : string) (h : gmap string string)
  : upstream :=
  fun s url => respond st text h (Throw unparsed).

(** An upstream whose raw files all hold [text]. *)
Definition text_upstream (text : string) : upstream :=
  fun s url =>
    match s return result (Response (body_of s)) with
    | SBranch => respond 200 "OK" ∅ (Ok (Some "main"))
    | SText => respond 200 "OK" ∅ (Ok text)
    | _ => Throw fetch_failed
    end.

Definition repo_payload : GitHubRepoResponse :=
  {| name := "test-repo"; full_name := "owner/test-repo";
     description := Some "Test repository";
     stargazers_count := 100; forks_count := 20;
     language := Some "TypeScript"; topics := Some ["test"];
     license := Some {| spdx_id := "MIT"; license_name := "MIT License" |};
     created_at := "2023-01-01T00:00:00Z"; updated_at := "2024-01-01T00:00:00Z";
     default_branch := "main"; homepage := None;
     open_issues_count := 15; watchers_count := 100;
     has_wiki := true; has_discussions := true;
     owner := {| login := "owner"; avatar_url := "https://github.com/owner.png";
                 type := "User" |} |}.

Definition commit_payload : GitHubCommitResponse :=
  {| sha := "def456";
     commit :=
       Present {| commit_message := Some "fix: resolve bug in parser";
                  author :=
                    Present {| author_name := "Developer";
                               date := Some "2024-06-15T14:30:00Z" |} |} |}.

Definition contributor_payload : GitHubContributorResponse :=
  {| contributor_login := "contributor1"; contributions := 50 |}.

Definition release_payload : ReleaseData :=
  {| tag_name := "v1.0.0"; rel_name := Some "Version 1.0.0";
     rel_body := Some "Initial release";
     published_at := Some "2024-01-01T00:00:00Z";
     prerelease := false; draft := false;
     html_url := "https://github.com/owner/repo/releases/tag/v1.0.0" |}.

(** An upstream for the activity snapshot and the release notes: every
    call succeeds, and the pulls, contributors and releases answers carry
    the given [Link] headers. *)
Definition linked_upstream (pulls_link contributors_link releases_link : string)
  : upstream :=
  fun s url =>
    match s return result (Response (body_of s)) with
    | SRepo => respond 200 "OK" ∅ (Ok repo_payload)
    | SBranch => respond 200 "OK" ∅ (Ok (Some "main"))
    | SCommits => respond 200 "OK" ∅ (Ok [commit_payload])
    | SPulls =>
        respond 200 "OK" {[ "link" := pulls_link ]}
          (Ok [ {| number := 42; state := "open" |} ])
    | SContributors =>
        respond 200 "OK" {[ "link" := contributors_link ]}
          (Ok [contributor_payload])
    | SReleases =>
        respond 200 "OK" {[ "link" := releases_link ]} (Ok [release_payload])
    | SText => respond 200 "OK" ∅ (Ok "")
    end.

(** The [Link] headers of the tests: the page parameter closes the URL. *)
Definition pulls_link_3 : string :=
  link_of "https://api.github.com/repos/owner/repo/pulls?page=3" "last".

Definition contributors_link_25 : string :=
  link_of "https://api.github.com/repos/owner/repo/contributors?page=25" "last".

(** [Link] headers in which [page] comes before [per_page], the order of
    GitHub's own pagination guide
    ([<https://api.github.com/user/repos?page=50&per_page=100>; rel="last"]). *)
Definition pulls_link_page_first : string :=
  link_of "https://api.github.com/repositories/1/pulls?page=2&state=open&per_page=1" "next"
  +:+ ", "
  +:+ link_of "https://api.github.com/repositories/1/pulls?page=3&state=open&per_page=1" "last".

Definition releases_link_page_first : string :=
  link_of "https://api.github.com/repositories/1/releases?page=2&per_page=5" "next"
  +:+ ", "
  +:+ link_of "https://api.github.com/repositories/1/releases?page=4&per_page=5" "last".

(** A [Link] header in the order GitHub answers with today: the page
    parameter comes last. *)
Definition releases_link_page_last : string :=
  link_of "https://api.github.com/repositories/1/releases?per_page=5&page=2" "next"
  +:+ ", "
  +:+ link_of "https://api.github.com/repositories/1/releases?per_page=5&page=4" "last".

Definition repo_url : string := "https://github.com/owner/test-repo".

Definition test_repo : ParsedRepoInfo :=
  {| pr_owner := "owner"; pr_repo := "test-repo" |}.

(** The headers of a 403 that GitHub sends once the quota is used up. *)
Definition rate_limit_headers : gmap string string :=
  {[ "x-ratelimit-remaining" := "0"; "x-ratelimit-reset" := "1700000000" ]}.

Definition pull_payload : GitHubPullResponse := {| number := 42; state := "open" |}.

(** The headers of a 403 for a used-up quota whose reset header holds no
    number. *)
Definition unreadable_reset_headers : gmap string string :=
  {[ "x-ratelimit-remaining" := "0"; "x-ratelimit-reset" := "soon" ]}.

(** An upstream whose every call rejects with [e]. *)
Definition rejecting_upstream (e : thrown) : upstream :=
  fun s url => Throw e.

(** The repository is there, the commits call answers 500, the pulls
    call is rejected, and the contributors call lists one contributor. *)
Definition soft_failure_upstream : upstream :=
  fun s url =>
    match s return result (Response (body_of s)) with
    | SRepo => respond 200 "OK" ∅ (Ok repo_payload)
    | SCommits => respond 500 "Internal Server Error" ∅ (Throw unparsed)
    | SContributors => respond 200 "OK" ∅ (Ok [contributor_payload])
    | _ => Throw fetch_failed
    end.

(** The repository and its latest commit are there; the two count calls
    answer 500, each with a [Link] header whose [rel="last"] link marks a
    page. *)
Definition failed_counts_upstream : upstream :=
  fun s url =>
    match s return result (Response (body_of s)) with
    | SRepo => respond 200 "OK" ∅ (Ok repo_payload)
    | SCommits => respond 200 "OK" ∅ (Ok [commit_payload])
    | SPulls =>
        respond 500 "Internal Server Error" {[ "link" := pulls_link_3 ]}
          (Ok [pull_payload])
    | SContributors =>
        respond 500 "Internal Server Error" {[ "link" := contributors_link_25 ]}
          (Ok [contributor_payload])
    | _ => Throw fetch_failed
    end.

(** A commit with [author: null] in its [commit] member. *)
Definition authorless_commit : GitHubCommitResponse :=
  {| sha := "abc123";
     commit :=
       Present {| commit_message := Some "Initial commit";
                  author := Missing JsNull |} |}.

(** A repository whose latest commit is that one. *)
Definition authorless_commit_upstream : upstream :=
  fun s url =>
    match s return result (Response (body_of s)) with
    | SRepo => respond 200 "OK" ∅ (Ok repo_payload)
    | SCommits =>
        respond 200 "OK" ∅ (Ok [authorless_commit])
    | SPulls => respond 200 "OK" ∅ (Ok [])
    | SContributors => respond 200 "OK" ∅ (Ok [])
    | _ => Throw fetch_failed
    end.

(** An upstream that answers the releases call with the list [l] and no
    [Link] header. *)
Definition releases_upstream (l : list ReleaseData) : upstream :=
  fun s url =>
    match s return result (Response (body_of s)) with
    | SReleases => respond 200 "OK" ∅ (Ok l)
    | _ => Throw fetch_failed
    end.

End Examples.

(** ** What became of an outbound call

    The notions in which the outcomes of [repoOverview] and [releaseNotes]
    are stated: what the call resolved to, and what was thrown inside the
    [try] block. *)

Module Outcome.

(** The URL begins with one of the two origins the tools are written
    for. *)
Definition github_origin (u : string) : bool :=
  match Js.strip_prefix "https://api.github.com/repos/" u,
        Js.strip_prefix "https://raw.githubusercontent.com/" u with
  | None, None => false
  | _, _ => true
  end.

(** [error.name === 'AbortError'], for an [Error]. *)
Definition is_abort (e : thrown) : bool :=
  match e with
  | ThrownError name _ => String.eqb name "AbortError"
  | ThrownOther => false
  end.

(** What the [await]s of the [try] block threw: the [fetch] rejected, or
    the answer was a 2xx and reading its body rejected. *)
Definition thrown_in_try {B} (r : result (Response B)) : option thrown :=
  match r with
  | Throw e => Some e
  | Ok response =>
      if ok response
      then match body response with
           | Throw e => Some e
           | Ok _ => None
           end
      else None
  end.

(** A 403 that says the quota is used up. *)
Definition quota_exhausted {B} (response : Response B) : Prop :=
  status response = 403
  /\ headers_get response "x-ratelimit-remaining" = Some "0".

(** How the envelope [res] of a tool relates to the outcome [r] of its
    one call. *)
Record classified {B T} (r : result (Response B)) (res : ApiResponse T) : Prop := {
  success_iff :
    ok_flag res = true <->
    exists response data,
      r = Ok response /\ ok response = true /\ body response = Ok data;
  upstream_error_iff :
    error_code res = Some UPSTREAM_ERROR <->
    exists response,
      r = Ok response /\ ok response = false /\ ~ quota_exhausted response;
  timeout_iff :
    error_code res = Some TIMEOUT <->
    exists e, thrown_in_try r = Some e /\ is_abort e = true;
  internal_error_if :
    forall e, thrown_in_try r = Some e -> is_abort e = false ->
              error_code res = Some INTERNAL_ERROR;
  rate_limited_only_if :
    error_code res = Some RATE_LIMITED ->
    exists response, r = Ok response /\ quota_exhausted response;
  no_other_code :
    error_code res <> Some INVALID_INPUT /\ error_code res <> Some PARSE_ERROR
}.

End Outcome.

(** ** The configuration ([src/config.ts])

    [process.env] is a map from names to strings.  The module variable
    [configInstance] is threaded through [getConfig], [setConfig] and
    [resetConfig] as an [option Config]. *)

Module Config.

Record Config : Type := {
  githubToken : option string;
  requestDelayMs : Z;
  requestTimeoutMs : Z;
  transportMode : string;
  httpPort : Z;
  userAgent : string
}.

Definition Env : Type := gmap string string.

Definition getEnvNumber (env : Env) (key : string) (defaultValue : Z) : Z :=
  match env !! key with
  | None => defaultValue
  | Some value =>
      match Js.parseInt value 10 with
      | Js.NaN => defaultValue
      | Js.Int parsed => parsed
      end
  end.

(** [(value as T) ?? defaultValue]: only a variable that is not set gives
    the default. *)
Definition getEnvString (env : Env) (key : string) (defaultValue : string)
  : string :=
  default defaultValue (env !! key).

Definition loadConfig (env : Env) : Config :=
  {| githubToken := env !! "GITHUB_TOKEN";
     requestDelayMs := getEnvNumber env "REQUEST_DELAY_MS" 100;
     requestTimeoutMs := getEnvNumber env "REQUEST_TIMEOUT_MS" 30000;
     transportMode := getEnvString env "TRANSPORT_MODE" "http";
     httpPort := getEnvNumber env "HTTP_PORT" 8080;
     userAgent := "git-repo-brief/1.0.0" |}.

(** [getConfig()]: the configuration it returns, and [configInstance]
    after the call. *)
Definition getConfig (env : Env) (configInstance : option Config)
  : Config * option Config :=
  match configInstance with
  | Some c => (c, Some c)
  | None => let c := loadConfig env in (c, Some c)
  end.

(** A [Partial<Config>]: each key is absent, or present with a value of
    the type of its field.  [githubToken] may be present and
    [undefined]. *)
Record PartialConfig : Type := {
  set_githubToken : option (option string);
  set_requestDelayMs : option Z;
  set_requestTimeoutMs : option Z;
  set_transportMode : option string;
  set_httpPort : option Z;
  set_userAgent : option string
}.

(** [{ ...c, ...config }]. *)
Definition spread (c : Config) (config : PartialConfig) : Config :=
  {| githubToken := default (githubToken c) (set_githubToken config);
     requestDelayMs := default (requestDelayMs c) (set_requestDelayMs config);
     requestTimeoutMs := default (requestTimeoutMs c) (set_requestTimeoutMs config);
     transportMode := default (transportMode c) (set_transportMode config);
     httpPort := default (httpPort c) (set_httpPort config);
     userAgent := default (userAgent c) (set_userAgent config) |}.

Definition setConfig (env : Env) (config : PartialConfig)
    (configInstance : option Config) : option Config :=
  Some (spread (fst (getConfig env configInstance)) config).

Definition resetConfig (configInstance : option Config) : option Config := None.

(** A call into the module. *)
Inductive call : Type :=
| CallGet
| CallSet (config : PartialConfig)
| CallReset.

(** One call, made while the environment is [env]: what [getConfig]
    returned, if it was the call, and [configInstance] afterwards. *)
Definition step (configInstance : option Config) (c : Env * call)
  : option Config * option Config :=
  match snd c with
  | CallGet =>
      let (cfg, inst) := getConfig (fst c) configInstance in (Some cfg, inst)
  | CallSet config => (None, setConfig (fst c) config configInstance)
  | CallReset => (None, resetConfig configInstance)
  end.

(** A sequence of calls: what each returned, and [configInstance] at the
    end. *)
Fixpoint run_calls (cs : list (Env * call)) (configInstance : option Config)
  : list (option Config) * option Config :=
  match cs with
  | [] => ([], configInstance)
  | c :: cs' =>
      let (out, inst) := step configInstance c in
      let (outs, final) := run_calls cs' inst in
      (out :: outs, final)
  end.

(** Lines 27 to 35 of [rateLimitedFetch] in [src/tools/overview.ts]: the
    headers of the request, as a map from names to values.
    [options_headers] is [options?.headers], a plain object when there is
    one; the four tools pass none. *)
Definition request_headers (config : Config)
    (options_headers : option (gmap string string)) : gmap string string :=
  let headers : gmap string string :=
    default ∅ options_headers
    ∪ {[ "User-Agent" := userAgent config;
         "Accept" := "application/vnd.github.v3+json" ]} in
  if Js.truthy (githubToken config)
  then <[ "Authorization" := "Bearer " +:+ default "" (githubToken config) ]> headers
  else headers.

End Config.

(** ** The command line ([main] of [src/cli.ts])

    [argv] is [process.argv].  The loop reads the arguments from the
    third on: [--stdio] and [--http] set the transport, [--help] and [-h]
    print the usage and leave at once, anything else is passed over. *)

Module Cli.

Inductive action : Type :=
| ShowHelp
| RunHttp
| RunStdio.

(** The [for] loop: the transport it ends with, or [None] when it met
    [--help] or [-h]. *)
Fixpoint scan (args : list string) (transportMode : string) : option string :=
  match args with
  | [] => Some transportMode
  | arg :: rest =>
      if String.eqb arg "--stdio" then scan rest "stdio"
      else if String.eqb arg "--http" then scan rest "http"
      else if String.eqb arg "--help" || String.eqb arg "-h" then None
      else scan rest transportMode
  end.

Definition main (argv : list string) (config : Config.Config) : action :=
  let args := skipn 2 argv in
  match scan args (Config.transportMode config) with
  | None => ShowHelp
  | Some transportMode =>
      if String.eqb transportMode "http" then RunHttp else RunStdio
  end.

(** An argument that sets the transport. *)
Definition sets_transport (arg : string) : bool :=
  String.eqb arg "--stdio" || String.eqb arg "--http".

Definition asks_help (arg : string) : bool :=
  String.eqb arg "--help" || String.eqb arg "-h".

End Cli.

(** ** Callers of the throttle *)

Module Throttle.

(** The callers that enter [rateLimitedFetch] in a run of events, in
    order. *)
Definition callers (evs : list RateLimiter.event) : list nat :=
  omap (fun e => match e with
                 | RateLimiter.Call id => Some id
                 | RateLimiter.Elapse _ => None
                 end) evs.

End Throttle.

(** ** JSON values

    What [JSON.parse] returns, and what the arguments of a tool call are
    made of. *)

Module Json.

(** A number: an integer, or any other number, kept with the text that
    wrote it. *)
Inductive number : Type :=
| Integer (n : Z)
| NonInteger (text : string).

(** The members of an object are its own properties: a name occurs
    once. *)
#[warnings="-register-all"]
Inductive value : Type :=
| JNull
| JBool (b : bool)
| JNum (n : number)
| JStr (s : string)
| JArr (items : list value)
| JObj (members : list (string * value)).

Fixpoint lookup (key : string) (members : list (string * value))
  : option value :=
  match members with
  | [] => None
  | (k, v) :: members' => if String.eqb k key then Some v else lookup key members'
  end.

(** [v.key] and [v?.key], for the keys the handlers read ([jsonrpc],
    [id], [method], [params], [name], [arguments], [repo_url], [paths],
    [limit]): no prototype defines one of them, so only an object that has
    the member gives a value.  [None] is [undefined].  On [null] the plain
    [v.key] throws; the handlers that use it treat [null] apart. *)
Definition get (v : value) (key : string) : option value :=
  match v with
  | JObj members => lookup key members
  | _ => None
  end.

(** [o?.key] on a value that may be [undefined]. *)
Definition get_opt (o : option value) (key : string) : option value :=
  match o with
  | Some v => get v key
  | None => None
  end.

(** [v === s] for a string literal [s]. *)
Definition equals (v : option value) (s : string) : bool :=
  match v with
  | Some (JStr t) => String.eqb t s
  | _ => false
  end.

(** Truthiness. *)
Definition truthy (v : option value) : bool :=
  match v with
  | None | Some JNull | Some (JBool false) | Some (JStr "")
  | Some (JNum (Integer 0)) => false
  | Some _ => true
  end.

End Json.

(** ** The part of zod the input schemas use

    A schema is what [safeParse] does with it: it reads a value, which may
    be [undefined], and gives the parsed data, or fails.  The issues a
    failure reports are not modelled.  The checks are those of zod 3:
    [url()] succeeds when [new URL] does not throw, [int()] when
    [Number.isInteger] holds, [positive()] above 0, [max(n)] up to [n];
    [object] drops the keys it does not name. *)

Module Zod.

Definition schema (A : Type) : Type := option Json.value -> option A.

Definition z_string : schema string :=
  fun v => match v with
           | Some (Json.JStr s) => Some s
           | _ => None
           end.

Definition z_number : schema Json.number :=
  fun v => match v with
           | Some (Json.JNum n) => Some n
           | _ => None
           end.

(** [.refine(check)], and every built-in check of a value. *)
Definition refine {A} (check : A -> bool) (s : schema A) : schema A :=
  fun v => match s v with
           | Some a => if check a then Some a else None
           | None => None
           end.

Definition url (new_URL : string -> option URL) (s : schema string)
  : schema string :=
  refine (fun x => match new_URL x with Some _ => true | None => false end) s.

Definition int (s : schema Json.number) : schema Z :=
  fun v => match s v with
           | Some (Json.Integer n) => Some n
           | _ => None
           end.

Definition positive (s : schema Z) : schema Z := refine (fun n => 0 <? n) s.

Definition max (m : Z) (s : schema Z) : schema Z := refine (fun n => n <=? m) s.

Definition optional {A} (s : schema A) : schema (option A) :=
  fun v => match v with
           | None => Some None
           | Some _ => match s v with
                       | Some a => Some (Some a)
                       | None => None
                       end
           end.

(** [.optional().default(d)]. *)
Definition default_ {A} (d : A) (s : schema (option A)) : schema A :=
  fun v => match s v with
           | Some (Some a) => Some a
           | Some None => Some d
           | None => None
           end.

Fixpoint all_items {A} (s : schema A) (items : list Json.value)
  : option (list A) :=
  match items with
  | [] => Some []
  | x :: items' =>
      match s (Some x), all_items s items' with
      | Some a, Some l => Some (a :: l)
      | _, _ => None
      end
  end.

Definition array {A} (s : schema A) : schema (list A) :=
  fun v => match v with
           | Some (Json.JArr items) => all_items s items
           | _ => None
           end.

(** [z.object({...})]: the value must be an object; [fields] parses its
    members. *)
Definition object {A} (fields : Json.value -> option A) : schema A :=
  fun v => match v with
           | Some (Json.JObj members) => fields (Json.JObj members)
           | _ => None
           end.

Definition field {A} (name : string) (s : schema A) (o : Json.value) : option A :=
  s (Json.get o name).

End Zod.

(** ** The input schemas ([src/types.ts]) and the handlers that call the
    tools *)

Module Server.

Record RepoOverviewInput : Type := { ro_repo_url : string }.

Record ExtractKeyFilesInput : Type := {
  kf_repo_url : string;
  kf_paths : option (list string)
}.

Record ReleaseNotesInput : Type := {
  rn_repo_url : string;
  rn_limit : Z
}.

Record ActivitySnapshotInput : Type := { as_repo_url : string }.

(** What a handler hands to [JSON.stringify]: the envelope of a tool, or
    an error envelope the handler writes out itself.  [with_issues] says
    that [details] holds the issues zod reported, and not [{}]. *)
Inductive ToolResult : Type :=
| OverviewResult (r : ApiResponse RepoOverviewData)
| KeyFilesResult (r : ApiResponse ExtractKeyFilesData)
| ReleasesResult (r : ApiResponse ReleaseNotesData)
| ActivityResult (r : ApiResponse ActivitySnapshotData)
| LiteralError (code : ErrorCode) (message : string) (with_issues : bool)
    (retrieved_at : string).

Definition result_ok (r : ToolResult) : bool :=
  match r with
  | OverviewResult r => ok_flag r
  | KeyFilesResult r => ok_flag r
  | ReleasesResult r => ok_flag r
  | ActivityResult r => ok_flag r
  | LiteralError _ _ _ _ => false
  end.

Definition result_code (r : ToolResult) : option ErrorCode :=
  match r with
  | OverviewResult r => error_code r
  | KeyFilesResult r => error_code r
  | ReleasesResult r => error_code r
  | ActivityResult r => error_code r
  | LiteralError c _ _ _ => Some c
  end.

Definition error_message {T} (r : ApiResponse T) : option string :=
  match r with
  | SuccessResponse _ _ => None
  | ErrorResponse e _ => Some (message e)
  end.

Definition result_message (r : ToolResult) : option string :=
  match r with
  | OverviewResult r => error_message r
  | KeyFilesResult r => error_message r
  | ReleasesResult r => error_message r
  | ActivityResult r => error_message r
  | LiteralError _ m _ _ => Some m
  end.

(** The answer to a JSON-RPC request ([src/transport/http.ts]). *)
Inductive RpcResult : Type :=
| InitializeResult (protocolVersion serverName serverVersion : string)
| ToolsListResult (tools : list string)
| ToolCallResult (text : ToolResult).

Inductive JsonRpcResponse : Type :=
| RpcOk (id : option Json.value) (result : RpcResult)
| RpcError (id : option Json.value) (code : Z) (message : string).

Definition rpc_id (r : JsonRpcResponse) : option Json.value :=
  match r with
  | RpcOk id _ => id
  | RpcError id _ _ => id
  end.

(** What [sendJson] is called with. *)
Inductive HttpBody : Type :=
| RpcBody (r : JsonRpcResponse)
| FailureBody (error : string)          (* { ok: false, error } *)
| PlainError (error : string)           (* { error } *)
| ServiceHealth                         (* { status: 'ok', service } *)
| TimedHealth (timestamp : string)      (* { status: 'ok', timestamp } *)
| NoBody
| ToolNamesBody (tools : list string)
| EnvelopeBody (r : ToolResult).

Record HttpReply : Type := {
  statusCode : Z;
  sent : HttpBody
}.

(** The names of [toolDefinitions]. *)
Definition toolDefinitions : list string :=
  ["repo_overview"; "extract_key_files"; "release_notes"; "activity_snapshot"].

Section Handlers.

Variable new_URL : string -> option URL.
Variable now : string.
Variable requestTimeoutMs : Z.

(** [`${v}`] for a value that is neither a string nor [undefined]; it
    throws for an object whose own [toString] member is no function. *)
Variable ToString : Json.value -> result string.

(** [JSON.parse]; [None] when it throws. *)
Variable JSON_parse : string -> option Json.value.

(** *** [src/types.ts] *)

Definition RepoUrlSchema : Zod.schema string :=
  Zod.refine
    (fun url =>
       match new_URL url with
       | Some parsed =>
           String.eqb (hostname parsed) "github.com"
           || String.eqb (hostname parsed) "www.github.com"
       | None => false
       end)
    (Zod.url new_URL Zod.z_string).

Definition RepoOverviewInputSchema : Zod.schema RepoOverviewInput :=
  Zod.object (fun o =>
    repo_url ← Zod.field "repo_url" RepoUrlSchema o;
    Some {| ro_repo_url := repo_url |}).

Definition ExtractKeyFilesInputSchema : Zod.schema ExtractKeyFilesInput :=
  Zod.object (fun o =>
    repo_url ← Zod.field "repo_url" RepoUrlSchema o;
    paths ← Zod.field "paths" (Zod.optional (Zod.array Zod.z_string)) o;
    Some {| kf_repo_url := repo_url; kf_paths := paths |}).

Definition ReleaseNotesInputSchema : Zod.schema ReleaseNotesInput :=
  Zod.object (fun o =>
    repo_url ← Zod.field "repo_url" RepoUrlSchema o;
    limit ← Zod.field "limit"
              (Zod.default_ 5
                 (Zod.optional (Zod.max 100 (Zod.positive (Zod.int Zod.z_number)))))
              o;
    Some {| rn_repo_url := repo_url; rn_limit := limit |}).

Definition ActivitySnapshotInputSchema : Zod.schema ActivitySnapshotInput :=
  Zod.object (fun o =>
    repo_url ← Zod.field "repo_url" RepoUrlSchema o;
    Some {| as_repo_url := repo_url |}).

(** *** The four [case]s of a tool call

    Each handler has a [switch] over the name of the tool.  The body of a
    [case] is the same in the three of them, up to the message of the
    envelope that answers arguments the schema rejects. *)

Definition invalid_parameters (message : string) : ToolResult :=
  LiteralError INVALID_INPUT message true now.

Definition case_repo_overview (message : string) (args : option Json.value)
  : io ToolResult :=
  match RepoOverviewInputSchema args with
  | None => Ret (invalid_parameters message)
  | Some data =>
      result ← repoOverview new_URL now requestTimeoutMs (ro_repo_url data);
      Ret (OverviewResult result)
  end.

Definition case_extract_key_files (message : string) (args : option Json.value)
  : io ToolResult :=
  match ExtractKeyFilesInputSchema args with
  | None => Ret (invalid_parameters message)
  | Some data =>
      result ← extractKeyFiles new_URL now (kf_repo_url data) (kf_paths data);
      Ret (KeyFilesResult result)
  end.

Definition case_release_notes (message : string) (args : option Json.value)
  : io ToolResult :=
  match ReleaseNotesInputSchema args with
  | None => Ret (invalid_parameters message)
  | Some data =>
      result ← releaseNotes new_URL now requestTimeoutMs (rn_repo_url data)
                 (Some (Js.Whole (rn_limit data)));
      Ret (ReleasesResult result)
  end.

Definition case_activity_snapshot (message : string) (args : option Json.value)
  : io ToolResult :=
  match ActivitySnapshotInputSchema args with
  | None => Ret (invalid_parameters message)
  | Some data =>
      result ← activitySnapshot new_URL now requestTimeoutMs (as_repo_url data);
      Ret (ActivityResult result)
  end.

(** *** [src/server.ts]: the handler of [CallToolRequestSchema]

    The SDK has checked that [name] is a string.  Nothing inside the
    [try] block throws, so its [catch] block is not entered. *)
Definition CallToolRequestHandler (name : string) (args : option Json.value)
  : io ToolResult :=
  if String.eqb name "repo_overview" then
    case_repo_overview "Invalid input parameters" args
  else if String.eqb name "extract_key_files" then
    case_extract_key_files "Invalid input parameters" args
  else if String.eqb name "release_notes" then
    case_release_notes "Invalid input parameters" args
  else if String.eqb name "activity_snapshot" then
    case_activity_snapshot "Invalid input parameters" args
  else
    Ret (LiteralError INVALID_INPUT ("Unknown tool: " +:+ name) false now).

(** *** [src/transport/http.ts] *)

(** [`${v}`]. *)
Definition template (v : option Json.value) : result string :=
  match v with
  | None => Ok "undefined"
  | Some (Json.JStr s) => Ok s
  | Some v => ToString v
  end.

(** The [catch] block of [handleJsonRpcRequest]. *)
Definition internal_error (id : option Json.value) (e : thrown)
  : JsonRpcResponse :=
  RpcError id (-32603)
    ("Internal error: "
       +:+ match e with
           | ThrownError _ message => message
           | ThrownOther => "Unknown error"
           end).

(** [request] is an object: [handleMcpRequest] has found its [jsonrpc]
    member. *)
Definition handleJsonRpcRequest (request : Json.value) : io JsonRpcResponse :=
  let id := Json.get request "id" in
  let method := Json.get request "method" in
  let params := Json.get request "params" in
  if Json.equals method "initialize" then
    Ret (RpcOk id (InitializeResult "2024-11-05" "git-repo-brief" "1.0.0"))
  else if Json.equals method "tools/list" then
    Ret (RpcOk id (ToolsListResult toolDefinitions))
  else if Json.equals method "tools/call" then
    let toolName := Json.get_opt params "name" in
    let args := Json.get_opt params "arguments" in
    let answer (m : io ToolResult) :=
      result ← m; Ret (RpcOk id (ToolCallResult result)) in
    if Json.equals toolName "repo_overview" then
      answer (case_repo_overview "Invalid input parameters" args)
    else if Json.equals toolName "extract_key_files" then
      answer (case_extract_key_files "Invalid input parameters" args)
    else if Json.equals toolName "release_notes" then
      answer (case_release_notes "Invalid input parameters" args)
    else if Json.equals toolName "activity_snapshot" then
      answer (case_activity_snapshot "Invalid input parameters" args)
    else
      Ret match template toolName with
          | Ok text => RpcError id (-32601) ("Unknown tool: " +:+ text)
          | Throw e => internal_error id e
          end
  else
    Ret match template method with
        | Ok text => RpcError id (-32601) ("Method not found: " +:+ text)
        | Throw e => internal_error id e
        end.

(** [body] is what [JSON.parse(await readBody(req))] gave, or what one of
    the two threw.  Reading a member of [null] throws the [TypeError] of
    V8. *)
Definition handleMcpRequest (body : result Json.value) : io HttpReply :=
  let failure (e : thrown) :=
    {| statusCode := 500;
       sent := FailureBody match e with
                           | ThrownError _ message => message
                           | ThrownOther => "Unknown error"
                           end |} in
  match body with
  | Throw e => Ret (failure e)
  | Ok Json.JNull =>
      Ret (failure (ThrownError "TypeError"
                      "Cannot read properties of null (reading 'jsonrpc')"))
  | Ok request =>
      if negb (Json.truthy (Json.get request "jsonrpc"))
         || negb (Json.equals (Json.get request "jsonrpc") "2.0")
      then
        Ret {| statusCode := 400;
               sent := RpcBody
                 (RpcError
                    (if Json.truthy (Json.get request "id")
                     then Json.get request "id"
                     else Some (Json.JNum (Json.Integer 0)))
                    (-32600)
                    "Invalid Request: missing or invalid jsonrpc version") |}
      else
        response ← handleJsonRpcRequest request;
        Ret {| statusCode := 200; sent := RpcBody response |}
  end.

(** The [request] listener of [createHttpServer], with [pathname] the
    path of the request and [method] its method in upper case. *)
Definition route (pathname method : string) (body : result Json.value)
  : io HttpReply :=
  if String.eqb pathname "/mcp" then
    if String.eqb method "POST" then handleMcpRequest body
    else Ret {| statusCode := 405; sent := PlainError "Method not allowed" |}
  else if String.eqb pathname "/health" then
    if String.eqb method "GET"
    then Ret {| statusCode := 200; sent := ServiceHealth |}
    else Ret {| statusCode := 405; sent := PlainError "Method not allowed" |}
  else Ret {| statusCode := 404; sent := PlainError "Not found" |}.

(** *** The HTTP transport with one endpoint per tool
    ([handleRequest] and [parseBody], in the second part of
    [src/transport/stdio.ts])

    [method] is [req.method], [path] the [pathname] of the URL of the
    request, and [body] the text of its body. *)

(** [parseBody]: an empty body stands for [{}]. *)
Definition parseBody (body : string) : result Json.value :=
  if String.eqb body "" then Ok (Json.JObj [])
  else match JSON_parse body with
       | Some v => Ok v
       | None => Throw (ThrownError "Error" "Invalid JSON body")
       end.

Definition handleRequest (method path body : string) : io HttpReply :=
  if String.eqb method "OPTIONS" then Ret {| statusCode := 204; sent := NoBody |}
  else if String.eqb path "/health" && String.eqb method "GET" then
    Ret {| statusCode := 200; sent := TimedHealth now |}
  else if String.eqb path "/tools" && String.eqb method "GET" then
    Ret {| statusCode := 200; sent := ToolNamesBody toolDefinitions |}
  else if negb (String.eqb method "POST") then
    Ret {| statusCode := 405;
           sent := EnvelopeBody
                     (LiteralError INVALID_INPUT "Method not allowed" false now) |}
  else
    match parseBody body with
    | Throw e =>
        Ret {| statusCode := 500;
               sent := EnvelopeBody
                         (LiteralError INTERNAL_ERROR
                            match e with
                            | ThrownError _ message => message
                            | ThrownOther => "Unknown error"
                            end false now) |}
    | Ok parsed =>
        let answer (m : io ToolResult) :=
          result ← m;
          Ret {| statusCode := if result_ok result then 200 else 400;
                 sent := EnvelopeBody result |} in
        if String.eqb path "/tools/repo_overview" then
          answer (case_repo_overview "Invalid input" (Some parsed))
        else if String.eqb path "/tools/extract_key_files" then
          answer (case_extract_key_files "Invalid input" (Some parsed))
        else if String.eqb path "/tools/release_notes" then
          answer (case_release_notes "Invalid input" (Some parsed))
        else if String.eqb path "/tools/activity_snapshot" then
          answer (case_activity_snapshot "Invalid input" (Some parsed))
        else
          Ret {| statusCode := 404;
                 sent := EnvelopeBody
                           (LiteralError INVALID_INPUT
                              ("Unknown endpoint: " +:+ path) false now) |}
    end.

(** What one [case] of a handler, run on the arguments [args], returned
    and called: a call was made only for a [repo_url] that is a string
    [parseRepoUrl] accepts, and an [INVALID_INPUT] envelope was given
    without a call. *)
Record case_outcome (args : option Json.value) (r : ToolResult * list string)
  : Prop := {
  calls_need_reference :
    snd r <> [] ->
    exists url, Json.get_opt args "repo_url" = Some (Json.JStr url)
                /\ parseRepoUrl new_URL url <> None;
  invalid_input_calls_nothing :
    result_code (fst r) = Some INVALID_INPUT -> snd r = []
}.

End Handlers.

End Server.

(** ** More upstreams, requests and environments *)

Module Scenarios.

(** A repository answer that names no default branch; every raw file
    holds [text]. *)
Definition unnamed_branch_upstream (text : string) : upstream :=
  fun s url =>
    match s return result (Response (body_of s)) with
    | SBranch => Examples.respond 200 "OK" ∅ (Ok None)
    | SText => Examples.respond 200 "OK" ∅ (Ok text)
    | _ => Throw Examples.fetch_failed
    end.

(** A repository without commits, pull requests or contributors. *)
Definition empty_repository_upstream : upstream :=
  fun s url =>
    match s return result (Response (body_of s)) with
    | SRepo => Examples.respond 200 "OK" ∅ (Ok Examples.repo_payload)
    | SCommits => Examples.respond 200 "OK" ∅ (Ok [])
    | SPulls => Examples.respond 200 "OK" ∅ (Ok [])
    | SContributors => Examples.respond 200 "OK" ∅ (Ok [])
    | _ => Throw Examples.fetch_failed
    end.

(** An upstream whose every call is aborted by the timeout. *)
Definition aborting_upstream : upstream :=
  Examples.rejecting_upstream
    (ThrownError "AbortError" "This operation was aborted").

(** [{ "repo_url": url }]. *)
Definition url_args (url : string) : Json.value :=
  Json.JObj [("repo_url", Json.JStr url)].

(** [{ "repo_url": url, "limit": n }]. *)
Definition limit_args (url : string) (n : Z) : Json.value :=
  Json.JObj [("repo_url", Json.JStr url); ("limit", Json.JNum (Json.Integer n))].

(** [{ "repo_url": url, "paths": paths }]. *)
Definition paths_args (url : string) (paths : list string) : Json.value :=
  Json.JObj [("repo_url", Json.JStr url);
             ("paths", Json.JArr (map Json.JStr paths))].

(** The JSON-RPC request [tools/call] for the tool [name]. *)
Definition tools_call (id : Z) (name : string) (args : Json.value) : Json.value :=
  Json.JObj [("jsonrpc", Json.JStr "2.0");
             ("id", Json.JNum (Json.Integer id));
             ("method", Json.JStr "tools/call");
             ("params", Json.JObj [("name", Json.JStr name); ("arguments", args)])].

(** [String(v)] as V8 has it, for a value made by [JSON.parse]: an
    array joins its items with commas, [null] items giving nothing; an
    object gives [[object Object]], unless it has a member [toString],
    which is no function, and then the conversion throws.  An integer is
    written in decimal (below 10^21), any other number as its text. *)
Fixpoint ToString (v : Json.value) : result string :=
  match v with
  | Json.JNull => Ok "null"
  | Json.JBool true => Ok "true"
  | Json.JBool false => Ok "false"
  | Json.JNum (Json.Integer n) => Ok (Js.string_of_Z n)
  | Json.JNum (Json.NonInteger text) => Ok text
  | Json.JStr s => Ok s
  | Json.JArr items =>
      let joined :=
        fold_right
          (fun x acc =>
             match match x with
                   | Json.JNull => Ok ""
                   | _ => ToString x
                   end, acc with
             | Ok s, Ok None => Ok (Some s)
             | Ok s, Ok (Some rest) => Ok (Some (s +:+ "," +:+ rest))
             | Throw e, _ => Throw e
             | _, Throw e => Throw e
             end)
          (Ok None) items in
      match joined with
      | Ok (Some s) => Ok s
      | Ok None => Ok ""
      | Throw e => Throw e
      end
  | Json.JObj members =>
      match Json.lookup "toString" members with
      | Some _ =>
          Throw (ThrownError "TypeError" "Cannot convert object to primitive value")
      | None => Ok "[object Object]"
      end
  end.

(** A [JSON.parse] that reads the one text [text], as [v]. *)
Definition parse_only (text : string) (v : Json.value) (s : string)
  : option Json.value :=
  if String.eqb s text then Some v else None.

(** An environment that sets the delay with a unit after the number. *)
Definition delay_env : Config.Env := {[ "REQUEST_DELAY_MS" := "250ms" ]}.

Definition token_env : Config.Env :=
  {[ "GITHUB_TOKEN" := "ghp_example"; "HTTP_PORT" := "3000" ]}.

(** [{ requestDelayMs: 0 }], as a test sets it. *)
Definition no_delay : Config.PartialConfig :=
  {| Config.set_githubToken := None;
     Config.set_requestDelayMs := Some 0;
     Config.set_requestTimeoutMs := None;
     Config.set_transportMode := None;
     Config.set_httpPort := None;
     Config.set_userAgent := None |}.

End Scenarios.

(** * Theorems *)

(** ** Running computations *)

Lemma run_bind {A B} (net : upstream) (m : io A) (f : A -> io B) :
  run net (m ≫= f) =
  (fst (run net (f (fst (run net m)))),
   (snd (run net m) ++ snd (run net (f (fst (run net m)))))%list).
Proof.
  unfold mbind, io_bind. revert B f.
  induction m as [A a | A s url k IH | A X Y first _ second _ k IH];
    intros B f; cbn [bind run].
  - cbn [fst snd app]. destruct (run net (f a)); reflexivity.
  - rewrite IH. destruct (run net (k (net s url))) as [a c]. reflexivity.
  - destruct (run net first) as [x c1], (run net second) as [y c2].
    rewrite IH. destruct (run net (k x y)) as [a c3]. cbn [fst snd].
    rewrite <- !app_assoc. reflexivity.
Qed.

Lemma run_all {A B} (net : upstream) (f : A -> io B) (l : list A) :
  run net (all f l) =
  (map (fun a => fst (run net (f a))) l,
   concat (map (fun a => snd (run net (f a))) l)).
Proof.
  induction l as [| a l IH]; cbn [all run map concat]; [reflexivity |].
  rewrite IH. destruct (run net (f a)) as [b c]. cbn [fst snd].
  rewrite app_nil_r. reflexivity.
Qed.

Lemma run_Promise_all4 {A B C D} (net : upstream)
    (a : io A) (b : io B) (c : io C) (d : io D) :
  run net (Promise_all4 a b c d) =
  ((fst (run net a), fst (run net b), fst (run net c), fst (run net d)),
   (snd (run net a) ++ snd (run net b) ++ snd (run net c) ++ snd (run net d))%list).
Proof.
  unfold Promise_all4. cbn [run].
  destruct (run net a) as [x ca], (run net b) as [y cb],
    (run net c) as [z cc], (run net d) as [w cd].
  cbn [fst snd]. rewrite !app_nil_r. reflexivity.
Qed.

(** ** The orders in which calls leave *)

Lemma interleaves_Permutation {X} (l1 l2 l : list X) :
  interleaves l1 l2 l -> Permutation l (l1 ++ l2).
Proof.
  induction 1 as [| x l1 l2 l _ IH | x l1 l2 l _ IH]; cbn [app].
  - constructor.
  - constructor. exact IH.
  - rewrite IH. apply Permutation_middle.
Qed.

Lemma interleaves_app {X} (l1 l2 : list X) : interleaves l1 l2 (l1 ++ l2).
Proof.
  induction l1 as [| x l1 IH]; cbn [app].
  - induction l2 as [| y l2 IH]; constructor. exact IH.
  - constructor. exact IH.
Qed.

(** The order in which a computation asks for its calls is one of the
    orders in which they can leave. *)
Lemma fetch_order_run {A} (net : upstream) (m : io A) :
  fetch_order net m (snd (run net m)).
Proof.
  induction m as [A a | A s url k IH | A X Y first IH1 second IH2 k IH];
    cbn [run].
  - constructor.
  - specialize (IH (net s url)).
    destruct (run net (k (net s url))) as [a c]. constructor. exact IH.
  - specialize (IH (fst (run net first)) (fst (run net second))).
    destruct (run net first) as [x c1] eqn:E1, (run net second) as [y c2] eqn:E2.
    cbn [fst snd] in *. destruct (run net (k x y)) as [a c3]. cbn [fst snd] in *.
    rewrite app_assoc.
    apply (fetch_order_Par net A X Y first second k c1 c2 (c1 ++ c2) c3);
      [exact IH1 | exact IH2 | apply interleaves_app |].
    rewrite E1, E2. exact IH.
Qed.

Lemma fetch_order_Par_Ret {A X Y} (net : upstream) (first : io X) (second : io Y)
    (k : X -> Y -> A) (l1 l2 l : list string) :
  fetch_order net first l1 -> fetch_order net second l2 -> interleaves l1 l2 l ->
  fetch_order net (Par first second (fun x y => Ret (k x y))) l.
Proof.
  intros H1 H2 Hi. rewrite <- (app_nil_r l).
  apply (fetch_order_Par net A X Y first second _ l1 l2 l []);
    [exact H1 | exact H2 | exact Hi | constructor].
Qed.

(** Whatever the order in which they leave, the calls are those the
    computation asks for. *)
Lemma fetch_order_Permutation {A} (net : upstream) (m : io A) (l : list string) :
  fetch_order net m l -> Permutation l (snd (run net m)).
Proof.
  induction 1 as [A a | A s url k l _ IH
                  | A X Y first second k l1 l2 l12 l3 _ IH1 _ IH2 Hi _ IH3];
    cbn [run].
  - constructor.
  - destruct (run net (k (net s url))) as [a c]. cbn [snd] in *.
    constructor. exact IH.
  - destruct (run net first) as [x c1], (run net second) as [y c2].
    cbn [fst snd] in *. destruct (run net (k x y)) as [a c3]. cbn [fst snd] in *.
    rewrite app_assoc. apply Permutation_app; [| exact IH3].
    rewrite (interleaves_Permutation _ _ _ Hi).
    apply Permutation_app; assumption.
Qed.

(** A computation that asks for one call can only let it leave. *)
Lemma fetch_order_single {A} (net : upstream) (m : io A) (u : string)
    (l : list string) :
  snd (run net m) = [u] -> fetch_order net m l -> l = [u].
Proof.
  intros Hrun Ho. apply fetch_order_Permutation in Ho. rewrite Hrun in Ho.
  apply Permutation_sym, Permutation_length_1_inv in Ho. exact Ho.
Qed.

(** ** Strings *)

Lemma string_app_nil_l (r : string) : "" +:+ r = r.
Proof. reflexivity. Qed.

Lemma string_app_cons (c : ascii) (a b : string) :
  String c a +:+ b = String c (a +:+ b).
Proof. reflexivity. Qed.

Ltac string_simpl := rewrite ?string_app_cons, ?string_app_nil_l in *.

Lemma string_app_assoc (a b c : string) : (a +:+ b) +:+ c = a +:+ (b +:+ c).
Proof. induction a; string_simpl; congruence. Qed.

Lemma string_app_nil_r (a : string) : a +:+ "" = a.
Proof. induction a; string_simpl; congruence. Qed.

Lemma strip_prefix_app (p s : string) : Js.strip_prefix p (p +:+ s) = Some s.
Proof.
  induction p as [| a p IH]; string_simpl; simpl; [reflexivity |].
  rewrite Ascii.eqb_refl. exact IH.
Qed.

Lemma strip_prefix_Some (p s r : string) :
  Js.strip_prefix p s = Some r -> s = p +:+ r.
Proof.
  revert s. induction p as [| a p IH]; intros s H; simpl in H; string_simpl.
  - congruence.
  - destruct s as [| b s]; [discriminate |].
    destruct (Ascii.eqb a b) eqn:E; [| discriminate].
    apply Ascii.eqb_eq in E. subst b. f_equal. apply IH, H.
Qed.

Lemma includes_app (n a b : string) : Js.includes n (a +:+ n +:+ b) = true.
Proof.
  induction a as [| c a IH]; string_simpl.
  - destruct n as [| c n]; [destruct b; reflexivity |].
    string_simpl. simpl. rewrite Ascii.eqb_refl, strip_prefix_app. reflexivity.
  - simpl. destruct (Js.strip_prefix n (String c (a +:+ n +:+ b))); [reflexivity |].
    exact IH.
Qed.

(** An element of a list shows in the joined text. *)
Lemma join_includes (sep x : string) (l : list string) :
  In x l -> exists a b, Js.join sep l = a +:+ x +:+ b.
Proof.
  induction l as [| y l IH]; intros Hin; [destruct Hin |].
  destruct Hin as [-> | Hin].
  - destruct l as [| z l].
    + exists "", "". simpl. now rewrite string_app_nil_r.
    + exists "", (sep +:+ Js.join sep (z :: l)). reflexivity.
  - destruct l as [| z l]; [destruct Hin |].
    destruct (IH Hin) as (a & b & E).
    exists (y +:+ sep +:+ a), b.
    change (Js.join sep (y :: z :: l)) with (y +:+ sep +:+ Js.join sep (z :: l)).
    rewrite E, !string_app_assoc. reflexivity.
Qed.
(** ** Numerals *)

Lemma is_digit_code (c : ascii) :
  Js.is_digit c = true <-> 48 <= Js.code c <= 57.
Proof.
  unfold Js.is_digit. rewrite andb_true_iff, !Z.leb_le. tauto.
Qed.

Lemma ascii_eqb_code (c : ascii) (k : ascii) :
  Js.code c <> Js.code k -> Ascii.eqb c k = false.
Proof.
  intros H. apply Ascii.eqb_neq. intros ->. apply H. reflexivity.
Qed.

Lemma digit_value_digit (c : ascii) :
  Js.is_digit c = true -> Js.digit_value c = Some (Js.code c - 48).
Proof.
  intros H. unfold Js.digit_value. fold (Js.is_digit c). rewrite H. reflexivity.
Qed.

Lemma read_digits_all (s : string) (acc : Z) (n : nat) :
  Spec.all_digits s = true ->
  Js.read_digits 10 acc n s =
  (fold_left (fun a c => 10 * a + (Js.code c - 48)) (list_ascii_of_string s) acc,
   (n + String.length s)%nat).
Proof.
  revert acc n. induction s as [| c s IH]; intros acc n H.
  - cbn. f_equal. lia.
  - unfold Spec.all_digits in H. cbn [list_ascii_of_string forallb] in H.
    apply andb_prop in H as [Hc Hs].
    cbn [Js.read_digits list_ascii_of_string fold_left String.length].
    rewrite (digit_value_digit c Hc).
    apply is_digit_code in Hc.
    replace (Js.code c - 48 <? 10) with true by (symmetry; apply Z.ltb_lt; lia).
    rewrite IH by exact Hs. f_equal. lia.
Qed.

(** [parseInt], without a radix or with radix 10, of a string of decimal
    digits is the number the digits write. *)
Lemma parseInt_decimal (s : string) (radix : Z) :
  radix = 0 \/ radix = 10 ->
  s <> "" -> Spec.all_digits s = true ->
  Js.parseInt s radix = Js.Int (Spec.decimal s).
Proof.
  intros Hr Hne H. destruct s as [| c s]; [contradiction |].
  pose proof H as H'. unfold Spec.all_digits in H'.
  cbn [list_ascii_of_string forallb] in H'. apply andb_prop in H' as [Hc Hs].
  apply is_digit_code in Hc.
  unfold Js.parseInt.
  assert (Ht : Js.trim_start (String c s) = String c s).
  { cbn [Js.trim_start]. unfold Js.is_white.
    replace ((9 <=? Js.code c) && (Js.code c <=? 13)) with false
      by (symmetry; apply andb_false_iff; right; apply Z.leb_gt; lia).
    replace (Js.code c =? 32) with false by (symmetry; apply Z.eqb_neq; lia).
    replace (Js.code c =? 160) with false by (symmetry; apply Z.eqb_neq; lia).
    reflexivity. }
  rewrite Ht. unfold Js.read_sign.
  rewrite (ascii_eqb_code c "-") by (change (Js.code "-") with 45; lia).
  rewrite (ascii_eqb_code c "+") by (change (Js.code "+") with 43; lia).
  assert (Hp : Js.read_hex_prefix 10 (String c s) = (10, String c s)).
  { unfold Js.read_hex_prefix. destruct s as [| c2 s2]; [reflexivity |].
    cbn [list_ascii_of_string forallb] in Hs. apply andb_prop in Hs as [Hc2 _].
    apply is_digit_code in Hc2.
    rewrite (ascii_eqb_code c2 "x") by (change (Js.code "x") with 120; lia).
    rewrite (ascii_eqb_code c2 "X") by (change (Js.code "X") with 88; lia).
    rewrite andb_false_r. reflexivity. }
  destruct Hr as [-> | ->]; cbn [Z.eqb Z.ltb Z.compare Pos.compare
    Pos.compare_cont Pos.eqb negb andb orb];
    rewrite ?Hp, (read_digits_all _ _ _ H);
    cbn [Nat.add String.length]; unfold Spec.decimal;
    f_equal; destruct (fold_left _ _ 0); reflexivity.
Qed.

Lemma decimal_nonneg (s : string) : Spec.all_digits s = true -> 0 <= Spec.decimal s.
Proof.
  unfold Spec.decimal, Spec.all_digits.
  assert (G : forall l acc, forallb Js.is_digit l = true -> 0 <= acc ->
              0 <= fold_left (fun a c => 10 * a + (Js.code c - 48)) l acc).
  { induction l as [| c l IH]; intros acc H Hacc; [exact Hacc |].
    cbn [forallb] in H. apply andb_prop in H as [Hc Hl].
    apply is_digit_code in Hc. cbn [fold_left]. apply IH; [exact Hl | lia]. }
  intros H. apply G; [exact H | lia].
Qed.

(** ** Paths and repository names *)

Lemma split_slash_cons (s : string) :
  exists seg segs, Js.split_slash s = seg :: segs.
Proof.
  induction s as [| c s IH]; [eexists _, _; reflexivity |].
  cbn [Js.split_slash]. destruct (Ascii.eqb c "/"); [eexists _, _; reflexivity |].
  destruct IH as (seg & segs & ->). eexists _, _. reflexivity.
Qed.

Lemma path_segments_from_split (cur s : string) :
  Spec.path_segments_from cur s =
  match Js.split_slash s with
  | seg :: segs => Js.filter_Boolean ((cur +:+ seg) :: segs)
  | [] => []
  end.
Proof.
  revert cur. induction s as [| c s IH]; intros cur.
  - cbn [Spec.path_segments_from Js.split_slash].
    rewrite string_app_nil_r. unfold Js.filter_Boolean. cbn [List.filter].
    destruct (String.eqb cur ""); reflexivity.
  - cbn [Spec.path_segments_from Js.split_slash].
    destruct (Ascii.eqb c "/").
    + rewrite IH. destruct (split_slash_cons s) as (seg & segs & ->).
      rewrite string_app_nil_r, string_app_nil_l.
      unfold Js.filter_Boolean. cbn [List.filter].
      destruct (String.eqb cur ""); reflexivity.
    + rewrite IH. destruct (split_slash_cons s) as (seg & segs & ->).
      rewrite string_app_assoc. reflexivity.
Qed.

(** The parts [parseRepoUrl] keeps are the non-empty segments of the path. *)
Lemma filter_split_is_segments (p : string) :
  Js.filter_Boolean (Js.split_slash p) = Spec.path_segments p.
Proof.
  unfold Spec.path_segments. rewrite path_segments_from_split.
  destruct (split_slash_cons p) as (seg & segs & ->). reflexivity.
Qed.

Lemma string_app_length (a b : string) :
  String.length (a +:+ b) = (String.length a + String.length b)%nat.
Proof.
  induction a as [| x a IH]; [reflexivity |].
  rewrite string_app_cons. cbn [String.length Nat.add]. now rewrite IH.
Qed.

Lemma string_app_inv_tail (a b c : string) : a +:+ c = b +:+ c -> a = b.
Proof.
  revert b. induction a as [| x a IH]; intros b H.
  - destruct b as [| y b]; [reflexivity |].
    apply (f_equal String.length) in H. rewrite !string_app_length in H.
    cbn [String.length] in H. lia.
  - destruct b as [| y b].
    + apply (f_equal String.length) in H. rewrite !string_app_length in H.
      cbn [String.length] in H. lia.
    + string_simpl. injection H as -> H. f_equal. apply IH, H.
Qed.

(** [replace(/\.git$/, '')] drops a trailing [.git] and nothing else. *)
Lemma replace_git_suffix_spec (seg : string) :
  Spec.without_dot_git seg (Js.replace_git_suffix seg).
Proof.
  unfold Spec.without_dot_git.
  induction seg as [| c seg IH].
  - right. split; [| reflexivity].
    intros s H. apply (f_equal String.length) in H.
    rewrite string_app_length in H. cbn in H. lia.
  - cbn [Js.replace_git_suffix].
    destruct (String.eqb (String c seg) ".git") eqn:E.
    + apply String.eqb_eq in E. left. exists "". split; [exact E | reflexivity].
    + apply String.eqb_neq in E.
      destruct IH as [(s & Hs & Hr) | (Hno & Hr)].
      * left. exists (String c s). rewrite Hr. split; [| reflexivity].
        string_simpl. now rewrite Hs.
      * right. rewrite Hr. split; [| reflexivity].
        intros [| x s] H; string_simpl; [contradiction |].
        injection H as -> H. exact (Hno s H).
Qed.

Lemma without_dot_git_unique (seg a b : string) :
  Spec.without_dot_git seg a -> Spec.without_dot_git seg b -> a = b.
Proof.
  intros [(s & Hs & ->) | (Hno & ->)] [(s' & Hs' & ->) | (Hno' & ->)].
  - rewrite Hs in Hs'. exact (string_app_inv_tail _ _ _ Hs').
  - exfalso. exact (Hno' s Hs).
  - exfalso. exact (Hno s' Hs').
  - reflexivity.
Qed.

Lemma github_host (h : string) :
  negb (String.eqb h "github.com") && negb (String.eqb h "www.github.com") = false
  <-> h = "github.com" \/ h = "www.github.com".
Proof.
  rewrite andb_false_iff, !negb_false_iff, !String.eqb_eq. tauto.
Qed.

(** ** The page number of a link relation *)

Lemma span_digits_sound (s ds r : string) :
  Js.span_digits s = (ds, r) -> s = ds +:+ r /\ Spec.all_digits ds = true.
Proof.
  revert ds r. induction s as [| c s IH]; intros ds r H.
  - injection H as <- <-. split; reflexivity.
  - cbn [Js.span_digits] in H. destruct (Js.is_digit c) eqn:Ec.
    + destruct (Js.span_digits s) as [ds' r'] eqn:E. injection H as <- <-.
      destruct (IH _ _ eq_refl) as [-> Hd]. split; [reflexivity |].
      unfold Spec.all_digits in *. cbn [list_ascii_of_string forallb].
      now rewrite Ec, Hd.
    + injection H as <- <-. split; reflexivity.
Qed.

Lemma span_digits_app (ds : string) (c : ascii) (r : string) :
  Spec.all_digits ds = true -> Js.is_digit c = false ->
  Js.span_digits (ds +:+ String c r) = (ds, String c r).
Proof.
  intros Hd Hc. induction ds as [| d ds IH]; string_simpl.
  - cbn [Js.span_digits]. now rewrite Hc.
  - unfold Spec.all_digits in Hd. cbn [list_ascii_of_string forallb] in Hd.
    apply andb_prop in Hd as [Hd1 Hd2].
    cbn [Js.span_digits]. rewrite Hd1, (IH Hd2). reflexivity.
Qed.

(** The text the expression matches: [page=], digits, [>; rel="REL"]. *)
Lemma match_page_rel_intro (rel ds post : string) :
  ds <> "" -> Spec.all_digits ds = true ->
  Js.match_page_rel rel
    ("page=" +:+ ds +:+ ">; rel=" +:+ Js.quoted rel +:+ post) = Some ds.
Proof.
  intros Hne Hd. unfold Js.match_page_rel.
  rewrite strip_prefix_app.
  change (">; rel=" +:+ Js.quoted rel +:+ post)
    with (String ">" ("; rel=" +:+ Js.quoted rel +:+ post)).
  rewrite span_digits_app by (exact Hd || reflexivity).
  destruct ds as [| d ds]; [contradiction |].
  change (String ">" ("; rel=" +:+ Js.quoted rel +:+ post))
    with (">; rel=" +:+ (Js.quoted rel +:+ post)).
  rewrite <- string_app_assoc, strip_prefix_app. reflexivity.
Qed.

Lemma match_page_rel_elim (rel s ds : string) :
  Js.match_page_rel rel s = Some ds ->
  exists rest,
    s = "page=" +:+ ds +:+ ">; " +:+ ("rel=" +:+ Js.quoted rel) +:+ rest
    /\ Spec.all_digits ds = true.
Proof.
  unfold Js.match_page_rel. intros H.
  destruct (Js.strip_prefix "page=" s) as [s1 |] eqn:E1; [| discriminate].
  apply strip_prefix_Some in E1.
  destruct (Js.span_digits s1) as [ds' s2] eqn:E2.
  destruct (span_digits_sound _ _ _ E2) as [-> Hd].
  destruct ds' as [| d ds']; [discriminate |].
  destruct (Js.strip_prefix _ s2) as [rest |] eqn:E3; [| discriminate].
  apply strip_prefix_Some in E3. injection H as <-.
  exists rest. split; [| exact Hd].
  rewrite E1, E3, !string_app_assoc. reflexivity.
Qed.

(** A search that finds nothing for as long as it is inside [pre] goes on
    with what follows. *)
Lemma search_page_rel_skip (rel pre x : string) :
  (forall a b, pre = a +:+ b -> b <> "" -> Js.match_page_rel rel (b +:+ x) = None) ->
  Js.search_page_rel rel (pre +:+ x) = Js.search_page_rel rel x.
Proof.
  induction pre as [| c pre IH]; intros H; [reflexivity |].
  string_simpl. cbn [Js.search_page_rel].
  rewrite <- string_app_cons, (H "" (String c pre)) by (reflexivity || discriminate).
  string_simpl. apply IH. intros a b -> Hb.
  apply (H (String c a) b); [reflexivity | exact Hb].
Qed.

Lemma search_page_rel_here (rel s ds : string) :
  Js.match_page_rel rel s = Some ds -> Js.search_page_rel rel s = Some ds.
Proof. intros H. destruct s; cbn [Js.search_page_rel]; now rewrite H. Qed.

Lemma search_page_rel_elim (rel s ds : string) :
  Js.search_page_rel rel s = Some ds ->
  exists a rest,
    s = a +:+ "page=" +:+ ds +:+ ">; " +:+ ("rel=" +:+ Js.quoted rel) +:+ rest.
Proof.
  induction s as [| c s IH]; cbn [Js.search_page_rel]; intros H.
  - destruct (Js.match_page_rel rel "") eqn:E; [| discriminate].
    injection H as ->. destruct (match_page_rel_elim _ _ _ E) as (rest & Hs & _).
    exists "", rest. exact Hs.
  - destruct (Js.match_page_rel rel (String c s)) eqn:E.
    + injection H as ->. destruct (match_page_rel_elim _ _ _ E) as (rest & Hs & _).
      exists "", rest. exact Hs.
    + destruct (IH H) as (a & rest & ->). exists (String c a), rest. reflexivity.
Qed.

Lemma includes_marker (R a m1 m2 w : string) :
  Js.includes R (a +:+ (m1 +:+ m2 +:+ R) +:+ w) = true.
Proof.
  replace (a +:+ (m1 +:+ m2 +:+ R) +:+ w) with ((a +:+ m1 +:+ m2) +:+ R +:+ w)
    by (now rewrite !string_app_assoc).
  apply includes_app.
Qed.

(** A header without the text [rel="REL"] has no match. *)
Lemma search_page_rel_none (rel h : string) :
  Js.includes ("rel=" +:+ Js.quoted rel) h = false ->
  Js.search_page_rel rel h = None.
Proof.
  intros H. destruct (Js.search_page_rel rel h) as [ds |] eqn:E; [| reflexivity].
  destruct (search_page_rel_elim _ _ _ E) as (a & rest & ->).
  replace (a +:+ "page=" +:+ ds +:+ ">; " +:+ ("rel=" +:+ Js.quoted rel) +:+ rest)
    with (a +:+ ("page=" +:+ (ds +:+ ">; ") +:+ ("rel=" +:+ Js.quoted rel)) +:+ rest)
    in H by (now rewrite !string_app_assoc).
  rewrite includes_marker in H. discriminate.
Qed.

(** Two ways to cut one string. *)
Lemma string_app_eq_app (b x u v : string) :
  b +:+ x = u +:+ v ->
  (exists w, u = b +:+ w /\ x = w +:+ v)
  \/ (exists w, w <> "" /\ b = u +:+ w /\ v = w +:+ x).
Proof.
  revert u. induction b as [| c b IH]; intros u H; string_simpl.
  - left. exists u. split; [reflexivity | exact H].
  - destruct u as [| d u]; string_simpl.
    + right. exists (String c b).
      split; [discriminate |]. split; [reflexivity | now rewrite <- H].
    + injection H as -> H. destruct (IH u H) as [(w & -> & ->) | (w & Hw & -> & ->)].
      * left. exists w. split; reflexivity.
      * right. exists w. split; [exact Hw |]. split; reflexivity.
Qed.

Lemma free_of_cons (c d : ascii) (s : string) :
  d <> c -> Spec.free_of c s -> Spec.free_of c (String d s).
Proof.
  intros Hd Hs [| x a] b H; string_simpl.
  - injection H as H _. contradiction.
  - injection H as _ H. exact (Hs a b H).
Qed.

Lemma free_of_nil (c : ascii) : Spec.free_of c "".
Proof. intros [| x a] b H; string_simpl; discriminate. Qed.

Lemma free_of_app (c : ascii) (s t : string) :
  Spec.free_of c s -> Spec.free_of c t -> Spec.free_of c (s +:+ t).
Proof.
  intros Hs Ht. induction s as [| d s IH]; [exact Ht |].
  string_simpl. apply free_of_cons.
  - intros ->. exact (Hs "" s eq_refl).
  - apply IH. intros a b H. apply (Hs (String d a) b). string_simpl. now rewrite H.
Qed.

Lemma free_of_digits (ds : string) :
  Spec.all_digits ds = true -> Spec.free_of "p" ds.
Proof.
  induction ds as [| d ds IH]; intros H; [apply free_of_nil |].
  unfold Spec.all_digits in H. cbn [list_ascii_of_string forallb] in H.
  apply andb_prop in H as [Hd Hds]. apply free_of_cons; [| exact (IH Hds)].
  intros ->. discriminate.
Qed.

(** A match cannot begin inside [pre] when [pre] has no [rel="REL"] and is
    followed by [page=]: it would either lie inside [pre], or run over a
    second letter [p]. *)
Lemma no_match_before (rel pre x : string) :
  Spec.free_of "p" rel ->
  Js.includes ("rel=" +:+ Js.quoted rel) pre = false ->
  forall a b, pre = a +:+ b -> b <> "" ->
    Js.match_page_rel rel (b +:+ String "p" x) = None.
Proof.
  intros Hrel Hinc a b -> Hb.
  destruct (Js.match_page_rel rel (b +:+ String "p" x)) as [ds |] eqn:E;
    [| reflexivity].
  exfalso.
  destruct (match_page_rel_elim _ _ _ E) as (rest & Hs & Hd).
  set (R := "rel=" +:+ Js.quoted rel) in *.
  assert (Hs' : b +:+ String "p" x = ("page=" +:+ (ds +:+ ">; ") +:+ R) +:+ rest)
    by (rewrite Hs, !string_app_assoc; reflexivity).
  clear Hs.
  assert (Hin : forall w, a +:+ b = a +:+ ("page=" +:+ (ds +:+ ">; ") +:+ R) +:+ w ->
                          False).
  { intros w Hw. rewrite Hw, includes_marker in Hinc. discriminate. }
  destruct (string_app_eq_app _ _ _ _ Hs') as [(w & Hu & Hx) | (w & Hw & Hbw & _)].
  - destruct w as [| y w].
    + (* the match ends where [pre] ends *)
      rewrite string_app_nil_r in Hu. apply (Hin "").
      now rewrite <- Hu, string_app_nil_r.
    + (* the match runs over the [p] that follows [pre] *)
      string_simpl. injection Hx as Hy _. subst y.
      destruct b as [| c b]; [contradiction |].
      string_simpl. injection Hu as _ Hu.
      assert (Hfree : Spec.free_of "p" ("age=" +:+ (ds +:+ ">; ") +:+ R)).
      { apply free_of_app; [| apply free_of_app; [apply free_of_app |]].
        - repeat (apply free_of_cons; [discriminate |]). apply free_of_nil.
        - apply free_of_digits, Hd.
        - repeat (apply free_of_cons; [discriminate |]). apply free_of_nil.
        - unfold R, Js.quoted.
          repeat (apply free_of_cons; [discriminate |]).
          apply free_of_app; [exact Hrel |].
          apply free_of_cons; [discriminate | apply free_of_nil]. }
      exact (Hfree b w Hu).
  - (* the match lies inside [pre] *)
    apply (Hin w). now rewrite Hbw.
Qed.

(** The page number is read from the first link of the relation when its
    URL ends with the page parameter. *)
Lemma search_page_rel_found (rel pre ds post : string) :
  Spec.free_of "p" rel ->
  Js.includes ("rel=" +:+ Js.quoted rel) pre = false ->
  ds <> "" -> Spec.all_digits ds = true ->
  Js.search_page_rel rel
    (pre +:+ "page=" +:+ ds +:+ ">; rel=" +:+ Js.quoted rel +:+ post) = Some ds.
Proof.
  intros Hrel Hinc Hne Hd.
  rewrite search_page_rel_skip.
  - apply search_page_rel_here, match_page_rel_intro; assumption.
  - intros a b Hab Hb. apply (no_match_before rel pre _ Hrel Hinc a b Hab Hb).
Qed.

Lemma free_of_last : Spec.free_of "p" "last".
Proof. repeat (apply free_of_cons; [discriminate |]). apply free_of_nil. Qed.

Lemma free_of_next : Spec.free_of "p" "next".
Proof. repeat (apply free_of_cons; [discriminate |]). apply free_of_nil. Qed.

(** ** Dates *)

Module DateFacts.
Import JsDate.

Lemma all_from_spec (n : nat) (f : Z -> bool) (z0 : Z) :
  all_from n z0 f = true -> forall z, z0 <= z < z0 + Z.of_nat n -> f z = true.
Proof.
  revert z0. induction n as [| n IH]; intros z0 H z Hz; [lia |].
  cbn [all_from] in H. apply andb_prop in H as [H1 H2].
  destruct (Z.eq_dec z z0) as [-> | Hne]; [exact H1 |].
  apply (IH (z0 + 1)); [exact H2 | lia].
Qed.

Lemma doy_ok_all (doy : Z) : 0 <= doy <= 365 -> doy_ok doy = true.
Proof.
  intros H.
  assert (Hall : all_from 366 0 doy_ok = true) by (vm_compute; reflexivity).
  apply (all_from_spec _ _ _ Hall). lia.
Qed.

(** The year of the era and the day of that year add up to the day of the
    era; day 365 only exists before a leap 1 March. *)
Lemma era_year_ok (doe : Z) :
  0 <= doe < 146097 ->
  let c := Z.min (doe / 36524) 3 in
  let r1 := doe - c * 36524 in
  let q := r1 / 1461 in
  let r2 := r1 - q * 1461 in
  let a := Z.min (r2 / 365) 3 in
  let doy := r2 - a * 365 in
  let yoe := c * 100 + q * 4 + a in
  0 <= yoe <= 399 /\ 0 <= doy <= 365
  /\ yoe * 365 + yoe / 4 - yoe / 100 + doy = doe
  /\ (doy = 365 ->
      (yoe + 1) mod 4 = 0 /\ ((yoe + 1) mod 100 <> 0 \/ (yoe + 1) mod 400 = 0)).
Proof.
  intros H c r1 q r2 a doy yoe.
  assert (Hc : 0 <= c <= 3) by (subst c; Z.div_mod_to_equations; lia).
  assert (Hr1 : 0 <= r1 <= 36524 /\ (c < 3 -> r1 < 36524))
    by (subst r1 c; Z.div_mod_to_equations; lia).
  assert (Hq : 0 <= q <= 24) by (subst q; Z.div_mod_to_equations; lia).
  assert (Hr2 : 0 <= r2 <= 1460) by (subst r2 q; Z.div_mod_to_equations; lia).
  assert (Ha : 0 <= a <= 3) by (subst a; Z.div_mod_to_equations; lia).
  assert (Hdoy : 0 <= doy <= 365 /\ (a < 3 -> doy < 365))
    by (subst doy a; Z.div_mod_to_equations; lia).
  assert (Hy4 : yoe / 4 = c * 25 + q) by (subst yoe; Z.div_mod_to_equations; lia).
  assert (Hy100 : yoe / 100 = c) by (subst yoe; Z.div_mod_to_equations; lia).
  split; [subst yoe; lia |]. split; [lia |]. split.
  - rewrite Hy4, Hy100. subst yoe doy r2 r1. lia.
  - intros Hd.
    assert (a = 3) by lia. assert (r2 = 1460) by lia.
    destruct (Z.eq_dec q 24) as [Hq24 | Hq24].
    + split; [subst yoe; Z.div_mod_to_equations; lia |].
      right. assert (c = 3) by (subst r2; lia).
      subst yoe. Z.div_mod_to_equations. lia.
    + split; [subst yoe; Z.div_mod_to_equations; lia |].
      left. subst yoe. Z.div_mod_to_equations. lia.
Qed.


Lemma is_leap_true (y : Z) :
  y mod 4 = 0 -> (y mod 100 <> 0 \/ y mod 400 = 0) -> is_leap y = true.
Proof.
  intros H4 H. unfold is_leap. rewrite H4. cbn [Z.eqb andb].
  destruct H as [H | H].
  - apply Z.eqb_neq in H. rewrite H. reflexivity.
  - rewrite H. cbn [Z.eqb]. apply orb_true_r.
Qed.

(** [civil_from_days] gives a date of the calendar, and [days_from_civil]
    takes it back to the day number. *)
Lemma civil_from_days_ok (z y m d : Z) :
  civil_from_days z = (y, m, d) ->
  1 <= m <= 12 /\ 1 <= d <= DaysInMonth y m /\ days_from_civil y m d = z
  /\ (z + 719468) / 146097 * 400 <= y <= (z + 719468) / 146097 * 400 + 400.
Proof.
  unfold civil_from_days, era_fields.
  set (z' := z + 719468). set (era := z' / 146097). set (doe := z' mod 146097).
  assert (Hdoe : 0 <= doe < 146097) by (subst doe; apply Z.mod_pos_bound; lia).
  pose proof (era_year_ok doe Hdoe) as Hy. cbv zeta in Hy.
  set (c := Z.min (doe / 36524) 3) in *.
  set (r1 := doe - c * 36524) in *.
  set (q := r1 / 1461) in *.
  set (r2 := r1 - q * 1461) in *.
  set (a := Z.min (r2 / 365) 3) in *.
  set (doy := r2 - a * 365) in *.
  set (yoe := c * 100 + q * 4 + a) in *.
  destruct Hy as (Hyoe & Hdoy & Hsum & Hleap).
  pose proof (doy_ok_all doy Hdoy) as Hok. unfold doy_ok in Hok.
  destruct (month_day doy) as [m0 d0].
  intros [= <- <- <-].
  apply andb_prop in Hok as [Hok Hback]. apply andb_prop in Hok as [Hok Hlen].
  apply andb_prop in Hok as [Hok Hd1]. apply andb_prop in Hok as [Hm1 Hm12].
  apply Z.leb_le in Hm1, Hm12, Hd1, Hlen. apply Z.eqb_eq in Hback.
  split; [lia |]. split; [| split].
  - split; [lia |]. unfold DaysInMonth.
    destruct (m0 =? 2) eqn:Em.
    + apply Z.eqb_eq in Em. subst m0. cbn [Z.leb Z.compare Pos.compare Pos.compare_cont].
      destruct (doy =? 365) eqn:Ed.
      * apply Z.eqb_eq in Ed. destruct (Hleap Ed) as [L4 L100].
        rewrite is_leap_true; [lia | |].
        -- clear - L4. Z.div_mod_to_equations. lia.
        -- clear - L100. Z.div_mod_to_equations. lia.
      * destruct (is_leap _); lia.
    + exact Hlen.
  - unfold days_from_civil, era_day.
    replace (if m0 <=? 2 then yoe + era * 400 + (if m0 <=? 2 then 1 else 0) - 1
             else yoe + era * 400 + (if m0 <=? 2 then 1 else 0))
      with (yoe + era * 400) by (destruct (m0 <=? 2); lia).
    replace ((yoe + era * 400) / 400) with era
      by (clear - Hyoe; Z.div_mod_to_equations; lia).
    replace ((yoe + era * 400) mod 400) with yoe
      by (clear - Hyoe; Z.div_mod_to_equations; lia).
    assert (Hz : era * 146097 + doe = z')
      by (subst doe era; clear; Z.div_mod_to_equations; lia).
    subst z'. lia.
  - fold era. destruct (m0 <=? 2); lia.
Qed.


Lemma digit_char_facts (k : Z) :
  0 <= k <= 9 ->
  Js.is_digit (digit_char k) = true /\ Js.code (digit_char k) - 48 = k
  /\ Ascii.eqb (digit_char k) "+" = false
  /\ Ascii.eqb (digit_char k) "-" = false.
Proof.
  intros H.
  assert (E : k = 0 \/ k = 1 \/ k = 2 \/ k = 3 \/ k = 4 \/ k = 5 \/ k = 6
              \/ k = 7 \/ k = 8 \/ k = 9) by lia.
  repeat destruct E as [-> | E]; try subst k; repeat split; reflexivity.
Qed.

Lemma read_fixed_last (w : nat) (acc : Z) (s : string) :
  read_fixed (S w) acc s =
  match read_fixed w acc s with
  | Some (v, String c r) =>
      if Js.is_digit c then Some (10 * v + (Js.code c - 48), r) else None
  | _ => None
  end.
Proof.
  revert acc s. induction w as [| w IH]; intros acc s.
  - destruct s as [| c r]; [reflexivity |]. cbn [read_fixed].
    destruct (Js.is_digit c); reflexivity.
  - destruct s as [| c r]; [reflexivity |].
    change (read_fixed (S (S w)) acc (String c r))
      with (if Js.is_digit c then read_fixed (S w) (10 * acc + (Js.code c - 48)) r
            else None).
    change (read_fixed (S w) acc (String c r))
      with (if Js.is_digit c then read_fixed w (10 * acc + (Js.code c - 48)) r
            else None).
    destruct (Js.is_digit c); [apply IH | reflexivity].
Qed.

(** Reading [w] digits back from a number padded to [w] digits. *)
Lemma read_fixed_pad (w : nat) (n acc : Z) (rest : string) :
  0 <= n < 10 ^ Z.of_nat w ->
  read_fixed w acc (pad w n rest) = Some (acc * 10 ^ Z.of_nat w + n, rest).
Proof.
  revert n rest. induction w as [| w IH]; intros n rest Hn.
  - cbn in *. f_equal. f_equal. lia.
  - rewrite Nat2Z.inj_succ, Z.pow_succ_r in * by lia.
    rewrite read_fixed_last. cbn [pad].
    rewrite IH by (Z.div_mod_to_equations; lia).
    destruct (digit_char_facts (n mod 10)) as (Hd & Hv & _);
      [Z.div_mod_to_equations; lia |].
    rewrite Hd, Hv. f_equal. f_equal. Z.div_mod_to_equations. lia.
Qed.

Lemma read_fixed_pad0 (w : nat) (n : Z) (rest : string) :
  0 <= n < 10 ^ Z.of_nat w ->
  read_fixed w 0 (pad w n rest) = Some (n, rest).
Proof.
  intros H. rewrite read_fixed_pad by exact H. f_equal.
Qed.

Lemma pad_first_digit (w : nat) (n : Z) (rest : string) :
  exists k s', 0 <= k <= 9 /\ pad (S w) n rest = String (digit_char k) s'.
Proof.
  revert n rest. induction w as [| w IH]; intros n rest.
  - exists (n mod 10), rest. split; [Z.div_mod_to_equations; lia | reflexivity].
  - change (pad (S (S w)) n rest)
      with (pad (S w) (n / 10) (String (digit_char (n mod 10)) rest)).
    apply IH.
Qed.

(** The hour, minute, second and millisecond of a time add up to its time
    within the day. *)
Lemma time_within_day (t : Z) :
  Day t * msPerDay + HourFromTime t * 3600000 + MinFromTime t * 60000
  + SecFromTime t * 1000 + msFromTime t = t
  /\ 0 <= HourFromTime t <= 23 /\ 0 <= MinFromTime t <= 59
  /\ 0 <= SecFromTime t <= 59 /\ 0 <= msFromTime t <= 999.
Proof.
  unfold Day, msPerDay, HourFromTime, MinFromTime, SecFromTime, msFromTime.
  Z.div_mod_to_equations. lia.
Qed.

(** [toISOString] succeeds on every time value [TimeClip] lets through,
    and its text is an ISO-8601 timestamp that denotes that time. *)
Lemma toISOString_round_trip (t : Z) :
  - maxTime <= t <= maxTime ->
  exists s, toISOString t = Some s /\ time_of_iso s = Some t.
Proof.
  intros Ht. unfold toISOString.
  replace ((t <? - maxTime) || (maxTime <? t)) with false
    by (symmetry; apply orb_false_intro; apply Z.ltb_ge; lia).
  destruct (civil_from_days (Day t)) as [[y m] d] eqn:Ec.
  destruct (civil_from_days_ok _ _ _ _ Ec) as (Hm & Hd & Hback & Hy).
  destruct (time_within_day t) as (Hsum & Hh & Hmi & Hs & Hms).
  assert (Hyb : -999999 <= y <= 999999).
  { unfold Day, msPerDay, maxTime in *. clear - Hy Ht.
    Z.div_mod_to_equations. lia. }
  assert (Hd31 : d <= 31)
    by (unfold DaysInMonth in Hd; destruct (m =? 2), (is_leap y),
          ((m =? 4) || (m =? 6) || (m =? 9) || (m =? 11)); lia).
  set (tail := String "-" _).
  assert (Htail : forall y0,
    match expect "-" tail with None => None | Some s =>
    match read_fixed 2 0 s with None => None | Some (m, s) =>
    match expect "-" s with None => None | Some s =>
    match read_fixed 2 0 s with None => None | Some (d, s) =>
    match expect "T" s with None => None | Some s =>
    match read_fixed 2 0 s with None => None | Some (hh, s) =>
    match expect ":" s with None => None | Some s =>
    match read_fixed 2 0 s with None => None | Some (mm, s) =>
    match expect ":" s with None => None | Some s =>
    match read_fixed 2 0 s with None => None | Some (ss, s) =>
    match expect "." s with None => None | Some s =>
    match read_fixed 3 0 s with None => None | Some (ms, s) =>
      if String.eqb s "Z"
         && (1 <=? m) && (m <=? 12) && (1 <=? d) && (d <=? DaysInMonth y0 m)
         && (hh <=? 23) && (mm <=? 59) && (ss <=? 59)
      then Some (days_from_civil y0 m d * msPerDay
                 + hh * 3600000 + mm * 60000 + ss * 1000 + ms)
      else None
    end end end end end end end end end end end end
    = if d <=? DaysInMonth y0 m
      then Some (days_from_civil y0 m d * msPerDay + HourFromTime t * 3600000
                 + MinFromTime t * 60000 + SecFromTime t * 1000 + msFromTime t)
      else None).
  { intros y0. subst tail. unfold expect.
    rewrite ?Ascii.eqb_refl.
    repeat (rewrite read_fixed_pad0 by (cbn; lia); rewrite ?Ascii.eqb_refl).
    rewrite (proj2 (Z.leb_le 1 m)), (proj2 (Z.leb_le m 12)),
      (proj2 (Z.leb_le 1 d)), (proj2 (Z.leb_le (HourFromTime t) 23)),
      (proj2 (Z.leb_le (MinFromTime t) 59)),
      (proj2 (Z.leb_le (SecFromTime t) 59)) by lia.
    rewrite String.eqb_refl. cbn [andb]. rewrite !andb_true_r.
    destruct (d <=? DaysInMonth y0 m); reflexivity. }
  assert (Hfinal : (if d <=? DaysInMonth y m
                    then Some (days_from_civil y m d * msPerDay
                               + HourFromTime t * 3600000 + MinFromTime t * 60000
                               + SecFromTime t * 1000 + msFromTime t)
                    else None) = Some t).
  { rewrite (proj2 (Z.leb_le _ _)) by lia. f_equal. rewrite Hback. exact Hsum. }
  clearbody tail.
  eexists. split; [reflexivity |]. unfold time_of_iso.
  destruct ((0 <=? y) && (y <=? 9999)) eqn:Ey.
  - apply andb_prop in Ey as [Ey1 Ey2]. apply Z.leb_le in Ey1, Ey2.
    destruct (pad_first_digit 3 y tail) as (k & s' & Hk & E).
    destruct (digit_char_facts k Hk) as (_ & _ & Hp & Hn).
    rewrite E, Hp, Hn, <- E.
    rewrite read_fixed_pad0 by (cbn; lia).
    rewrite Htail. exact Hfinal.
  - assert (Hy' : y < 0 \/ 9999 < y).
    { apply andb_false_iff in Ey as [Ey | Ey];
        [apply Z.leb_gt in Ey | apply Z.leb_gt in Ey]; lia. }
    destruct (y <? 0) eqn:Eneg.
    + apply Z.ltb_lt in Eneg.
      cbn [Ascii.eqb Bool.eqb]. rewrite read_fixed_pad0 by (cbn; lia).
      replace (Z.abs y =? 0) with false by (symmetry; apply Z.eqb_neq; lia).
      replace (- Z.abs y) with y by lia.
      rewrite Htail. exact Hfinal.
    + apply Z.ltb_ge in Eneg.
      cbn [Ascii.eqb Bool.eqb]. rewrite read_fixed_pad0 by (cbn; lia).
      replace (Z.abs y) with y by lia.
      rewrite Htail. exact Hfinal.
Qed.

End DateFacts.

(** ** The throttle *)

Module RateLimiterFacts.
Import RateLimiter.

Lemma enter_at_once (d : Z) (id : nat) (st : state) :
  d <= clock st - lastRequestTime st -> enter d id st = dispatch id st.
Proof.
  intros H. unfold enter.
  replace (clock st - lastRequestTime st <? d) with false
    by (symmetry; apply Z.ltb_ge; exact H).
  reflexivity.
Qed.

Lemma enter_sleeps (d : Z) (id : nat) (st : state) :
  clock st - lastRequestTime st < d ->
  enter d id st =
  {| clock := clock st;
     lastRequestTime := lastRequestTime st;
     timers := (timers st ++ [(lastRequestTime st + d, id)])%list;
     dispatched := dispatched st |}.
Proof.
  intros H. unfold enter.
  replace (clock st - lastRequestTime st <? d) with true
    by (symmetry; apply Z.ltb_lt; exact H).
  replace (clock st + (d - (clock st - lastRequestTime st)))
    with (lastRequestTime st + d) by lia.
  reflexivity.
Qed.

Lemma earliest_in (l : list (Z * nat)) (t : Z * nat) (rest : list (Z * nat)) :
  earliest l = Some (t, rest) -> In t l.
Proof.
  revert t rest. induction l as [| x l IH]; intros t rest H; [discriminate |].
  cbn [earliest] in H. destruct (earliest l) as [[t' rest'] |] eqn:E.
  - destruct (fst t' <? fst x); injection H as <- <-.
    + right. exact (IH _ _ eq_refl).
    + left. reflexivity.
  - injection H as <- <-. left. reflexivity.
Qed.

(** The oldest timer fires first when none is due before it. *)
Lemma earliest_head (due : Z) (id : nat) (l : list (Z * nat)) :
  Forall (fun t => due <= fst t) l ->
  earliest ((due, id) :: l) = Some ((due, id), l).
Proof.
  intros H. cbn [earliest].
  destruct (earliest l) as [[t' rest'] |] eqn:E.
  - apply earliest_in in E.
    pose proof (proj1 (List.Forall_forall _ l) H t' E) as Ht'. cbn beta in Ht'.
    cbn [fst]. replace (fst t' <? due) with false
      by (symmetry; apply Z.ltb_ge; exact Ht').
    reflexivity.
  - destruct l as [| x l]; [reflexivity |].
    cbn [earliest] in E. destruct (earliest l) as [[? ?] |];
      [destruct (_ <? _) |]; discriminate.
Qed.

Lemma fire_due_head (fuel : nat) (target due : Z) (id : nat)
    (l : list (Z * nat)) (c last : Z) (log : list (nat * Z)) :
  Forall (fun t => due <= fst t) l -> c <= due <= target ->
  fire_due (S fuel) target
    {| clock := c; lastRequestTime := last; timers := (due, id) :: l;
       dispatched := log |}
  = fire_due fuel target
      {| clock := due; lastRequestTime := due; timers := l;
         dispatched := (log ++ [(id, due)])%list |}.
Proof.
  intros Hl Hd. cbn [fire_due timers].
  rewrite (earliest_head due id l Hl).
  replace (due <=? target) with true by (symmetry; apply Z.leb_le; lia).
  unfold dispatch. cbn [clock lastRequestTime timers dispatched].
  replace (Z.max c due) with due by lia. reflexivity.
Qed.

(** *** Callers one after the other *)

Lemma spaced_snoc (d t : Z) (ts : list Z) :
  spaced d ts -> Forall (fun x => x + d <= t) ts -> spaced d (ts ++ [t]).
Proof.
  induction ts as [| a ts IH]; intros Hs Hall; [exact I |].
  destruct ts as [| b ts].
  - cbn. inversion Hall; subst. split; [assumption | exact I].
  - destruct Hs as [Hab Hs]. inversion Hall; subst.
    change (spaced d (a :: (b :: ts ++ [t])%list)).
    cbn [spaced]. split; [exact Hab | exact (IH Hs H2)].
Qed.

Lemma dispatch_times_snoc (log : list (nat * Z)) (id : nat) (t : Z) :
  map snd (log ++ [(id, t)]) = (map snd log ++ [t])%list.
Proof. induction log as [| x log IH]; cbn; [reflexivity | now rewrite IH]. Qed.

(** C2, the failing input.  Four callers enter [rateLimitedFetch] in the
    same turn of the event loop, as the four fetches of [activitySnapshot]
    do.  The first is dispatched at once; the other three each read the
    same [lastRequestTime], sleep up to the same time and are dispatched
    together: their dispatch times are not [d] apart. *)
Theorem concurrent_calls_dispatched_together (d t0 : Z) :
  0 < d <= 1000 -> d <= t0 ->
  dispatch_times (run_events d concurrent_calls (init t0))
  = [t0; t0 + d; t0 + d; t0 + d]
  /\ ~ spaced d (dispatch_times (run_events d concurrent_calls (init t0))).
Proof.
  intros Hd Ht.
  assert (E : dispatch_times (run_events d concurrent_calls (init t0))
              = [t0; t0 + d; t0 + d; t0 + d]).
  { unfold concurrent_calls, run_events. cbn [fold_left step].
    assert (H0 : d <= clock (init t0) - lastRequestTime (init t0))
      by (unfold init; cbn; lia).
    rewrite (enter_at_once d 0 (init t0) H0).
    unfold dispatch, init. cbn [clock lastRequestTime timers dispatched app].
    assert (Hs : forall l log,
              enter d 1 {| clock := t0; lastRequestTime := t0; timers := l;
                           dispatched := log |}
              = {| clock := t0; lastRequestTime := t0;
                   timers := (l ++ [(t0 + d, 1%nat)])%list; dispatched := log |}
              /\ enter d 2 {| clock := t0; lastRequestTime := t0; timers := l;
                              dispatched := log |}
                 = {| clock := t0; lastRequestTime := t0;
                      timers := (l ++ [(t0 + d, 2%nat)])%list; dispatched := log |}
              /\ enter d 3 {| clock := t0; lastRequestTime := t0; timers := l;
                              dispatched := log |}
                 = {| clock := t0; lastRequestTime := t0;
                      timers := (l ++ [(t0 + d, 3%nat)])%list; dispatched := log |}).
    { intros l log. repeat split; apply enter_sleeps; cbn; lia. }
    rewrite (proj1 (Hs _ _)), (proj1 (proj2 (Hs _ _))), (proj2 (proj2 (Hs _ _))).
    cbn [app]. unfold elapse. cbn [clock lastRequestTime timers dispatched length].
    assert (Hf : forall id l c last log fuel,
              Forall (fun t => t0 + d <= fst t) l -> c <= t0 + d ->
              fire_due (S fuel) (t0 + 1000)
                {| clock := c; lastRequestTime := last; timers := (t0 + d, id) :: l;
                   dispatched := log |}
              = fire_due fuel (t0 + 1000)
                  {| clock := t0 + d; lastRequestTime := t0 + d; timers := l;
                     dispatched := (log ++ [(id, t0 + d)])%list |}).
    { intros. apply fire_due_head; [assumption | lia]. }
    rewrite Hf by (repeat constructor; cbn; lia).
    rewrite Hf by (repeat constructor; cbn; lia).
    rewrite Hf by (repeat constructor; cbn; lia).
    reflexivity. }
  split; [exact E |].
  rewrite E. cbn [spaced]. lia.
Qed.

End RateLimiterFacts.


(** ** The tools *)

Section ToolTheorems.

Variable new_URL : string -> option URL.
Variable now : string.
Variable requestTimeoutMs : Z.


(** C9.  A URL that [parseRepoUrl] rejects makes each of the four tools
    answer with an [INVALID_INPUT] error envelope, and none of them issues
    an outbound call. *)
Theorem rejected_url_is_invalid_input_without_call
    (repoUrl : string) (paths : option (list string)) (limit : option Js.double) :
  parseRepoUrl new_URL repoUrl = None ->
  fails_without_call INVALID_INPUT (repoOverview new_URL now requestTimeoutMs repoUrl)
  /\ fails_without_call INVALID_INPUT (extractKeyFiles new_URL now repoUrl paths)
  /\ fails_without_call INVALID_INPUT (releaseNotes new_URL now requestTimeoutMs repoUrl limit)
  /\ fails_without_call INVALID_INPUT (activitySnapshot new_URL now requestTimeoutMs repoUrl).
Proof.
  intros Hrej.
  unfold fails_without_call, no_call, repoOverview,
    extractKeyFiles, releaseNotes,
    activitySnapshot.
  rewrite Hrej.
  repeat split; eauto; intros net; eexists; simpl; eauto.
Qed.

(** *** The key-files tool *)

Lemma fetchRawFile_calls (net : upstream) (o r b p : string) :
  snd (run net (fetchRawFile o r b p)) = [raw_file_url o r b p].
Proof. reflexivity. Qed.

Lemma fetchRawFile_path (net : upstream) (o r b p : string) :
  path (fst (run net (fetchRawFile o r b p))) = p.
Proof.
  unfold fetchRawFile. simpl.
  destruct (net SText (raw_file_url o r b p)) as [resp | e]; [| reflexivity].
  destruct (_ =? 404); [reflexivity |].
  destruct (negb _); [reflexivity |].
  destruct (body _); reflexivity.
Qed.

Lemma fetched_paths (net : upstream) (o r b : string) (l : list string) :
  map path (map (fun p => fst (run net (fetchRawFile o r b p))) l) = l.
Proof.
  induction l as [| q qs IH]; [reflexivity |].
  cbn [map]. rewrite fetchRawFile_path, IH. reflexivity.
Qed.

Lemma getDefaultBranch_calls (net : upstream) (o r : string) :
  snd (run net (getDefaultBranch o r)) = [repo_api_url o r].
Proof. reflexivity. Qed.

Lemma paths_choice (paths : option (list string)) :
  match paths with
  | Some ps => if 0 <? Z.of_nat (length ps) then ps else DEFAULT_PATHS
  | None => DEFAULT_PATHS
  end = Spec.requested_paths paths.
Proof. destruct paths as [[| p ps] |]; reflexivity. Qed.

Lemma other_error_filter (f : FileContent) :
  Js.truthy (error f) && negb (bool_decide (error f = Some "File not found"))
  = Spec.is_other_error f.
Proof.
  unfold Spec.is_other_error.
  destruct (error f) as [e |]; [| reflexivity].
  destruct (String.eqb e "File not found") eqn:E.
  - apply String.eqb_eq in E. subst e. reflexivity.
  - rewrite bool_decide_eq_false_2.
    + destruct e; reflexivity.
    + intros [= ->]. rewrite String.eqb_refl in E. discriminate.
Qed.

Lemma warning_if_any {A} (l : list A) (w : string) :
  (if 0 <? Z.of_nat (length l) then [w] else []) =
  match l with [] => [] | _ => [w] end.
Proof. destruct l; reflexivity. Qed.

(** What the tool returns and calls once the URL parses, in terms of the
    branch lookup and the per-file fetches. *)
Lemma run_extractKeyFiles (net : upstream) (repoUrl : string)
    (paths : option (list string)) (info : ParsedRepoInfo) :
  parseRepoUrl new_URL repoUrl = Some info ->
  let o := pr_owner info in
  let r := pr_repo info in
  let branch := fst (run net (getDefaultBranch o r)) in
  run net (extractKeyFiles new_URL now repoUrl paths) =
  if Js.truthy branch then
    let b := default "" branch in
    let fs := map (fun p => fst (run net (fetchRawFile o r b p)))
                (Spec.requested_paths paths) in
    (SuccessResponse {| files := fs; kf_default_branch := b |}
       {| source := Some ("https://github.com/" +:+ o +:+ "/" +:+ r);
          retrieved_at := now;
          next_cursor := None;
          warnings := Spec.not_found_warning fs ++ Spec.other_errors_warning fs |},
     repo_api_url o r :: map (raw_file_url o r b) (Spec.requested_paths paths))
  else
    (ErrorResponse
       {| code := UPSTREAM_ERROR;
          message := "Could not determine default branch for " +:+ o +:+ "/"
                       +:+ r +:+ ". Repository may not exist or be private.";
          details := [("owner", DStr o); ("repo", DStr r)] |} now,
     [repo_api_url o r]).
Proof.
  intros Hparse o r branch.
  unfold extractKeyFiles. rewrite Hparse, paths_choice.
  rewrite run_bind. fold o r branch. rewrite getDefaultBranch_calls.
  destruct (Js.truthy branch) eqn:Ht; [| reflexivity].
  rewrite run_bind, run_all.
  set (b := default "" branch).
  set (fs := map (fun p => fst (run net (fetchRawFile o r b p))) _).
  cbn [fst snd run]. unfold createSuccessResponse. cbn [default opt_warnings
    opt_source opt_next_cursor].
  rewrite !warning_if_any, app_nil_r.
  f_equal.
  - f_equal. f_equal.
    unfold Spec.not_found_warning, Spec.other_errors_warning.
    rewrite (filter_ext _ _ other_error_filter).
    change (fun f => bool_decide (error f = Some "File not found"))
      with Spec.is_not_found.
    destruct (List.filter Spec.is_not_found fs),
      (List.filter Spec.is_other_error fs); reflexivity.
  - cbn [app]. f_equal. clear.
    induction (Spec.requested_paths paths) as [| p ps IH];
      [reflexivity | cbn [map concat]; rewrite IH; reflexivity].
Qed.

(** C10.  An empty [paths] list behaves as no list at all: the four
    default files README.md, LICENSE, package.json and pyproject.toml are
    fetched; a list that is not empty is fetched as it is given. *)
Theorem empty_paths_is_default
    (net : upstream) (repoUrl : string) (info : ParsedRepoInfo) (branch : string)
    (p : string) (ps : list string) :
  parseRepoUrl new_URL repoUrl = Some info ->
  fst (run net (getDefaultBranch (pr_owner info) (pr_repo info))) = Some branch ->
  branch <> "" ->
  extractKeyFiles new_URL now repoUrl (Some []) = extractKeyFiles new_URL now repoUrl None
  /\ snd (run net (extractKeyFiles new_URL now repoUrl None)) =
       repo_api_url (pr_owner info) (pr_repo info)
       :: map (raw_file_url (pr_owner info) (pr_repo info) branch)
            ["README.md"; "LICENSE"; "package.json"; "pyproject.toml"]
  /\ snd (run net (extractKeyFiles new_URL now repoUrl (Some (p :: ps)))) =
       repo_api_url (pr_owner info) (pr_repo info)
       :: map (raw_file_url (pr_owner info) (pr_repo info) branch) (p :: ps)
  /\ (forall data meta,
        fst (run net (extractKeyFiles new_URL now repoUrl (Some (p :: ps))))
          = SuccessResponse data meta ->
        map path (files data) = p :: ps).
Proof.
  intros Hparse Hb Hne.
  assert (Ht : Js.truthy (Some branch) = true) by (destruct branch; [contradiction | reflexivity]).
  split; [reflexivity |].
  rewrite !(run_extractKeyFiles net _ _ info Hparse), Hb, Ht.
  split; [reflexivity |]. split; [reflexivity |].
  intros data meta H.
  assert (E : files data =
              map (fun q => fst (run net (fetchRawFile (pr_owner info)
                                            (pr_repo info) branch q))) (p :: ps))
    by (injection H as <- _; reflexivity).
  rewrite E. apply fetched_paths.
Qed.

(** C3 (as amended).  One file fetch of the key-files tool: a 404 gives
    no content and the error [File not found]; any other answer outside
    2xx gives no content and the error [HTTP <status>: <status text>]; a
    fetch or a body that throws gives no content and the message of the
    error ([Unknown error] for a thrown value that is no [Error]); a 2xx
    answer gives the body text as content, with its [length] as size.  The
    encoding is [utf-8] throughout, and the content is null exactly when
    the error is set. *)
Theorem fetchRawFile_outcomes (net : upstream) (o r b p : string) :
  let f := fst (run net (fetchRawFile o r b p)) in
  let message_of e :=
    match e with
    | ThrownError _ message => message
    | ThrownOther => "Unknown error"
    end in
  path f = p /\ encoding f = "utf-8"
  /\ match net SText (raw_file_url o r b p) with
     | Throw e =>
         content f = None /\ size f = None /\ error f = Some (message_of e)
     | Ok response =>
         if status response =? 404 then
           content f = None /\ size f = None /\ error f = Some "File not found"
         else if ok response then
           match body response with
           | Ok text =>
               content f = Some text
               /\ size f = Some (Z.of_nat (String.length text))
               /\ error f = None
           | Throw e =>
               content f = None /\ size f = None /\ error f = Some (message_of e)
           end
         else
           content f = None /\ size f = None
           /\ error f = Some ("HTTP " +:+ Js.string_of_Z (status response)
                                +:+ ": " +:+ statusText response)
     end
  /\ (content f = None <-> error f <> None).
Proof using Type.
  clear new_URL now requestTimeoutMs.
  unfold fetchRawFile. cbn [run fst mbind io_bind bind rateLimitedFetch].
  destruct (net SText (raw_file_url o r b p)) as [resp | e].
  - destruct (_ =? 404).
    + cbn. intuition congruence.
    + unfold negb. destruct (ok _).
      * destruct (body _); cbn; intuition congruence.
      * cbn. intuition congruence.
  - cbn. intuition congruence.
Qed.

(** *** The activity snapshot *)

Lemma run_activitySnapshot (net : upstream) (repoUrl : string)
    (info : ParsedRepoInfo) :
  parseRepoUrl new_URL repoUrl = Some info ->
  fst (run net (activitySnapshot new_URL now requestTimeoutMs repoUrl)) =
  merge_activity now requestTimeoutMs info
    (fst (run net (fetchRepoInfo (pr_owner info) (pr_repo info))))
    (fst (run net (fetchLatestCommit (pr_owner info) (pr_repo info))))
    (fst (run net (fetchOpenPRsCount (pr_owner info) (pr_repo info))))
    (fst (run net (fetchContributorsCount (pr_owner info) (pr_repo info)))).
Proof.
  intros Hparse. unfold activitySnapshot. rewrite Hparse.
  rewrite run_bind, run_Promise_all4. reflexivity.
Qed.

Lemma fetchRepoInfo_value (net : upstream) (o r : string) :
  fst (run net (fetchRepoInfo o r)) =
  match net SRepo (repo_api_url o r) with
  | Throw _ => None
  | Ok response =>
      if ok response
      then match body response with Ok data => Some data | Throw _ => None end
      else None
  end.
Proof.
  unfold fetchRepoInfo. cbn [run fst mbind io_bind bind rateLimitedFetch].
  destruct (net SRepo _) as [response | e]; [| reflexivity].
  unfold negb. destruct (ok _); reflexivity.
Qed.

Lemma fetchLatestCommit_value (net : upstream) (o r : string) :
  fst (run net (fetchLatestCommit o r)) =
  match net SCommits (repo_api_url o r +:+ "/commits?per_page=1") with
  | Throw _ => None
  | Ok response =>
      if ok response
      then match body response with Ok (c :: _) => Some c | _ => None end
      else None
  end.
Proof.
  unfold fetchLatestCommit. cbn [run fst mbind io_bind bind rateLimitedFetch].
  destruct (net SCommits _) as [response | e]; [| reflexivity].
  unfold negb. destruct (ok _); [| reflexivity].
  destruct (body _) as [[| c l] | e]; reflexivity.
Qed.

Lemma fetchRepoInfo_Some (net : upstream) (o r : string) (rd : GitHubRepoResponse) :
  fst (run net (fetchRepoInfo o r)) = Some rd <->
  Spec.succeeded (net SRepo (repo_api_url o r)) rd.
Proof.
  rewrite fetchRepoInfo_value. unfold Spec.succeeded. split.
  - destruct (net SRepo _) as [response | e]; [| discriminate].
    unfold body_of in *. destruct (ok response) eqn:Hok; [| discriminate].
    destruct (body response) as [d | e] eqn:Hbody; [| discriminate].
    intros [= <-]. exists response. auto.
  - intros (response & -> & Hok & Hbody). unfold body_of in *.
    rewrite Hok, Hbody. reflexivity.
Qed.

Lemma fetchLatestCommit_Some (net : upstream) (o r : string)
    (c : GitHubCommitResponse) :
  fst (run net (fetchLatestCommit o r)) = Some c <->
  exists rest,
    Spec.succeeded (net SCommits (repo_api_url o r +:+ "/commits?per_page=1"))
      (c :: rest).
Proof.
  rewrite fetchLatestCommit_value. unfold Spec.succeeded. split.
  - destruct (net SCommits _) as [response | e]; [| discriminate].
    unfold body_of in *. destruct (ok response) eqn:Hok; [| discriminate].
    destruct (body response) as [[| c' rest] | e] eqn:Hbody; try discriminate.
    intros [= <-]. exists rest, response. auto.
  - intros (rest & response & -> & Hok & Hbody). unfold body_of in *.
    rewrite Hok, Hbody. reflexivity.
Qed.

Lemma count_of_response_succeeded {E} (response : Response (list E)) (l : list E) :
  ok response = true -> body response = Ok l -> count_of_response response <> None.
Proof.
  intros Hok Hbody. unfold count_of_response. rewrite Hok, Hbody. cbn [negb].
  destruct (match headers_get response "link" with
            | Some h => _
            | None => None
            end); discriminate.
Qed.

(** An envelope with an error code is not a success. *)
Lemma error_code_not_ok {T} (r : ApiResponse T) (c : ErrorCode) :
  error_code r = Some c -> ok_flag r = false.
Proof. destruct r; [discriminate | reflexivity]. Qed.

(** What [merge_activity] answers once the repository was fetched: the
    [INTERNAL_ERROR] of the [TypeError] when there is a commit that
    cannot be read, and a success otherwise. *)
Lemma merge_activity_fetched (info : ParsedRepoInfo) (rd : GitHubRepoResponse)
    (latestCommit : option GitHubCommitResponse)
    (openPRsCount contributorsCount : option Js.number) :
  let res := merge_activity now requestTimeoutMs info (Some rd) latestCommit
               openPRsCount contributorsCount in
  (error_code res = None \/ error_code res = Some INTERNAL_ERROR)
  /\ (error_code res = Some INTERNAL_ERROR <->
      exists c, latestCommit = Some c /\ ~ Spec.readable c).
Proof.
  unfold merge_activity, Spec.readable.
  destruct latestCommit as [c |]; cbn zeta.
  - destruct (commit c) as [detail | n] eqn:Hd; cbn [reading].
    + destruct (author detail) as [a | n] eqn:Ha; cbn [reading].
      * split; [left; reflexivity |]. split; [discriminate |].
        intros (c' & [= <-] & Hn). exfalso. apply Hn. eauto.
      * split; [right; reflexivity |]. split; [| reflexivity].
        intros _. exists c. split; [reflexivity |].
        intros (d' & a' & Hd' & Ha'). congruence.
    + split; [right; reflexivity |]. split; [| reflexivity].
      intros _. exists c. split; [reflexivity |].
      intros (d' & a' & Hd' & _). congruence.
  - split; [left; reflexivity |]. split; [discriminate |].
    intros (c & [=] & _).
Qed.

(** C5.  In the activity snapshot, a failed commit, PR-count or
    contributor-count fetch yields no value, and one that answers 2xx with
    a body that is read yields one.  When the repository fetch answers 2xx
    with a body that is read, the envelope is [ok: true] for every
    combination of outcomes of the three other fetches (a commit that was
    fetched having an author to read): the record holds null for the
    commit date and message when there is no commit, and 0 for a count
    that is missing, and the warnings hold exactly one entry for each of
    the three values that is missing.  When the repository fetch fails,
    or its body cannot be read, the call returns the [UPSTREAM_ERROR]
    envelope.  But a commit that was fetched and has no [commit] or no
    [commit.author] to read makes the whole call fail, with
    [INTERNAL_ERROR], although the repository was fetched. *)
Theorem activity_soft_failures (net : upstream) (repoUrl : string)
    (info : ParsedRepoInfo) :
  parseRepoUrl new_URL repoUrl = Some info ->
  let o := pr_owner info in
  let r := pr_repo info in
  let repo := net SRepo (repo_api_url o r) in
  let commits := net SCommits (repo_api_url o r +:+ "/commits?per_page=1") in
  let pulls := net SPulls (repo_api_url o r +:+ "/pulls?state=open&per_page=1") in
  let contributors :=
    net SContributors (repo_api_url o r +:+ "/contributors?per_page=1&anon=true") in
  let latestCommit := fst (run net (fetchLatestCommit o r)) in
  let openPRsCount := fst (run net (fetchOpenPRsCount o r)) in
  let contributorsCount := fst (run net (fetchContributorsCount o r)) in
  let result := fst (run net (activitySnapshot new_URL now requestTimeoutMs repoUrl)) in
  (Spec.failed commits -> latestCommit = None)
  /\ (Spec.failed pulls -> openPRsCount = None)
  /\ (Spec.failed contributors -> contributorsCount = None)
  /\ (forall c rest, Spec.succeeded commits (c :: rest) -> latestCommit = Some c)
  /\ (forall l, Spec.succeeded pulls l -> openPRsCount <> None)
  /\ (forall l, Spec.succeeded contributors l -> contributorsCount <> None)
  /\ (Spec.failed repo \/ (forall rd, ~ Spec.succeeded repo rd) ->
      result =
      ErrorResponse
        {| code := UPSTREAM_ERROR;
           message := "Could not fetch repository data for " +:+ o +:+ "/" +:+ r
                        +:+ ". Repository may not exist or be private.";
           details := [("owner", DStr o); ("repo", DStr r)] |} now)
  /\ (forall rd c rest,
        Spec.succeeded repo rd -> Spec.succeeded commits (c :: rest) ->
        ~ Spec.readable c ->
        ok_flag result = false /\ error_code result = Some INTERNAL_ERROR)
  /\ (forall rd,
        Spec.succeeded repo rd -> Spec.first_commit_readable commits ->
        exists data meta,
          result = SuccessResponse data meta
          /\ ok_flag result = true
          /\ (latestCommit = None ->
              last_commit_date data = None /\ last_commit_message data = None)
          /\ (forall c detail a,
                latestCommit = Some c -> commit c = Present detail ->
                author detail = Present a ->
                last_commit_date data = date a
                /\ last_commit_message data = commit_message detail)
          /\ open_prs_count data = default (Js.Int 0) openPRsCount
          /\ contributors_count data = default (Js.Int 0) contributorsCount
          /\ as_open_issues_count data = open_issues_count rd
          /\ as_watchers_count data = watchers_count rd
          /\ warnings meta =
               ((if openPRsCount is None
                 then ["Could not fetch open PRs count"] else [])
                ++ (if contributorsCount is None
                    then ["Could not fetch contributors count"] else [])
                ++ (if latestCommit is None
                    then ["Could not fetch latest commit information"] else []))%list
          /\ length (warnings meta) =
               (Spec.missing openPRsCount + Spec.missing contributorsCount
                + Spec.missing latestCommit)%nat).
Proof.
  intros Hparse o r repo commits pulls contributors latestCommit openPRsCount
    contributorsCount result.
  assert (Hres : result = merge_activity now requestTimeoutMs info
                            (fst (run net (fetchRepoInfo o r))) latestCommit
                            openPRsCount contributorsCount)
    by (apply run_activitySnapshot, Hparse).
  assert (Hcommit : latestCommit =
                    match commits with
                    | Throw _ => None
                    | Ok response =>
                        if ok response
                        then match body response with
                             | Ok (c :: _) => Some c
                             | _ => None
                             end
                        else None
                    end) by apply fetchLatestCommit_value.
  pose proof (fetchRepoInfo_value net o r) as Hrepo. fold repo in Hrepo.
  split; [| split; [| split; [| split; [| split; [| split; [| split; [| split]]]]]]].
  - rewrite Hcommit. unfold Spec.failed.
    destruct commits as [response | e]; [| reflexivity]. intros ->. reflexivity.
  - subst openPRsCount. unfold fetchOpenPRsCount, count_of_response, Spec.failed.
    cbn [run fst mbind io_bind bind rateLimitedFetch]. fold pulls.
    destruct pulls as [response | e]; [| reflexivity].
    cbn [body_of]. intros ->. reflexivity.
  - subst contributorsCount.
    unfold fetchContributorsCount, count_of_response, Spec.failed.
    cbn [run fst mbind io_bind bind rateLimitedFetch]. fold contributors.
    destruct contributors as [response | e]; [| reflexivity].
    cbn [body_of]. intros ->. reflexivity.
  - intros c rest (response & Hc & Hok & Hbody).
    rewrite Hcommit, Hc, Hok. unfold body_of in *. rewrite Hbody. reflexivity.
  - intros l (response & Hp & Hok & Hbody). subst openPRsCount.
    unfold fetchOpenPRsCount. cbn [run fst mbind io_bind bind rateLimitedFetch].
    fold pulls. rewrite Hp. exact (count_of_response_succeeded response l Hok Hbody).
  - intros l (response & Hp & Hok & Hbody). subst contributorsCount.
    unfold fetchContributorsCount.
    cbn [run fst mbind io_bind bind rateLimitedFetch].
    fold contributors. rewrite Hp.
    exact (count_of_response_succeeded response l Hok Hbody).
  - intros Hfail.
    assert (Hnone : fst (run net (fetchRepoInfo o r)) = None).
    { rewrite Hrepo. destruct Hfail as [Hfail | Hfail].
      - unfold Spec.failed in Hfail.
        destruct repo as [response | e]; [| reflexivity]. rewrite Hfail. reflexivity.
      - destruct repo as [response | e]; [| reflexivity].
        destruct (ok response) eqn:Hok; [| reflexivity].
        unfold body_of in *. destruct (body response) as [rd | e] eqn:Hbody;
          [| reflexivity].
        exfalso. apply (Hfail rd). exists response. auto. }
    rewrite Hres, Hnone. reflexivity.
  - intros rd c rest Hrd Hc Hn.
    apply fetchRepoInfo_Some in Hrd.
    assert (Hlc : latestCommit = Some c)
      by (apply fetchLatestCommit_Some; exists rest; exact Hc).
    rewrite Hres, Hrd, Hlc.
    destruct (merge_activity_fetched info rd (Some c) openPRsCount contributorsCount)
      as [_ Hiff].
    assert (He : error_code
                   (merge_activity now requestTimeoutMs info (Some rd) (Some c)
                      openPRsCount contributorsCount) = Some INTERNAL_ERROR)
      by (apply Hiff; exists c; split; [reflexivity | exact Hn]).
    split; [exact (error_code_not_ok _ _ He) | exact He].
  - intros rd (response & Hr & Hok & Hbody) Hreadable.
    assert (Hsome : fst (run net (fetchRepoInfo o r)) = Some rd).
    { rewrite Hrepo, Hr, Hok. unfold body_of in *. rewrite Hbody. reflexivity. }
    assert (Hc : match latestCommit with
                 | Some c => Spec.readable c
                 | None => True
                 end).
    { rewrite Hcommit. destruct commits as [cresp | e]; [| exact I].
      destruct (ok cresp) eqn:Hcok; [| exact I].
      unfold body_of in *.
      destruct (body cresp) as [[| c rest] | e] eqn:Hcbody; try exact I.
      apply (Hreadable c rest). exists cresp. auto. }
    rewrite Hres, Hsome. clearbody latestCommit openPRsCount contributorsCount.
    unfold merge_activity, createSuccessResponse.
    destruct latestCommit as [c |].
    + destruct Hc as (detail & a & Hd & Ha). rewrite Hd. cbn [reading].
      rewrite Ha. cbn [reading].
      eexists _, _. split; [reflexivity |].
      cbn [ok_flag last_commit_date last_commit_message open_prs_count
             contributors_count as_open_issues_count as_watchers_count
             warnings opt_warnings default].
      split; [reflexivity |]. split; [discriminate |].
      split.
      { intros c' detail' a' [= <-] Hd' Ha'.
        rewrite Hd in Hd'. injection Hd' as <-.
        rewrite Ha in Ha'. injection Ha' as <-. split; reflexivity. }
      repeat (split; [reflexivity |]).
      destruct openPRsCount, contributorsCount; reflexivity.
    + eexists _, _. split; [reflexivity |].
      cbn [ok_flag last_commit_date last_commit_message open_prs_count
             contributors_count as_open_issues_count as_watchers_count
             warnings opt_warnings default].
      split; [reflexivity |]. split; [split; reflexivity |].
      split; [discriminate |].
      repeat (split; [reflexivity |]).
      destruct openPRsCount, contributorsCount; reflexivity.
Qed.

(** *** The key-files envelope *)

Lemma not_found_warning_lists (fs : list FileContent) (f : FileContent) :
  In f fs -> error f = Some "File not found" ->
  exists w, Spec.not_found_warning fs = [w]
            /\ Js.strip_prefix "Files not found: " w <> None
            /\ Js.includes (path f) w = true.
Proof.
  intros Hin Herr. unfold Spec.not_found_warning.
  assert (Hf : In f (List.filter Spec.is_not_found fs)).
  { apply filter_In. split; [exact Hin |].
    unfold Spec.is_not_found. now apply bool_decide_eq_true_2. }
  destruct (List.filter Spec.is_not_found fs) as [| g gs] eqn:E; [destruct Hf |].
  eexists. split; [reflexivity |]. split.
  - rewrite strip_prefix_app. discriminate.
  - destruct (join_includes ", " (path f) (map path (g :: gs))) as (a & b & Hj).
    { apply in_map, Hf. }
    rewrite Hj, <- (string_app_assoc "Files not found: " a). apply includes_app.
Qed.

Lemma other_errors_warning_lists (fs : list FileContent) (f : FileContent)
    (e : string) :
  In f fs -> error f = Some e -> e <> "" -> e <> "File not found" ->
  exists w, Spec.other_errors_warning fs = [w]
            /\ Js.strip_prefix "Errors fetching files: " w <> None
            /\ Js.includes (path f +:+ ": " +:+ e) w = true.
Proof.
  intros Hin Herr Hne Hnf. unfold Spec.other_errors_warning.
  assert (Hf : In f (List.filter Spec.is_other_error fs)).
  { apply filter_In. split; [exact Hin |].
    unfold Spec.is_other_error. rewrite Herr.
    apply andb_true_intro. split; apply negb_true_iff, String.eqb_neq; assumption. }
  destruct (List.filter Spec.is_other_error fs) as [| g gs] eqn:E; [destruct Hf |].
  eexists. split; [reflexivity |]. split.
  - rewrite strip_prefix_app. discriminate.
  - destruct (join_includes "; " (path f +:+ ": " +:+ e)
                (map (fun f => path f +:+ ": " +:+ default "" (error f)) (g :: gs)))
      as (a & b & Hj).
    { apply (in_map (fun f => path f +:+ ": " +:+ default "" (error f))) in Hf.
      rewrite Herr in Hf. exact Hf. }
    rewrite Hj, <- (string_app_assoc "Errors fetching files: " a).
    apply includes_app.
Qed.

(** The key-files envelope.  With a URL that parses, the key-files tool returns an error
    envelope exactly when the default branch does not resolve (the branch
    lookup rejects, answers outside 2xx, has a body that does not parse, or
    names an empty branch), and that envelope is [UPSTREAM_ERROR].
    Otherwise it returns [ok: true] with one entry per requested path, in
    order; its warnings are at most one that lists every file not found,
    followed by at most one that lists every other per-file error that
    has a text.  On the upstream of the specification's example the
    result has four entries, one with content, three with the error
    [File not found], and the warning names the three missing paths. *)
Theorem key_files_envelope (net : upstream) (repoUrl : string)
    (paths : option (list string)) (info : ParsedRepoInfo) :
  parseRepoUrl new_URL repoUrl = Some info ->
  let o := pr_owner info in
  let r := pr_repo info in
  let branch := fst (run net (getDefaultBranch o r)) in
  let result := fst (run net (extractKeyFiles new_URL now repoUrl paths)) in
  (Js.truthy branch = false <->
     match net SBranch (repo_api_url o r) with
     | Throw _ => True
     | Ok response =>
         ok response = false \/ (exists e, body response = Throw e)
         \/ body response = Ok (Some "")
     end)
  /\ (ok_flag result = false <-> Js.truthy branch = false)
  /\ (ok_flag result = false -> error_code result = Some UPSTREAM_ERROR)
  /\ (forall b, branch = Some b -> b <> "" ->
      exists data meta,
        result = SuccessResponse data meta
        /\ files data =
             map (fun p => fst (run net (fetchRawFile o r b p)))
               (Spec.requested_paths paths)
        /\ map path (files data) = Spec.requested_paths paths
        /\ warnings meta =
             (Spec.not_found_warning (files data)
              ++ Spec.other_errors_warning (files data))%list
        /\ (length (Spec.not_found_warning (files data)) <= 1)%nat
        /\ (length (Spec.other_errors_warning (files data)) <= 1)%nat
        /\ (forall f, In f (files data) -> error f = Some "File not found" ->
            exists w, Spec.not_found_warning (files data) = [w]
                      /\ Js.strip_prefix "Files not found: " w <> None
                      /\ Js.includes (path f) w = true)
        /\ (forall f e, In f (files data) -> error f = Some e ->
            e <> "" -> e <> "File not found" ->
            exists w, Spec.other_errors_warning (files data) = [w]
                      /\ Js.strip_prefix "Errors fetching files: " w <> None
                      /\ Js.includes (path f +:+ ": " +:+ e) w = true))
  /\ (net = Examples.key_files_upstream ->
      info = {| pr_owner := "owner"; pr_repo := "test-repo" |} ->
      paths = None ->
      exists data meta,
        result = SuccessResponse data meta
        /\ length (files data) = 4%nat
        /\ map content (files data)
           = [Some ("# Test Repo" +:+ Examples.newline +:+ "Description here");
              None; None; None]
        /\ map error (files data)
           = [None; Some "File not found"; Some "File not found";
              Some "File not found"]
        /\ warnings meta
           = ["Files not found: LICENSE, package.json, pyproject.toml"]).
Proof.
  intros Hparse o r branch result.
  assert (Hres : result =
                 fst (if Js.truthy branch then _ else _))
    by (unfold result; rewrite (run_extractKeyFiles net repoUrl paths info Hparse);
        reflexivity).
  clearbody result.
  change (fst (run net (getDefaultBranch (pr_owner info) (pr_repo info))))
    with branch in Hres.
  fold o r in Hres.
  split; [| split; [| split; [| split]]].
  - clear Hres. subst branch. unfold getDefaultBranch.
    cbn [run fst mbind io_bind bind rateLimitedFetch].
    destruct (net SBranch (repo_api_url o r)) as [resp | e]; [| tauto].
    unfold body_of in *. unfold negb. destruct (ok resp) eqn:Hok.
    + destruct (body resp) as [[[| c s] |] | e] eqn:Hb; cbn.
      * split; [intros _; right; right; congruence | reflexivity].
      * split; [discriminate | intros [H | [[e H] | H]]; congruence].
      * split; [discriminate | intros [H | [[e H] | H]]; congruence].
      * split; [intros _; right; left; eauto | reflexivity].
    + cbn. split; [intros _; left; congruence | reflexivity].
  - rewrite Hres. destruct (Js.truthy branch); cbn; split; congruence.
  - rewrite Hres. destruct (Js.truthy branch); cbn; congruence.
  - intros b Hb Hne. rewrite Hres, Hb.
    replace (Js.truthy (Some b)) with true
      by (destruct b; [contradiction | reflexivity]).
    cbn [fst default]. eexists _, _. split; [reflexivity |].
    cbn [files warnings].
    set (fs := map _ (Spec.requested_paths paths)).
    split; [reflexivity |]. split; [apply fetched_paths |].
    split; [reflexivity |].
    split; [unfold Spec.not_found_warning; destruct (List.filter _ fs); cbn; lia |].
    split; [unfold Spec.other_errors_warning; destruct (List.filter _ fs); cbn; lia |].
    split.
    + intros f. apply not_found_warning_lists.
    + intros f e. apply other_errors_warning_lists.
  - intros Hnet Hinfo Hpaths. rewrite Hres. subst branch o r.
    rewrite Hnet, Hinfo, Hpaths.
    eexists _, _. split; [vm_compute; reflexivity |].
    vm_compute. repeat split.
Qed.

(** *** 403 responses *)

Lemma forbidden_ok {T B} (response : Response B) :
  Spec.forbidden_classified now response
    (forbidden now requestTimeoutMs response : ApiResponse T).
Proof.
  unfold Spec.forbidden_classified, forbidden.
  destruct (decide (headers_get response "x-ratelimit-remaining" = Some "0"))
    as [Hrem | Hrem]; [| split; reflexivity].
  split.
  - intros ->. reflexivity.
  - intros s -> Hne Hdig Hmax.
    replace (Js.truthy (Some s)) with true
      by (destruct s; [contradiction | reflexivity]).
    rewrite (parseInt_decimal s 0 (or_introl eq_refl) Hne Hdig). cbn [Js.times new_Date_toISOString].
    pose proof (decimal_nonneg s Hdig) as Hpos.
    destruct (DateFacts.toISOString_round_trip (Spec.decimal s * 1000))
      as (iso & Hiso & Hback); [unfold JsDate.maxTime in *; lia |].
    rewrite Hiso. exists iso. split; [reflexivity |].
    split; [unfold JsDate.is_iso8601; rewrite Hback; reflexivity | exact Hback].
Qed.

Lemma forbidden_unreadable {T B} (response : Response B) (s : string) :
  headers_get response "x-ratelimit-remaining" = Some "0" ->
  headers_get response "x-ratelimit-reset" = Some s ->
  Spec.reset_unreadable s ->
  (forbidden now requestTimeoutMs response : ApiResponse T) =
  ErrorResponse
    {| code := INTERNAL_ERROR; message := "Invalid time value";
       details := [("error_name", DStr "RangeError")] |} now.
Proof.
  intros Hrem Hreset [Hne Hbad]. unfold forbidden. rewrite Hrem, Hreset.
  destruct (decide (Some "0" = Some "0")) as [_ | Hn]; [| contradiction].
  replace (Js.truthy (Some s)) with true
    by (destruct s; [contradiction | reflexivity]).
  destruct Hbad as [-> | (n & -> & Hrange)]; cbn [Js.times new_Date_toISOString].
  - reflexivity.
  - unfold JsDate.toISOString.
    replace ((n * 1000 <? - JsDate.maxTime) || (JsDate.maxTime <? n * 1000))
      with true; [reflexivity |].
    symmetry. apply orb_true_iff.
    destruct Hrange; [left | right]; apply Z.ltb_lt; assumption.
Qed.

(** C4.  What the overview and the release-notes tools answer to a 403.
    With [x-ratelimit-remaining] equal to [0] the envelope is
    [RATE_LIMITED] when there is no [x-ratelimit-reset] header, with
    [reset_at] null, and when that header holds epoch seconds (decimal
    digits, within the range of [Date]), with [reset_at] a valid ISO-8601
    timestamp that denotes that time.  But when the reset header holds
    something [parseInt] reads no number from, or a number beyond the
    range of [Date], [toISOString] throws and the envelope is
    [INTERNAL_ERROR] with the message [Invalid time value], not
    [RATE_LIMITED].  Every other 403 answer yields an [UPSTREAM_ERROR]
    envelope. *)
Theorem forbidden_reset_header_outcomes (net : upstream) (repoUrl : string)
    (limit : option Js.double) (info : ParsedRepoInfo) :
  parseRepoUrl new_URL repoUrl = Some info ->
  let apiUrl := repo_api_url (pr_owner info) (pr_repo info) in
  let invalid_time {T} : ApiResponse T :=
    ErrorResponse
      {| code := INTERNAL_ERROR; message := "Invalid time value";
         details := [("error_name", DStr "RangeError")] |} now in
  (forall response,
     net SRepo apiUrl = Ok response -> status response = 403 ->
     let r := fst (run net (repoOverview new_URL now requestTimeoutMs repoUrl)) in
     Spec.forbidden_classified now response r
     /\ (forall s,
           headers_get response "x-ratelimit-remaining" = Some "0" ->
           headers_get response "x-ratelimit-reset" = Some s ->
           Spec.reset_unreadable s ->
           r = invalid_time))
  /\ (forall response,
        Spec.limit_accepted (default (Js.Whole 5) limit) ->
        net SReleases
          (apiUrl +:+ "/releases?per_page="
             +:+ Js.double_to_string (default (Js.Whole 5) limit))
          = Ok response ->
        status response = 403 ->
        let r := fst (run net (releaseNotes new_URL now requestTimeoutMs repoUrl
                                 limit)) in
        Spec.forbidden_classified now response r
        /\ (forall s,
              headers_get response "x-ratelimit-remaining" = Some "0" ->
              headers_get response "x-ratelimit-reset" = Some s ->
              Spec.reset_unreadable s ->
              r = invalid_time)).
Proof.
  intros Hparse apiUrl invalid_time. split.
  - intros response Hnet Hst r.
    assert (Hr : r = forbidden now requestTimeoutMs response).
    { unfold r, repoOverview. rewrite Hparse.
      cbn [run fst mbind io_bind bind rateLimitedFetch]. fold apiUrl.
      rewrite Hnet. unfold body_of in *. rewrite Hst. reflexivity. }
    rewrite Hr. split; [apply forbidden_ok |].
    intros s. apply forbidden_unreadable.
  - intros response Hlim Hnet Hst r.
    assert (Hr : r = forbidden now requestTimeoutMs response).
    { unfold r, releaseNotes. rewrite Hparse.
      replace (Js.less_than (default (Js.Whole 5) limit) 1
               || Js.greater_than (default (Js.Whole 5) limit) 100) with false
        by (symmetry; apply orb_false_intro; apply Hlim).
      cbn [run fst mbind io_bind bind rateLimitedFetch]. fold apiUrl.
      rewrite Hnet. unfold body_of in *. rewrite Hst. reflexivity. }
    rewrite Hr. split; [apply forbidden_ok |].
    intros s. apply forbidden_unreadable.
Qed.

(** *** The repository-URL parser *)

Lemma parseRepoUrl_unfold (url : string) :
  parseRepoUrl new_URL url =
  match new_URL url with
  | None => None
  | Some u =>
      if negb (String.eqb (hostname u) "github.com")
         && negb (String.eqb (hostname u) "www.github.com")
      then None
      else
        match Spec.path_segments (pathname u) with
        | o :: r :: _ => Some {| pr_owner := o; pr_repo := Js.replace_git_suffix r |}
        | _ => None
        end
  end.
Proof using new_URL.
  unfold parseRepoUrl. destruct (new_URL url) as [u |]; [| reflexivity].
  rewrite filter_split_is_segments.
  destruct (negb _ && negb _); [reflexivity |].
  destruct (Spec.path_segments (pathname u)) as [| o [| r rest]];
    [reflexivity | reflexivity |].
  replace (Z.of_nat (length (o :: r :: rest)) <? 2) with false
    by (symmetry; apply Z.ltb_ge; cbn [length]; lia).
  reflexivity.
Qed.

(** C7.  [parseRepoUrl] returns a reference exactly when the string parses
    as a URL whose host is [github.com] or [www.github.com] and whose path
    has at least two non-empty segments; the owner is the first segment,
    the repository the second without a trailing [.git], and further
    segments are ignored.  In every other case it returns none.  With
    [new URL] reading the three URLs of the specification as the URL
    standard has it, [https://github.com/a/b.git] and
    [https://github.com/a/b] both give owner [a] and repository [b], and
    [https://github.com/a] gives none. *)
Theorem parseRepoUrl_spec (url : string) :
  (forall info,
     parseRepoUrl new_URL url = Some info <->
     exists u o r rest,
       new_URL url = Some u
       /\ (hostname u = "github.com" \/ hostname u = "www.github.com")
       /\ Spec.path_segments (pathname u) = o :: r :: rest
       /\ pr_owner info = o
       /\ Spec.without_dot_git r (pr_repo info))
  /\ (parseRepoUrl new_URL url = None <->
      ~ exists u o r rest,
          new_URL url = Some u
          /\ (hostname u = "github.com" \/ hostname u = "www.github.com")
          /\ Spec.path_segments (pathname u) = o :: r :: rest)
  /\ (new_URL "https://github.com/a/b.git"
        = Some {| hostname := "github.com"; pathname := "/a/b.git" |} ->
      new_URL "https://github.com/a/b"
        = Some {| hostname := "github.com"; pathname := "/a/b" |} ->
      new_URL "https://github.com/a"
        = Some {| hostname := "github.com"; pathname := "/a" |} ->
      parseRepoUrl new_URL "https://github.com/a/b.git"
        = Some {| pr_owner := "a"; pr_repo := "b" |}
      /\ parseRepoUrl new_URL "https://github.com/a/b"
         = Some {| pr_owner := "a"; pr_repo := "b" |}
      /\ parseRepoUrl new_URL "https://github.com/a" = None).
Proof using new_URL.
  split; [| split].
  - intros info. rewrite parseRepoUrl_unfold. split.
    + destruct (new_URL url) as [u |]; [| discriminate].
      destruct (negb _ && negb _) eqn:Eh; [discriminate |].
      apply github_host in Eh.
      destruct (Spec.path_segments (pathname u)) as [| o [| r rest]] eqn:Ep;
        try discriminate.
      intros [= <-]. exists u, o, r, rest.
      repeat split; try assumption. apply replace_git_suffix_spec.
    + intros (u & o & r & rest & -> & Hh & -> & Ho & Hr).
      apply github_host in Hh. rewrite Hh.
      destruct info as [io ir]. cbn [pr_owner pr_repo] in Ho, Hr. subst io.
      f_equal. f_equal.
      exact (without_dot_git_unique r _ _ (replace_git_suffix_spec r) Hr).
  - rewrite parseRepoUrl_unfold. split.
    + intros H (u & o & r & rest & Hu & Hh & Hp).
      rewrite Hu, Hp in H. apply github_host in Hh. rewrite Hh in H. discriminate.
    + intros H. destruct (new_URL url) as [u |]; [| reflexivity].
      destruct (negb _ && negb _) eqn:Eh; [reflexivity |].
      apply github_host in Eh.
      destruct (Spec.path_segments (pathname u)) as [| o [| r rest]] eqn:Ep;
        try reflexivity.
      exfalso. apply H. exists u, o, r, rest. auto.
  - intros H1 H2 H3. unfold parseRepoUrl. rewrite H1, H2, H3.
    repeat split.
Qed.

(** *** Counts and cursors read from the [Link] header *)

Lemma count_of_response_read {E} (response : Response (list E)) :
  Spec.count_read response (count_of_response response).
Proof.
  unfold Spec.count_read, count_of_response. split; [| split].
  - intros ->. reflexivity.
  - intros Hok pre ds post -> _ Hinc Hne Hd _. rewrite Hok. cbn [negb].
    replace (Js.truthy (Some _)) with true.
    + rewrite (search_page_rel_found "last" pre ds post free_of_last Hinc Hne Hd).
      rewrite (parseInt_decimal ds 10 (or_intror eq_refl) Hne Hd). reflexivity.
    + destruct pre; [destruct ds; [contradiction |] |]; reflexivity.
  - intros Hok data [-> | (h & -> & Hinc)] ->; rewrite Hok; cbn [negb];
      [reflexivity |].
    rewrite (search_page_rel_none "last" h Hinc).
    destruct (Js.truthy (Some h)); reflexivity.
Qed.

(** C1 (as amended).  In the activity snapshot, for every answer to the
    open-PR-count or to the contributor-count fetch: an answer outside
    2xx yields no count, whatever its [Link] header; for a 2xx answer, if
    the [Link] header reads [...page=N>; rel="last"...], the page
    parameter closing the URL of its first [rel="last"] link, the count is
    [N] (for [N] up to 2^53), and if there is no [Link] header, or none
    with a [rel="last"] link, the count is the length of the returned
    array. *)
Theorem link_last_page_is_count (net : upstream) (o r : string) :
  (forall response,
     net SPulls (repo_api_url o r +:+ "/pulls?state=open&per_page=1") = Ok response ->
     Spec.count_read response (fst (run net (fetchOpenPRsCount o r))))
  /\ (forall response,
        net SContributors (repo_api_url o r +:+ "/contributors?per_page=1&anon=true")
          = Ok response ->
        Spec.count_read response (fst (run net (fetchContributorsCount o r)))).
Proof.
  split; intros response Hnet.
  - unfold fetchOpenPRsCount. cbn [run fst mbind io_bind bind rateLimitedFetch].
    rewrite Hnet. apply count_of_response_read.
  - unfold fetchContributorsCount. cbn [run fst mbind io_bind bind rateLimitedFetch].
    rewrite Hnet. apply count_of_response_read.
Qed.

Lemma next_cursor_of_read {B} (response : Response B) :
  Spec.cursor_read response (next_cursor_of (headers_get response "link")).
Proof.
  unfold Spec.cursor_read, next_cursor_of. split.
  - intros pre ds post -> _ Hinc Hne Hd.
    replace (Js.truthy (Some _)) with true
      by (destruct pre; [destruct ds; [contradiction |] |]; reflexivity).
    replace (Js.includes _ _) with true.
    + apply (search_page_rel_found "next" pre ds post free_of_next Hinc Hne Hd).
    + symmetry.
      replace (pre +:+ "page=" +:+ ds +:+ ">; rel=" +:+ Js.quoted "next" +:+ post)
        with ((pre +:+ "page=" +:+ ds +:+ ">; ") +:+ ("rel=" +:+ Js.quoted "next")
              +:+ post)
        by (rewrite !string_app_assoc; reflexivity).
      apply includes_app.
  - intros [-> | (h & -> & Hinc)]; [reflexivity |].
    rewrite Hinc, andb_false_r. reflexivity.
Qed.

(** Where the cursor is read as asked.  In the release-notes tool, for a
    2xx answer whose body parses: the call succeeds, and if the [Link]
    header reads
    [...page=N>; rel="next"...], the page parameter closing the URL of its
    first [rel="next"] link, [meta.pagination.next_cursor] is the digits of
    [N] as a string; if there is no [Link] header, or none with a
    [rel="next"] link, [next_cursor] is null. *)
Theorem next_cursor_from_link (net : upstream) (repoUrl : string)
    (limit : option Js.double) (info : ParsedRepoInfo)
    (response : Response (body_of SReleases)) (data : list ReleaseData) :
  parseRepoUrl new_URL repoUrl = Some info ->
  Spec.limit_accepted (default (Js.Whole 5) limit) ->
  net SReleases
    (repo_api_url (pr_owner info) (pr_repo info) +:+ "/releases?per_page="
       +:+ Js.double_to_string (default (Js.Whole 5) limit)) = Ok response ->
  ok response = true ->
  body response = Ok data ->
  exists d meta,
    fst (run net (releaseNotes new_URL now requestTimeoutMs repoUrl limit)) = SuccessResponse d meta
    /\ Spec.cursor_read response (next_cursor meta).
Proof.
  intros Hparse Hlim Hnet Hok Hbody.
  unfold releaseNotes. rewrite Hparse.
  replace (Js.less_than (default (Js.Whole 5) limit) 1
             || Js.greater_than (default (Js.Whole 5) limit) 100) with false
    by (symmetry; apply orb_false_intro; apply Hlim).
  cbn [run fst mbind io_bind bind rateLimitedFetch].
  rewrite Hnet. unfold body_of in *.
  pose proof Hok as Hrange. unfold ok in Hrange.
  apply andb_prop in Hrange as [H200 H299]. apply Z.leb_le in H200, H299.
  replace (status response =? 404) with false by (symmetry; apply Z.eqb_neq; lia).
  replace (status response =? 403) with false by (symmetry; apply Z.eqb_neq; lia).
  rewrite Hok, Hbody. cbn [negb]. unfold createSuccessResponse.
  eexists _, _. split; [reflexivity |]. cbn [next_cursor opt_next_cursor].
  apply next_cursor_of_read.
Qed.

End ToolTheorems.

(** ** The theorems at concrete inputs *)

Lemma rejected_url_is_invalid_input_without_call_witness :
  parseRepoUrl Examples.plain_URL "https://gitlab.com/owner/repo" = None
  /\ fails_without_call INVALID_INPUT
       (repoOverview Examples.plain_URL Examples.now 30000
          "https://gitlab.com/owner/repo")
  /\ fails_without_call INVALID_INPUT
       (activitySnapshot Examples.plain_URL Examples.now 30000
          "https://gitlab.com/owner/repo").
Proof.
  split; [reflexivity |].
  destruct (rejected_url_is_invalid_input_without_call Examples.plain_URL
              Examples.now 30000 "https://gitlab.com/owner/repo" None None eq_refl)
    as (H1 & _ & _ & H4).
  exact (conj H1 H4).
Defined.

Lemma empty_paths_is_default_witness :
  extractKeyFiles Examples.plain_URL Examples.now Examples.repo_url (Some [])
  = extractKeyFiles Examples.plain_URL Examples.now Examples.repo_url None
  /\ snd (run Examples.key_files_upstream
            (extractKeyFiles Examples.plain_URL Examples.now Examples.repo_url
               (Some ["README.md"; "Cargo.toml"])))
     = ["https://api.github.com/repos/owner/test-repo";
        "https://raw.githubusercontent.com/owner/test-repo/main/README.md";
        "https://raw.githubusercontent.com/owner/test-repo/main/Cargo.toml"].
Proof.
  destruct (empty_paths_is_default Examples.plain_URL Examples.now
              Examples.key_files_upstream Examples.repo_url Examples.test_repo
              "main" "README.md" ["Cargo.toml"] eq_refl eq_refl)
    as (H1 & _ & H3 & _); [discriminate |].
  exact (conj H1 H3).
Defined.

Lemma activity_soft_failures_witness :
  parseRepoUrl Examples.plain_URL Examples.repo_url = Some Examples.test_repo
  /\ Spec.succeeded
       (Examples.authorless_commit_upstream SRepo
          "https://api.github.com/repos/owner/test-repo")
       Examples.repo_payload
  /\ (ok_flag
        (fst (run Examples.authorless_commit_upstream
                (activitySnapshot Examples.plain_URL Examples.now 30000
                   Examples.repo_url))) = false
      /\ error_code
           (fst (run Examples.authorless_commit_upstream
                   (activitySnapshot Examples.plain_URL Examples.now 30000
                      Examples.repo_url))) = Some INTERNAL_ERROR)
  /\ Spec.first_commit_readable
       (Examples.soft_failure_upstream SCommits
          "https://api.github.com/repos/owner/test-repo/commits?per_page=1")
  /\ exists data meta,
       fst (run Examples.soft_failure_upstream
              (activitySnapshot Examples.plain_URL Examples.now 30000
                 Examples.repo_url))
       = SuccessResponse data meta
       /\ last_commit_date data = None
       /\ last_commit_message data = None
       /\ open_prs_count data = Js.Int 0
       /\ contributors_count data = Js.Int 1
       /\ warnings meta
          = ["Could not fetch open PRs count";
             "Could not fetch latest commit information"].
Proof.
  assert (Ha : Spec.succeeded
                 (Examples.authorless_commit_upstream SRepo
                    "https://api.github.com/repos/owner/test-repo")
                 Examples.repo_payload)
    by (eexists; split; [reflexivity | split; reflexivity]).
  assert (Hs : Spec.succeeded
                 (Examples.soft_failure_upstream SRepo
                    "https://api.github.com/repos/owner/test-repo")
                 Examples.repo_payload)
    by (eexists; split; [reflexivity | split; reflexivity]).
  assert (Hc : Spec.first_commit_readable
                 (Examples.soft_failure_upstream SCommits
                    "https://api.github.com/repos/owner/test-repo/commits?per_page=1")).
  { intros c rest (response & Hr & Hok & _).
    injection Hr as <-. discriminate Hok. }
  split; [reflexivity |]. split; [exact Ha |]. split; [| split; [exact Hc |]].
  - destruct (activity_soft_failures Examples.plain_URL Examples.now 30000
                Examples.authorless_commit_upstream Examples.repo_url
                Examples.test_repo eq_refl)
      as (_ & _ & _ & _ & _ & _ & _ & H & _).
    apply (H Examples.repo_payload Examples.authorless_commit [] Ha).
    + eexists. split; [reflexivity | split; reflexivity].
    + intros (detail & a & Hd & Hau). injection Hd as <-. discriminate Hau.
  - destruct (activity_soft_failures Examples.plain_URL Examples.now 30000
                Examples.soft_failure_upstream Examples.repo_url Examples.test_repo
                eq_refl)
      as (_ & _ & _ & _ & _ & _ & _ & _ & H).
    destruct (H Examples.repo_payload Hs Hc)
      as (data & meta & Hr & _ & Hnone & _ & Hp & Hct & _ & _ & Hw & _).
    destruct (Hnone eq_refl) as [Hd Hm].
    exists data, meta. split; [exact Hr |]. split; [exact Hd |].
    split; [exact Hm |]. split; [exact Hp |]. split; [exact Hct |]. exact Hw.
Defined.

Lemma key_files_envelope_witness :
  parseRepoUrl Examples.plain_URL Examples.repo_url = Some Examples.test_repo
  /\ exists data meta,
       fst (run Examples.key_files_upstream
              (extractKeyFiles Examples.plain_URL Examples.now Examples.repo_url None))
       = SuccessResponse data meta
       /\ length (files data) = 4%nat
       /\ warnings meta = ["Files not found: LICENSE, package.json, pyproject.toml"].
Proof.
  split; [reflexivity |].
  destruct (key_files_envelope Examples.plain_URL Examples.now
              Examples.key_files_upstream Examples.repo_url None Examples.test_repo
              eq_refl)
    as (_ & _ & _ & _ & H).
  destruct (H eq_refl eq_refl eq_refl) as (data & meta & Hr & Hn & _ & _ & Hw).
  exists data, meta. auto.
Defined.

Lemma forbidden_reset_header_outcomes_witness :
  parseRepoUrl Examples.plain_URL Examples.repo_url = Some Examples.test_repo
  /\ Spec.reset_unreadable "soon"
  /\ fst (run (Examples.status_upstream 403 "Forbidden"
                 Examples.unreadable_reset_headers)
            (repoOverview Examples.plain_URL Examples.now 30000 Examples.repo_url))
     = ErrorResponse
         {| code := INTERNAL_ERROR; message := "Invalid time value";
            details := [("error_name", DStr "RangeError")] |} Examples.now
  /\ fst (run (Examples.status_upstream 403 "Forbidden"
                 Examples.unreadable_reset_headers)
            (releaseNotes Examples.plain_URL Examples.now 30000 Examples.repo_url
               None))
     = ErrorResponse
         {| code := INTERNAL_ERROR; message := "Invalid time value";
            details := [("error_name", DStr "RangeError")] |} Examples.now
  /\ exists iso,
       fst (run (Examples.status_upstream 403 "Forbidden" Examples.rate_limit_headers)
              (repoOverview Examples.plain_URL Examples.now 30000 Examples.repo_url))
       = ErrorResponse
           {| code := RATE_LIMITED; message := "GitHub API rate limit exceeded";
              details := [("reset_at", DStr iso)] |} Examples.now
       /\ JsDate.time_of_iso iso = Some 1700000000000.
Proof.
  assert (Hun : Spec.reset_unreadable "soon")
    by (split; [discriminate | left; reflexivity]).
  split; [reflexivity |]. split; [exact Hun |].
  destruct (forbidden_reset_header_outcomes Examples.plain_URL Examples.now 30000
              (Examples.status_upstream 403 "Forbidden"
                 Examples.unreadable_reset_headers)
              Examples.repo_url None Examples.test_repo eq_refl)
    as [H1 H2].
  split; [| split].
  - destruct (H1 _ eq_refl eq_refl) as [_ H].
    exact (H "soon" eq_refl eq_refl Hun).
  - destruct (H2 _ (conj eq_refl eq_refl) eq_refl eq_refl) as [_ H].
    exact (H "soon" eq_refl eq_refl Hun).
  - destruct (forbidden_reset_header_outcomes Examples.plain_URL Examples.now 30000
                (Examples.status_upstream 403 "Forbidden" Examples.rate_limit_headers)
                Examples.repo_url None Examples.test_repo eq_refl)
      as [H _].
    destruct (H {| status := 403; statusText := "Forbidden";
                   headers := Examples.rate_limit_headers;
                   body := Throw Examples.unparsed |} eq_refl eq_refl) as [Hc _].
    unfold Spec.forbidden_classified in Hc.
    destruct (decide _) as [_ | Hn] in Hc; [| exfalso; apply Hn; reflexivity].
    destruct Hc as [_ Hc].
    destruct (Hc "1700000000" eq_refl) as (iso & Hr & _ & Ht);
      [discriminate | reflexivity | vm_compute; discriminate |].
    exists iso. split; [exact Hr | exact Ht].
Defined.

Lemma parseRepoUrl_spec_witness :
  parseRepoUrl Examples.plain_URL "https://github.com/a/b.git"
  = Some {| pr_owner := "a"; pr_repo := "b" |}
  /\ parseRepoUrl Examples.plain_URL "https://github.com/a/b"
     = Some {| pr_owner := "a"; pr_repo := "b" |}
  /\ parseRepoUrl Examples.plain_URL "https://github.com/a" = None.
Proof.
  destruct (parseRepoUrl_spec Examples.plain_URL "https://github.com/a/b.git")
    as (_ & _ & H).
  exact (H eq_refl eq_refl eq_refl).
Defined.

Lemma link_last_page_is_count_witness :
  fst (run (Examples.linked_upstream Examples.pulls_link_3
              Examples.contributors_link_25 "")
         (fetchOpenPRsCount "owner" "repo")) = Some (Js.Int 3)
  /\ fst (run (Examples.linked_upstream Examples.pulls_link_3
                 Examples.contributors_link_25 "")
            (fetchContributorsCount "owner" "repo")) = Some (Js.Int 25)
  /\ fst (run Examples.failed_counts_upstream (fetchOpenPRsCount "owner" "repo"))
     = None.
Proof.
  destruct (link_last_page_is_count
              (Examples.linked_upstream Examples.pulls_link_3
                 Examples.contributors_link_25 "") "owner" "repo") as [Hp Hc].
  split; [| split].
  - destruct (Hp _ eq_refl) as (_ & H & _).
    apply (H eq_refl "<https://api.github.com/repos/owner/repo/pulls?" "3" "");
      [reflexivity | exists "<https://api.github.com/repos/owner/repo/pulls";
                     left; reflexivity
       | reflexivity | discriminate | reflexivity | vm_compute; discriminate].
  - destruct (Hc _ eq_refl) as (_ & H & _).
    apply (H eq_refl "<https://api.github.com/repos/owner/repo/contributors?" "25" "");
      [reflexivity | exists "<https://api.github.com/repos/owner/repo/contributors";
                     left; reflexivity
       | reflexivity | discriminate | reflexivity | vm_compute; discriminate].
  - destruct (link_last_page_is_count Examples.failed_counts_upstream
                "owner" "repo") as [H _].
    destruct (H _ eq_refl) as (Hfailed & _).
    exact (Hfailed eq_refl).
Defined.

Lemma next_cursor_from_link_witness :
  exists d meta,
    fst (run (Examples.linked_upstream "" "" Examples.releases_link_page_last)
           (releaseNotes Examples.plain_URL Examples.now 30000 Examples.repo_url None))
    = SuccessResponse d meta
    /\ next_cursor meta = Some "2".
Proof.
  destruct (next_cursor_from_link Examples.plain_URL Examples.now 30000
              (Examples.linked_upstream "" "" Examples.releases_link_page_last)
              Examples.repo_url None Examples.test_repo _ [Examples.release_payload]
              eq_refl (conj eq_refl eq_refl) eq_refl eq_refl eq_refl)
    as (d & meta & Hr & Hc & _).
  exists d, meta. split; [exact Hr |].
  apply (Hc "<https://api.github.com/repositories/1/releases?per_page=5&" "2"
           (", " +:+ Examples.link_of
                       "https://api.github.com/repositories/1/releases?per_page=5&page=4"
                       "last"));
    [reflexivity | exists "<https://api.github.com/repositories/1/releases?per_page=5";
                   right; reflexivity
     | reflexivity | discriminate | reflexivity].
Defined.

Lemma concurrent_calls_dispatched_together_witness :
  RateLimiter.dispatch_times
    (RateLimiter.run_events 100 RateLimiter.concurrent_calls (RateLimiter.init 1000))
  = [1000; 1100; 1100; 1100]
  /\ ~ RateLimiter.spaced 100
         (RateLimiter.dispatch_times
            (RateLimiter.run_events 100 RateLimiter.concurrent_calls
               (RateLimiter.init 1000))).
Proof.
  apply (RateLimiterFacts.concurrent_calls_dispatched_together 100 1000); lia.
Defined.

(** ** Where the claims of the specification fail as stated *)

(** C1 as stated fails.  An answer outside 2xx to the open-PR-count fetch
    whose [Link] header marks page 3 as the last gives no count: the
    snapshot reports 0 open pull requests, not 3, with the warning that
    the count could not be fetched. *)
Lemma link_last_page_count_fails :
  Spec.link_page "last" Examples.pulls_link_3 = Some "3"
  /\ fst (run Examples.failed_counts_upstream (fetchOpenPRsCount "owner" "test-repo"))
     = None
  /\ exists data meta,
       fst (run Examples.failed_counts_upstream
              (activitySnapshot Examples.plain_URL Examples.now 30000
                 Examples.repo_url))
       = SuccessResponse data meta
       /\ open_prs_count data = Js.Int 0
       /\ open_prs_count data <> Js.Int 3
       /\ In "Could not fetch open PRs count" (warnings meta).
Proof.
  split; [reflexivity |]. split; [reflexivity |].
  eexists _, _. split; [vm_compute; reflexivity |].
  split; [reflexivity |]. split; [discriminate |]. left. reflexivity.
Qed.

(** C3 as stated fails.  A 500 answer gives the error
    [HTTP 500: Internal Server Error], not [500: Internal Server Error];
    and the size of a body is its length in code units, which for [é] is
    1 where the UTF-8 encoding takes 2 bytes. *)
Lemma fetchRawFile_claim_fails :
  let f := fst (run (Examples.status_upstream 500 "Internal Server Error" ∅)
                  (fetchRawFile "owner" "test-repo" "main" "README.md")) in
  let g := fst (run (Examples.text_upstream Examples.e_acute)
                  (fetchRawFile "owner" "test-repo" "main" "README.md")) in
  error f = Some "HTTP 500: Internal Server Error"
  /\ error f <> Some (Js.string_of_Z 500 +:+ ": " +:+ "Internal Server Error")
  /\ content g = Some Examples.e_acute
  /\ size g = Some 1
  /\ size g <> Some (Spec.utf8_byte_length Examples.e_acute).
Proof. vm_compute. repeat split; discriminate. Qed.

(** ** Where the code misses what it sets out to do *)

(** C8.  The cursor is read with a pattern that takes whatever parameter
    closes the URL of the [rel="next"] link and whose name ends in
    [page=].  For a 2xx answer whose [rel="next"] link marks page 2 with
    [page] before [per_page], the order of GitHub's pagination guide, the
    call succeeds with the cursor [5], the page size, where the next page
    is 2. *)
Lemma next_cursor_takes_per_page :
  Spec.link_page "next" Examples.releases_link_page_first = Some "2"
  /\ exists d meta,
       fst (run (Examples.linked_upstream "" "" Examples.releases_link_page_first)
              (releaseNotes Examples.plain_URL Examples.now 30000
                 Examples.repo_url None))
       = SuccessResponse d meta
       /\ next_cursor meta = Some "5"
       /\ next_cursor meta <> Some "2".
Proof.
  split; [reflexivity |]. eexists _, _. split; [vm_compute; reflexivity |].
  split; [reflexivity | discriminate].
Qed.


(** C6.  The second warning is built from the entries whose error is
    truthy and is not [File not found].  A file whose fetch throws an
    [Error] with an empty message has its error set, to the empty string,
    and no content: the call succeeds, the entry is there, and no warning
    names the file. *)
Lemma key_files_unlisted_error :
  exists data meta,
    fst (run (fun s url =>
                match s return result (Response (body_of s)) with
                | SBranch => Examples.respond 200 "OK" ∅ (Ok (Some "main"))
                | _ => Throw (ThrownError "Error" "")
                end)
           (extractKeyFiles Examples.plain_URL Examples.now Examples.repo_url
              (Some ["README.md"])))
    = SuccessResponse data meta
    /\ map content (files data) = [None]
    /\ map error (files data) = [Some ""]
    /\ warnings meta = [].
Proof.
  eexists _, _. split; [vm_compute; reflexivity |]. repeat split.
Qed.

(** ** The tests of the repository, replayed

    The mocked upstreams of [tests/e2e/server.test.ts] and the outcomes
    the tests expect. *)

Example test_activity_snapshot_with_link_headers :
  fst (run (Examples.linked_upstream Examples.pulls_link_3
              Examples.contributors_link_25 "")
         (activitySnapshot Examples.plain_URL Examples.now 30000 Examples.repo_url))
  = SuccessResponse
      {| last_commit_date := Some "2024-06-15T14:30:00Z";
         last_commit_message := Some "fix: resolve bug in parser";
         as_open_issues_count := 15;
         open_prs_count := Js.Int 3;
         contributors_count := Js.Int 25;
         as_watchers_count := 100;
         as_has_wiki := true;
         as_has_discussions := true |}
      {| source := Some "https://api.github.com/repos/owner/test-repo";
         retrieved_at := Examples.now;
         next_cursor := None;
         warnings := [] |}.
Proof. vm_compute. reflexivity. Qed.

Example test_network_error :
  fst (run (Examples.rejecting_upstream (ThrownError "Error" "Network error"))
         (repoOverview Examples.plain_URL Examples.now 30000 Examples.repo_url))
  = ErrorResponse
      {| code := INTERNAL_ERROR; message := "Network error";
         details := [("error_name", DStr "Error")] |} Examples.now.
Proof. vm_compute. reflexivity. Qed.

Example test_repository_not_found :
  fst (run (Examples.status_upstream 404 "Not Found" ∅)
         (repoOverview Examples.plain_URL Examples.now 30000 Examples.repo_url))
  = ErrorResponse
      {| code := UPSTREAM_ERROR;
         message := "Repository not found: owner/test-repo";
         details := [("status", DNum 404)] |} Examples.now.
Proof. vm_compute. reflexivity. Qed.

Example test_empty_releases :
  fst (run (Examples.releases_upstream [])
         (releaseNotes Examples.plain_URL Examples.now 30000 Examples.repo_url None))
  = SuccessResponse {| releases := []; total_count := 0 |}
      {| source :=
           Some "https://api.github.com/repos/owner/test-repo/releases?per_page=5";
         retrieved_at := Examples.now;
         next_cursor := None;
         warnings := ["No releases found for this repository"] |}.
Proof. vm_compute. reflexivity. Qed.

Example test_limit_out_of_range :
  error_code (fst (run (Examples.releases_upstream [])
                     (releaseNotes Examples.plain_URL Examples.now 30000
                        Examples.repo_url (Some (Js.Whole 150)))))
  = Some INVALID_INPUT
  /\ error_code (fst (run (Examples.releases_upstream [])
                        (releaseNotes Examples.plain_URL Examples.now 30000
                           Examples.repo_url (Some (Js.Whole 0)))))
     = Some INVALID_INPUT.
Proof. split; reflexivity. Qed.

(** * Further properties of the code *)

(** ** Numerals rendered by a template literal *)

Lemma decimal_from (l : list ascii) (a : Z) :
  fold_left (fun acc c => 10 * acc + (Js.code c - 48)) l a
  = a * 10 ^ Z.of_nat (length l)
    + fold_left (fun acc c => 10 * acc + (Js.code c - 48)) l 0.
Proof.
  revert a. induction l as [| c l IH]; intros a.
  - cbn. lia.
  - cbn [fold_left length]. rewrite IH, (IH (10 * 0 + _)).
    rewrite Nat2Z.inj_succ, Z.pow_succ_r by lia. lia.
Qed.

Lemma code_of_digit (k : Z) :
  0 <= k < 10 -> Js.code (ascii_of_N (Z.to_N (48 + k))) = 48 + k.
Proof.
  intros H. unfold Js.code. rewrite N_ascii_embedding.
  - rewrite Z2N.id; lia.
  - apply N2Z.inj_lt. rewrite Z2N.id by lia. cbn. lia.
Qed.

Lemma render_digits_S (fuel : nat) (n : Z) (acc : string) :
  Js.render_digits (S fuel) n acc
  = if n <? 10 then String (ascii_of_N (Z.to_N (48 + n mod 10))) acc
    else Js.render_digits fuel (n / 10)
           (String (ascii_of_N (Z.to_N (48 + n mod 10))) acc).
Proof. reflexivity. Qed.

Lemma render_digits_decimal (fuel : nat) :
  forall n acc,
    0 <= n < 10 ^ Z.of_nat (S fuel) ->
    Spec.all_digits acc = true ->
    let s := Js.render_digits (S fuel) n acc in
    Spec.all_digits s = true /\ s <> ""
    /\ Spec.decimal s
       = n * 10 ^ Z.of_nat (String.length acc) + Spec.decimal acc.
Proof.
  induction fuel as [| fuel IH]; intros n acc Hn Hacc;
    rewrite render_digits_S;
    set (d := ascii_of_N (Z.to_N (48 + n mod 10)));
    (assert (Hd : Js.code d = 48 + n mod 10)
      by (apply code_of_digit, Z.mod_pos_bound; lia));
    (assert (Hacc' : Spec.all_digits (String d acc) = true)
      by (unfold Spec.all_digits; cbn [list_ascii_of_string forallb];
          fold (Spec.all_digits acc); rewrite Hacc, andb_true_r;
          apply is_digit_code; pose proof (Z.mod_pos_bound n 10); lia));
    (assert (Hv : Spec.decimal (String d acc)
                  = (n mod 10) * 10 ^ Z.of_nat (String.length acc)
                    + Spec.decimal acc)
      by (unfold Spec.decimal; cbn [list_ascii_of_string fold_left];
          rewrite decimal_from, Hd;
          replace (length (list_ascii_of_string acc)) with (String.length acc)
            by (clear; induction acc; cbn; congruence);
          lia));
    destruct (n <? 10) eqn:E.
  - apply Z.ltb_lt in E. cbn zeta. split; [exact Hacc' |].
    split; [discriminate |]. rewrite Hv, Z.mod_small by lia. reflexivity.
  - apply Z.ltb_ge in E. cbn in Hn. lia.
  - apply Z.ltb_lt in E. cbn zeta. split; [exact Hacc' |].
    split; [discriminate |]. rewrite Hv, Z.mod_small by lia. reflexivity.
  - apply Z.ltb_ge in E.
    assert (Hq : 0 <= n / 10 < 10 ^ Z.of_nat (S fuel)).
    { rewrite (Nat2Z.inj_succ (S fuel)), Z.pow_succ_r in Hn by lia.
      split; [apply Z.div_pos; lia | apply Z.div_lt_upper_bound; lia]. }
    destruct (IH (n / 10) (String d acc) Hq Hacc') as (H1 & H2 & H3).
    cbn zeta. split; [exact H1 |]. split; [exact H2 |].
    rewrite H3, Hv. cbn [String.length].
    rewrite Nat2Z.inj_succ, Z.pow_succ_r by lia.
    pose proof (Z.div_mod n 10). lia.
Qed.

(** The numeral of a non-negative integer is made of digits and writes
    that integer. *)
Lemma string_of_Z_decimal (n : Z) :
  0 <= n ->
  Spec.all_digits (Js.string_of_Z n) = true
  /\ Js.string_of_Z n <> ""
  /\ Spec.decimal (Js.string_of_Z n) = n.
Proof.
  intros Hn. unfold Js.string_of_Z.
  replace (n <? 0) with false by (symmetry; apply Z.ltb_ge; exact Hn).
  assert (Hb : 0 <= n < 10 ^ Z.of_nat (S (Z.to_nat (Z.log2 n)))).
  { split; [exact Hn |].
    rewrite Nat2Z.inj_succ, Z2Nat.id by apply Z.log2_nonneg.
    destruct (Z.eq_dec n 0) as [-> | Hne]; [cbn; lia |].
    pose proof (Z.log2_spec n ltac:(lia)) as [_ Hlt].
    eapply Z.lt_le_trans; [exact Hlt |].
    apply Z.pow_le_mono_l. lia. }
  destruct (render_digits_decimal _ n "" Hb eq_refl) as (H1 & H2 & H3).
  split; [exact H1 |]. split; [exact H2 |].
  rewrite H3. cbn. lia.
Qed.

(** ** The calls the tools make *)

Lemma api_url_on_github (o r x : string) :
  Outcome.github_origin (repo_api_url o r +:+ x) = true.
Proof.
  unfold Outcome.github_origin, repo_api_url.
  rewrite string_app_assoc, strip_prefix_app. reflexivity.
Qed.

Lemma api_url_on_github0 (o r : string) :
  Outcome.github_origin (repo_api_url o r) = true.
Proof. rewrite <- (string_app_nil_r (repo_api_url o r)). apply api_url_on_github. Qed.

Lemma raw_url_on_github (o r b p : string) :
  Outcome.github_origin (raw_file_url o r b p) = true.
Proof.
  unfold Outcome.github_origin, raw_file_url.
  rewrite (strip_prefix_app "https://raw.githubusercontent.com/").
  destruct (Js.strip_prefix "https://api.github.com/repos/" _); reflexivity.
Qed.

Section MoreToolTheorems.

Variable new_URL : string -> option URL.
Variable now : string.
Variable requestTimeoutMs : Z.

Lemma activitySnapshot_calls (net : upstream) (repoUrl : string)
    (info : ParsedRepoInfo) :
  parseRepoUrl new_URL repoUrl = Some info ->
  let api := repo_api_url (pr_owner info) (pr_repo info) in
  snd (run net (activitySnapshot new_URL now requestTimeoutMs repoUrl))
  = [api; api +:+ "/commits?per_page=1"; api +:+ "/pulls?state=open&per_page=1";
     api +:+ "/contributors?per_page=1&anon=true"].
Proof.
  intros Hparse api. unfold activitySnapshot. rewrite Hparse.
  rewrite run_bind, run_Promise_all4. reflexivity.
Qed.

Lemma repoOverview_calls (net : upstream) (repoUrl : string)
    (info : ParsedRepoInfo) :
  parseRepoUrl new_URL repoUrl = Some info ->
  snd (run net (repoOverview new_URL now requestTimeoutMs repoUrl))
  = [repo_api_url (pr_owner info) (pr_repo info)].
Proof.
  intros Hparse. unfold repoOverview. rewrite Hparse. reflexivity.
Qed.

Lemma releaseNotes_calls (net : upstream) (repoUrl : string)
    (limit : option Js.double) (info : ParsedRepoInfo) :
  parseRepoUrl new_URL repoUrl = Some info ->
  snd (run net (releaseNotes new_URL now requestTimeoutMs repoUrl limit))
  = if Js.less_than (default (Js.Whole 5) limit) 1
       || Js.greater_than (default (Js.Whole 5) limit) 100
    then []
    else [repo_api_url (pr_owner info) (pr_repo info)
            +:+ "/releases?per_page="
            +:+ Js.double_to_string (default (Js.Whole 5) limit)].
Proof.
  intros Hparse. unfold releaseNotes. rewrite Hparse.
  destruct (_ || _); reflexivity.
Qed.

(** X1.  Whatever the input and whatever the upstream answers, every URL a
    tool hands to [fetch] begins with [https://api.github.com/repos/] or
    with [https://raw.githubusercontent.com/]: the host of the input URL,
    the branch name GitHub reports and the paths asked for never choose
    the origin that is called. *)
Theorem outbound_calls_stay_on_github (net : upstream) (repoUrl : string)
    (paths : option (list string)) (limit : option Js.double) :
  Forall (fun u => Outcome.github_origin u = true)
    (snd (run net (repoOverview new_URL now requestTimeoutMs repoUrl)))
  /\ Forall (fun u => Outcome.github_origin u = true)
       (snd (run net (extractKeyFiles new_URL now repoUrl paths)))
  /\ Forall (fun u => Outcome.github_origin u = true)
       (snd (run net (releaseNotes new_URL now requestTimeoutMs repoUrl limit)))
  /\ Forall (fun u => Outcome.github_origin u = true)
       (snd (run net (activitySnapshot new_URL now requestTimeoutMs repoUrl))).
Proof.
  destruct (parseRepoUrl new_URL repoUrl) as [info |] eqn:Hparse.
  - repeat split.
    + rewrite (repoOverview_calls net repoUrl info Hparse).
      repeat constructor; apply api_url_on_github0.
    + rewrite (run_extractKeyFiles new_URL now net repoUrl paths info Hparse).
      destruct (Js.truthy _); cbn [snd].
      * constructor; [apply api_url_on_github0 |].
        induction (Spec.requested_paths paths) as [| p ps IH];
          cbn [map]; constructor; [apply raw_url_on_github | exact IH].
      * repeat constructor; apply api_url_on_github0.
    + rewrite (releaseNotes_calls net repoUrl limit info Hparse).
      destruct (_ || _); repeat constructor; apply api_url_on_github.
    + rewrite (activitySnapshot_calls net repoUrl info Hparse).
      repeat constructor; apply api_url_on_github0 || apply api_url_on_github.
  - unfold repoOverview, extractKeyFiles, releaseNotes, activitySnapshot.
    rewrite Hparse. repeat split; constructor.
Qed.

(** X2.  Once the URL parses, the calls a tool makes are fixed by the
    reference alone, whatever the upstream answers.  The overview makes
    one call and the release notes, with a limit that passes the range
    test, one.  The activity snapshot makes four calls, to the
    repository, its commits, its open pull requests and its contributors:
    they are started together and each may sleep on a timer of its own,
    so they can leave in any order, but in every order they are these
    four, each once, also when the repository lookup fails. *)
Theorem calls_are_fixed_by_the_reference (net : upstream) (repoUrl : string)
    (limit : option Js.double) (info : ParsedRepoInfo) :
  parseRepoUrl new_URL repoUrl = Some info ->
  let api := repo_api_url (pr_owner info) (pr_repo info) in
  (forall l,
     fetch_order net (repoOverview new_URL now requestTimeoutMs repoUrl) l ->
     l = [api])
  /\ (forall l,
        fetch_order net (activitySnapshot new_URL now requestTimeoutMs repoUrl) l ->
        Permutation l
          [api; api +:+ "/commits?per_page=1";
           api +:+ "/pulls?state=open&per_page=1";
           api +:+ "/contributors?per_page=1&anon=true"])
  /\ (Spec.limit_accepted (default (Js.Whole 5) limit) ->
      forall l,
        fetch_order net (releaseNotes new_URL now requestTimeoutMs repoUrl limit) l ->
        l = [api +:+ "/releases?per_page="
               +:+ Js.double_to_string (default (Js.Whole 5) limit)]).
Proof.
  intros Hparse api. split; [| split].
  - intros l. apply fetch_order_single, repoOverview_calls, Hparse.
  - intros l Ho. apply fetch_order_Permutation in Ho.
    rewrite (activitySnapshot_calls net repoUrl info Hparse) in Ho. exact Ho.
  - intros Hlim l. apply fetch_order_single.
    rewrite (releaseNotes_calls net repoUrl limit info Hparse).
    replace (Js.less_than (default (Js.Whole 5) limit) 1
               || Js.greater_than (default (Js.Whole 5) limit) 100) with false
      by (symmetry; apply orb_false_intro; apply Hlim).
    reflexivity.
Qed.

(** ** Error codes *)

Lemma on_throw_code {T} (e : thrown) :
  ok_flag (on_throw now requestTimeoutMs e : ApiResponse T) = false
  /\ error_code (on_throw now requestTimeoutMs e : ApiResponse T)
     = Some (if Outcome.is_abort e then TIMEOUT else INTERNAL_ERROR).
Proof.
  destruct e as [name message |]; [| split; reflexivity].
  unfold on_throw, Outcome.is_abort.
  destruct (String.eqb name "AbortError"); split; reflexivity.
Qed.

Lemma forbidden_code {T B} (response : Response B) :
  ok_flag (forbidden now requestTimeoutMs response : ApiResponse T) = false
  /\ if decide (headers_get response "x-ratelimit-remaining" = Some "0")
     then error_code (forbidden now requestTimeoutMs response : ApiResponse T)
            = Some RATE_LIMITED
          \/ error_code (forbidden now requestTimeoutMs response : ApiResponse T)
             = Some INTERNAL_ERROR
     else error_code (forbidden now requestTimeoutMs response : ApiResponse T)
          = Some UPSTREAM_ERROR.
Proof.
  unfold forbidden.
  destruct (decide (headers_get response "x-ratelimit-remaining" = Some "0"));
    [| split; reflexivity].
  destruct (headers_get response "x-ratelimit-reset") as [t |];
    [| split; [reflexivity | left; reflexivity]].
  destruct (Js.truthy (Some t)); [| split; [reflexivity | left; reflexivity]].
  unfold new_Date_toISOString.
  destruct (Js.times _ _) as [v |].
  - destruct (JsDate.toISOString v); split; try reflexivity;
      [left | right]; reflexivity.
  - split; [reflexivity | right; reflexivity].
Qed.

(** The [try] block that [repoOverview] and [releaseNotes] share, with
    the two [UPSTREAM_ERROR] envelopes and the success branch left open. *)
Lemma try_block_classified {B T} (r : result (Response B))
    (notFound : ApiResponse T) (other : Response B -> ApiResponse T)
    (success : Response B -> B -> ApiResponse T) :
  ok_flag notFound = false -> error_code notFound = Some UPSTREAM_ERROR ->
  (forall response, ok_flag (other response) = false
                    /\ error_code (other response) = Some UPSTREAM_ERROR) ->
  (forall response data,
     ok_flag (success response data) = true
     /\ error_code (success response data) = None) ->
  Outcome.classified r
    match r with
    | Throw e => on_throw now requestTimeoutMs e
    | Ok response =>
        if status response =? 404 then notFound
        else if status response =? 403 then forbidden now requestTimeoutMs response
        else if negb (ok response) then other response
        else match body response with
             | Throw e => on_throw now requestTimeoutMs e
             | Ok data => success response data
             end
    end.
Proof.
  intros Hnf1 Hnf2 Ho Hs.
  destruct r as [response | e].
  - destruct (status response =? 404) eqn:E404.
    { apply Z.eqb_eq in E404.
      assert (Hok : ok response = false)
        by (unfold ok; rewrite E404; reflexivity).
      constructor; cbn [Outcome.thrown_in_try]; rewrite ?Hok, ?Hnf1, ?Hnf2.
      - split; [discriminate | intros (? & ? & [= <-] & ? & _); congruence].
      - split; [intros _ | reflexivity].
        exists response. repeat split; try assumption.
        intros [H _]. congruence.
      - split; [discriminate | intros (? & ? & _); discriminate].
      - discriminate.
      - discriminate.
      - split; discriminate. }
    destruct (status response =? 403) eqn:E403.
    { apply Z.eqb_eq in E403.
      assert (Hok : ok response = false)
        by (unfold ok; rewrite E403; reflexivity).
      destruct (forbidden_code (T := T) response) as [Hf1 Hf2].
      constructor; cbn [Outcome.thrown_in_try]; rewrite ?Hok, ?Hf1.
      - split; [discriminate | intros (? & ? & [= <-] & ? & _); congruence].
      - destruct (decide (headers_get response "x-ratelimit-remaining" = Some "0"))
          as [Hrem | Hrem].
        + split.
          * intros H. destruct Hf2 as [Hf2 | Hf2]; congruence.
          * intros (? & [= <-] & _ & Hq). exfalso. apply Hq. split; assumption.
        + split; [intros _ | intros _; exact Hf2].
          exists response. repeat split; try assumption.
          intros [_ H]. contradiction.
      - destruct (decide _); split;
          try (intros (? & ? & _); discriminate);
          intros H; try destruct Hf2 as [Hf2 | Hf2]; congruence.
      - discriminate.
      - destruct (decide (headers_get response "x-ratelimit-remaining" = Some "0"))
          as [Hrem | Hrem].
        + intros _. exists response. repeat split; assumption.
        + congruence.
      - destruct (decide _); split; intros H;
          try destruct Hf2 as [Hf2 | Hf2]; congruence. }
    apply Z.eqb_neq in E404, E403.
    destruct (ok response) eqn:Hok; cbn [negb].
    + destruct (body response) as [data | e] eqn:Hbody.
      * destruct (Hs response data) as [Hs1 Hs2].
        constructor; cbn [Outcome.thrown_in_try]; rewrite ?Hok, ?Hbody, ?Hs1, ?Hs2.
        -- split; [intros _; eauto | reflexivity].
        -- split; [discriminate | intros (? & [= <-] & ? & _); congruence].
        -- split; [discriminate | intros (? & ? & _); discriminate].
        -- discriminate.
        -- discriminate.
        -- split; discriminate.
      * destruct (on_throw_code (T := T) e) as [Ht1 Ht2].
        constructor; cbn [Outcome.thrown_in_try]; rewrite ?Hok, ?Hbody, ?Ht1, ?Ht2.
        -- split; [discriminate |].
           intros (? & ? & [= <-] & _ & H). congruence.
        -- split; [destruct (Outcome.is_abort e); discriminate |].
           intros (? & [= <-] & ? & _). congruence.
        -- split.
           ++ intros H. exists e. split; [reflexivity |].
              destruct (Outcome.is_abort e); [reflexivity | discriminate].
           ++ intros (? & [= <-] & ->). reflexivity.
        -- intros ? [= <-] ->. reflexivity.
        -- destruct (Outcome.is_abort e); discriminate.
        -- destruct (Outcome.is_abort e); split; discriminate.
    + destruct (Ho response) as [Ho1 Ho2].
      constructor; cbn [Outcome.thrown_in_try]; rewrite ?Hok, ?Ho1, ?Ho2.
      * split; [discriminate | intros (? & ? & [= <-] & ? & _); congruence].
      * split; [intros _ | reflexivity].
        exists response. repeat split; try assumption.
        intros [H _]. contradiction.
      * split; [discriminate | intros (? & ? & _); discriminate].
      * discriminate.
      * discriminate.
      * split; discriminate.
  - destruct (on_throw_code (T := T) e) as [Ht1 Ht2].
    constructor; cbn [Outcome.thrown_in_try]; rewrite ?Ht1, ?Ht2.
    + split; [discriminate | intros (? & ? & ? & _); discriminate].
    + split; [destruct (Outcome.is_abort e); discriminate |].
      intros (? & ? & _). discriminate.
    + split.
      * intros H. exists e. split; [reflexivity |].
        destruct (Outcome.is_abort e); [reflexivity | discriminate].
      * intros (? & [= <-] & ->). reflexivity.
    + intros ? [= <-] ->. reflexivity.
    + destruct (Outcome.is_abort e); discriminate.
    + destruct (Outcome.is_abort e); split; discriminate.
Qed.

Lemma repoOverview_classified (net : upstream) (repoUrl : string)
    (info : ParsedRepoInfo) :
  parseRepoUrl new_URL repoUrl = Some info ->
  Outcome.classified (net SRepo (repo_api_url (pr_owner info) (pr_repo info)))
    (fst (run net (repoOverview new_URL now requestTimeoutMs repoUrl))).
Proof.
  intros Hparse. unfold repoOverview. rewrite Hparse.
  cbn [run fst mbind io_bind bind rateLimitedFetch].
  apply try_block_classified; try reflexivity; intros; split; reflexivity.
Qed.

Lemma releaseNotes_classified (net : upstream) (repoUrl : string)
    (limit : option Js.double) (info : ParsedRepoInfo) :
  parseRepoUrl new_URL repoUrl = Some info ->
  Spec.limit_accepted (default (Js.Whole 5) limit) ->
  Outcome.classified
    (net SReleases
       (repo_api_url (pr_owner info) (pr_repo info) +:+ "/releases?per_page="
          +:+ Js.double_to_string (default (Js.Whole 5) limit)))
    (fst (run net (releaseNotes new_URL now requestTimeoutMs repoUrl limit))).
Proof.
  intros Hparse Hlim. unfold releaseNotes. rewrite Hparse.
  replace (Js.less_than (default (Js.Whole 5) limit) 1
             || Js.greater_than (default (Js.Whole 5) limit) 100) with false
    by (symmetry; apply orb_false_intro; apply Hlim).
  cbn [run fst mbind io_bind bind rateLimitedFetch].
  apply try_block_classified; try reflexivity; intros; split; reflexivity.
Qed.

(** X3.  The error contract of the overview and of the release notes,
    once the URL parses and the limit is in range.  The envelope is
    [ok: true] exactly when the call answered 2xx and its body could be
    read; [UPSTREAM_ERROR] exactly when it answered outside 2xx, the 403
    of a used-up quota apart; [TIMEOUT] exactly when the [fetch] or the
    reading of the body was aborted; any other thrown error gives
    [INTERNAL_ERROR], a body that is no JSON included; [RATE_LIMITED]
    comes from a 403 with [x-ratelimit-remaining: 0] only; and the code
    is never [INVALID_INPUT] or [PARSE_ERROR]. *)
Theorem overview_and_releases_classified (net : upstream) (repoUrl : string)
    (limit : option Js.double) (info : ParsedRepoInfo) :
  parseRepoUrl new_URL repoUrl = Some info ->
  Spec.limit_accepted (default (Js.Whole 5) limit) ->
  let api := repo_api_url (pr_owner info) (pr_repo info) in
  Outcome.classified (net SRepo api)
    (fst (run net (repoOverview new_URL now requestTimeoutMs repoUrl)))
  /\ Outcome.classified
       (net SReleases
          (api +:+ "/releases?per_page=" +:+ Js.double_to_string (default (Js.Whole 5) limit)))
       (fst (run net (releaseNotes new_URL now requestTimeoutMs repoUrl limit))).
Proof.
  intros Hparse Hlim api. split.
  - apply repoOverview_classified, Hparse.
  - apply releaseNotes_classified; assumption.
Qed.

End MoreToolTheorems.

(** ** Segments of a path *)

Lemma free_of_prefix (c : ascii) (a b : string) :
  Spec.free_of c (a +:+ b) -> Spec.free_of c a.
Proof.
  intros H x y E. apply (H x (y +:+ b)).
  rewrite E, string_app_assoc. reflexivity.
Qed.

Lemma split_slash_free (s : string) :
  Forall (Spec.free_of "/") (Js.split_slash s).
Proof.
  induction s as [| c s IH]; [repeat constructor; apply free_of_nil |].
  cbn [Js.split_slash]. destruct (Ascii.eqb c "/") eqn:E.
  - constructor; [apply free_of_nil | exact IH].
  - apply Ascii.eqb_neq in E.
    destruct (Js.split_slash s) as [| seg segs].
    + repeat constructor. apply free_of_cons; [exact E | apply free_of_nil].
    + inversion IH; subst. constructor; [| assumption].
      apply free_of_cons; assumption.
Qed.

(** A segment of a path is not empty and holds no slash. *)
Lemma path_segments_shape (p seg : string) :
  In seg (Spec.path_segments p) -> seg <> "" /\ Spec.free_of "/" seg.
Proof.
  rewrite <- filter_split_is_segments. unfold Js.filter_Boolean.
  intros H. apply filter_In in H as [Hin Hne]. split.
  - intros ->. discriminate.
  - exact (proj1 (List.Forall_forall _ _) (split_slash_free p) seg Hin).
Qed.

Lemma search_page_rel_digits (rel s ds : string) :
  Js.search_page_rel rel s = Some ds -> ds <> "" /\ Spec.all_digits ds = true.
Proof.
  assert (M : forall t, Js.match_page_rel rel t = Some ds ->
                        ds <> "" /\ Spec.all_digits ds = true).
  { intros t H. split; [| destruct (match_page_rel_elim _ _ _ H) as (? & _ & Hd);
                          exact Hd].
    unfold Js.match_page_rel in H.
    destruct (Js.strip_prefix "page=" t); [| discriminate].
    destruct (Js.span_digits _) as [[| d ds'] s2]; [discriminate |].
    destruct (Js.strip_prefix _ s2); [| discriminate].
    injection H as <-. discriminate. }
  induction s as [| c s IH]; cbn [Js.search_page_rel]; intros H.
  - destruct (Js.match_page_rel rel "") eqn:E; [| discriminate].
    injection H as ->. exact (M _ E).
  - destruct (Js.match_page_rel rel (String c s)) eqn:E.
    + injection H as ->. exact (M _ E).
    + exact (IH H).
Qed.

Lemma map_release_id (data : list ReleaseData) :
  map (fun release =>
         {| tag_name := tag_name release; rel_name := rel_name release;
            rel_body := rel_body release; published_at := published_at release;
            prerelease := prerelease release; draft := draft release;
            html_url := html_url release |}) data = data.
Proof.
  induction data as [| [] data IH]; [reflexivity |].
  cbn [map]. rewrite IH. reflexivity.
Qed.

Section MoreToolTheorems2.

Variable new_URL : string -> option URL.
Variable now : string.
Variable requestTimeoutMs : Z.

(** X4.  The codes in use.  The key-files tool answers [ok: true],
    [INVALID_INPUT] or [UPSTREAM_ERROR] and nothing else.  The activity
    snapshot answers these and [INTERNAL_ERROR], the latter exactly when
    the repository was fetched and the latest commit that was fetched has
    no [commit] or no [commit.author] to read.  The helpers of both tools
    catch whatever a call throws, so an aborted or failed call never shows
    as [TIMEOUT], and a used-up quota never as [RATE_LIMITED].  No tool
    ever answers [PARSE_ERROR]. *)
Theorem error_codes_in_use (net : upstream) (repoUrl : string)
    (paths : option (list string)) (limit : option Js.double) :
  let snapshot :=
    fst (run net (activitySnapshot new_URL now requestTimeoutMs repoUrl)) in
  (forall c,
     error_code (fst (run net (extractKeyFiles new_URL now repoUrl paths))) = Some c ->
     c = INVALID_INPUT \/ c = UPSTREAM_ERROR)
  /\ (forall c,
        error_code snapshot = Some c ->
        c = INVALID_INPUT \/ c = UPSTREAM_ERROR \/ c = INTERNAL_ERROR)
  /\ (error_code snapshot = Some INTERNAL_ERROR <->
      exists info rd c rest,
        parseRepoUrl new_URL repoUrl = Some info
        /\ Spec.succeeded
             (net SRepo (repo_api_url (pr_owner info) (pr_repo info))) rd
        /\ Spec.succeeded
             (net SCommits
                (repo_api_url (pr_owner info) (pr_repo info)
                   +:+ "/commits?per_page=1"))
             (c :: rest)
        /\ ~ Spec.readable c)
  /\ error_code (fst (run net (repoOverview new_URL now requestTimeoutMs repoUrl)))
     <> Some PARSE_ERROR
  /\ error_code (fst (run net (releaseNotes new_URL now requestTimeoutMs repoUrl limit)))
     <> Some PARSE_ERROR.
Proof.
  intros snapshot.
  destruct (parseRepoUrl new_URL repoUrl) as [info |] eqn:Hparse.
  - assert (Hs : snapshot =
                 merge_activity now requestTimeoutMs info
                   (fst (run net (fetchRepoInfo (pr_owner info) (pr_repo info))))
                   (fst (run net (fetchLatestCommit (pr_owner info) (pr_repo info))))
                   (fst (run net (fetchOpenPRsCount (pr_owner info) (pr_repo info))))
                   (fst (run net (fetchContributorsCount (pr_owner info)
                                    (pr_repo info)))))
      by (apply run_activitySnapshot, Hparse).
    clearbody snapshot.
    split; [| split; [| split; [| split]]].
    + intros c. rewrite (run_extractKeyFiles new_URL now net repoUrl paths info Hparse).
      destruct (Js.truthy _); cbn; [discriminate | intros [= <-]; now right].
    + intros c. rewrite Hs.
      destruct (fst (run net (fetchRepoInfo _ _))) as [rd |].
      * destruct (merge_activity_fetched now requestTimeoutMs info rd
                    (fst (run net (fetchLatestCommit (pr_owner info) (pr_repo info))))
                    (fst (run net (fetchOpenPRsCount (pr_owner info) (pr_repo info))))
                    (fst (run net (fetchContributorsCount (pr_owner info)
                                     (pr_repo info)))))
          as [[H | H] _]; rewrite H; [discriminate | intros [= <-]; auto].
      * cbn. intros [= <-]. auto.
    + rewrite Hs.
      destruct (fst (run net (fetchRepoInfo _ _))) as [rd |] eqn:Hrd.
      * destruct (merge_activity_fetched now requestTimeoutMs info rd
                    (fst (run net (fetchLatestCommit (pr_owner info) (pr_repo info))))
                    (fst (run net (fetchOpenPRsCount (pr_owner info) (pr_repo info))))
                    (fst (run net (fetchContributorsCount (pr_owner info)
                                     (pr_repo info)))))
          as [_ Hiff].
        rewrite Hiff. split.
        -- intros (c & Hc & Hn). apply fetchLatestCommit_Some in Hc as [rest Hc].
           apply fetchRepoInfo_Some in Hrd. exists info, rd, c, rest. auto.
        -- intros (info' & rd' & c & rest & [= <-] & _ & Hc & Hn).
           exists c. split; [| exact Hn].
           apply fetchLatestCommit_Some. eauto.
      * cbn. split; [discriminate |].
        intros (info' & rd' & c & rest & [= <-] & Hr & _).
        apply fetchRepoInfo_Some in Hr. congruence.
    + unfold repoOverview. rewrite Hparse.
      cbn [run fst mbind io_bind bind rateLimitedFetch].
      eapply Outcome.no_other_code.
      apply try_block_classified; try reflexivity; intros; split; reflexivity.
    + unfold releaseNotes. rewrite Hparse.
      destruct (_ || _); [discriminate |].
      cbn [run fst mbind io_bind bind rateLimitedFetch].
      eapply Outcome.no_other_code.
      apply try_block_classified; try reflexivity; intros; split; reflexivity.
  - subst snapshot.
    unfold extractKeyFiles, activitySnapshot, repoOverview, releaseNotes.
    rewrite Hparse. cbn.
    split; [intros c [= <-]; now left |].
    split; [intros c [= <-]; now left |].
    split; [split; [discriminate | intros (? & ? & ? & ? & [=] & _)] |].
    split; discriminate.
Qed.

(** X5.  The limit of the release notes, once the URL parses.  The limit
    is whatever number the caller passes, and 5 when it passes none.  A
    limit below 1 or above 100, an infinity included, is answered with
    [INVALID_INPUT], the limit in its details, and no call is made.  A
    whole number from 1 to 100 is written into the one call as
    [per_page=<limit>], a decimal numeral that reads back as the limit.
    The range test does not ask for a whole number: [NaN] passes it, and
    so does a fraction between 1 and 100, and the call then asks for
    [per_page=NaN] or for the fraction as it is written, such as
    [per_page=1.5]. *)
Theorem releaseNotes_limit (net : upstream) (repoUrl : string)
    (limit : option Js.double) (info : ParsedRepoInfo) :
  parseRepoUrl new_URL repoUrl = Some info ->
  let x := default (Js.Whole 5) limit in
  let api := repo_api_url (pr_owner info) (pr_repo info) in
  let calls :=
    snd (run net (releaseNotes new_URL now requestTimeoutMs repoUrl limit)) in
  (Js.less_than x 1 = true \/ Js.greater_than x 100 = true ->
   run net (releaseNotes new_URL now requestTimeoutMs repoUrl limit)
   = (ErrorResponse
        {| code := INVALID_INPUT; message := "Limit must be between 1 and 100";
           details := [("provided_limit", DNumber x)] |} now, []))
  /\ (forall n, x = Js.Whole n ->
      (n < 1 \/ 100 < n -> calls = [])
      /\ (1 <= n <= 100 ->
          exists ds,
            calls = [api +:+ "/releases?per_page=" +:+ ds]
            /\ Spec.all_digits ds = true
            /\ Spec.decimal ds = n
            /\ Js.parseInt ds 10 = Js.Int n))
  /\ (x = Js.NotANumber -> calls = [api +:+ "/releases?per_page=" +:+ "NaN"])
  /\ (forall below text, x = Js.Fraction below text ->
      (below < 1 \/ 100 <= below -> calls = [])
      /\ (1 <= below < 100 -> calls = [api +:+ "/releases?per_page=" +:+ text]))
  /\ (forall negative, x = Js.Infinite negative -> calls = []).
Proof.
  intros Hparse x api calls.
  assert (Hcalls : calls =
                   if Js.less_than x 1 || Js.greater_than x 100 then []
                   else [api +:+ "/releases?per_page=" +:+ Js.double_to_string x])
    by (apply releaseNotes_calls, Hparse).
  clearbody calls.
  split; [| split; [| split; [| split]]].
  - intros Hout. unfold releaseNotes. rewrite Hparse. fold x.
    replace (Js.less_than x 1 || Js.greater_than x 100) with true; [reflexivity |].
    symmetry. apply orb_true_iff. exact Hout.
  - intros n Hx. rewrite Hcalls, Hx. cbn [Js.less_than Js.greater_than].
    split.
    + intros Hout.
      replace ((n <? 1) || (100 <? n)) with true; [reflexivity |].
      symmetry. apply orb_true_iff. rewrite !Z.ltb_lt. exact Hout.
    + intros Hin. exists (Js.string_of_Z n).
      replace ((n <? 1) || (100 <? n)) with false
        by (symmetry; apply orb_false_intro; apply Z.ltb_ge; lia).
      destruct (string_of_Z_decimal n ltac:(lia)) as (Hd & Hne & Hv).
      split; [reflexivity |]. split; [exact Hd |]. split; [exact Hv |].
      rewrite (parseInt_decimal _ 10 (or_intror eq_refl) Hne Hd), Hv. reflexivity.
  - intros Hx. rewrite Hcalls, Hx. reflexivity.
  - intros below text Hx. rewrite Hcalls, Hx.
    cbn [Js.less_than Js.greater_than Js.double_to_string]. split.
    + intros Hout.
      replace ((below <? 1) || (100 <=? below)) with true; [reflexivity |].
      symmetry. apply orb_true_iff. rewrite Z.ltb_lt, Z.leb_le. exact Hout.
    + intros Hin.
      replace ((below <? 1) || (100 <=? below)) with false; [reflexivity |].
      symmetry. apply orb_false_intro; [apply Z.ltb_ge | apply Z.leb_gt]; lia.
  - intros negative Hx. rewrite Hcalls, Hx. destruct negative; reflexivity.
Qed.

(** X6.  A release-notes call that answers 2xx with a body that parses:
    the releases are the entries of the answer, in its order and field by
    field; [total_count] is their number; the source is the URL that was
    called; and the one warning, of a repository without releases, is
    there exactly when the list is empty. *)
Theorem releaseNotes_lists_the_answer (net : upstream) (repoUrl : string)
    (limit : option Js.double) (info : ParsedRepoInfo)
    (response : Response (body_of SReleases)) (data : list ReleaseData) :
  parseRepoUrl new_URL repoUrl = Some info ->
  Spec.limit_accepted (default (Js.Whole 5) limit) ->
  let url := repo_api_url (pr_owner info) (pr_repo info) +:+ "/releases?per_page="
               +:+ Js.double_to_string (default (Js.Whole 5) limit) in
  net SReleases url = Ok response ->
  ok response = true ->
  body response = Ok data ->
  exists d meta,
    fst (run net (releaseNotes new_URL now requestTimeoutMs repoUrl limit))
    = SuccessResponse d meta
    /\ releases d = data
    /\ total_count d = Z.of_nat (length data)
    /\ source meta = Some url
    /\ (warnings meta = ["No releases found for this repository"] <-> data = [])
    /\ (warnings meta = [] <-> data <> []).
Proof.
  intros Hparse Hlim url Hnet Hok Hbody.
  unfold releaseNotes. rewrite Hparse.
  replace (Js.less_than (default (Js.Whole 5) limit) 1
             || Js.greater_than (default (Js.Whole 5) limit) 100) with false
    by (symmetry; apply orb_false_intro; apply Hlim).
  cbn [run fst mbind io_bind bind rateLimitedFetch]. fold url.
  rewrite Hnet. unfold body_of in *.
  pose proof Hok as Hrange. unfold ok in Hrange.
  apply andb_prop in Hrange as [H200 H299]. apply Z.leb_le in H200, H299.
  replace (status response =? 404) with false by (symmetry; apply Z.eqb_neq; lia).
  replace (status response =? 403) with false by (symmetry; apply Z.eqb_neq; lia).
  rewrite Hok, Hbody. cbn [negb]. unfold createSuccessResponse.
  rewrite map_release_id.
  eexists _, _. split; [reflexivity |].
  cbn [releases total_count source warnings opt_source opt_warnings default].
  replace (Z.of_nat (length data) =? 0) with (bool_decide (data = []))
    by (destruct data; reflexivity).
  repeat split; try reflexivity; destruct data; cbn; congruence.
Qed.

(** X7.  The reference [parseRepoUrl] returns: the owner is not empty, and
    neither the owner nor the repository name holds a slash.  The
    repository name can be empty, and it is exactly when the second
    segment of the path is [.git]. *)
Theorem parsed_reference_shape (url : string) (info : ParsedRepoInfo) :
  parseRepoUrl new_URL url = Some info ->
  pr_owner info <> ""
  /\ Spec.free_of "/" (pr_owner info)
  /\ Spec.free_of "/" (pr_repo info)
  /\ (pr_repo info = "" <->
      exists u o rest,
        new_URL url = Some u
        /\ Spec.path_segments (pathname u) = o :: ".git" :: rest).
Proof using new_URL.
  rewrite parseRepoUrl_unfold.
  destruct (new_URL url) as [u |]; [| discriminate].
  destruct (negb _ && negb _); [discriminate |].
  destruct (Spec.path_segments (pathname u)) as [| o [| r rest]] eqn:Ep;
    try discriminate.
  intros [= <-]. cbn [pr_owner pr_repo].
  destruct (path_segments_shape (pathname u) o) as [Ho1 Ho2];
    [rewrite Ep; left; reflexivity |].
  destruct (path_segments_shape (pathname u) r) as [Hr1 Hr2];
    [rewrite Ep; right; left; reflexivity |].
  split; [exact Ho1 |]. split; [exact Ho2 |].
  destruct (replace_git_suffix_spec r) as [(s & Hs & Hrepo) | (Hno & Hrepo)].
  - rewrite Hrepo. split.
    + rewrite Hs in Hr2. exact (free_of_prefix _ _ _ Hr2).
    + split.
      * intros ->. exists u, o, rest. rewrite Ep, Hs. auto.
      * intros (u' & o' & rest' & [= <-] & Hp).
        rewrite Ep in Hp. injection Hp as _ Hr _.
        rewrite Hr in Hs.
        symmetry. apply (string_app_inv_tail "" s ".git"). exact Hs.
  - rewrite Hrepo. split; [exact Hr2 |]. split.
    + intros E. contradiction.
    + intros (u' & o' & rest' & [= <-] & Hp).
      rewrite Ep in Hp. injection Hp as _ Hr _.
      exfalso. apply (Hno ""). exact Hr.
Qed.

(** X8.  A repository answer that names no default branch: the key-files
    tool takes the branch to be [main], reports it as the default branch
    and fetches every file from it. *)
Theorem missing_default_branch_means_main (net : upstream) (repoUrl : string)
    (paths : option (list string)) (info : ParsedRepoInfo)
    (response : Response (body_of SBranch)) :
  parseRepoUrl new_URL repoUrl = Some info ->
  let o := pr_owner info in
  let r := pr_repo info in
  net SBranch (repo_api_url o r) = Ok response ->
  ok response = true ->
  body response = Ok None ->
  snd (run net (extractKeyFiles new_URL now repoUrl paths))
  = repo_api_url o r :: map (raw_file_url o r "main") (Spec.requested_paths paths)
  /\ exists data meta,
       fst (run net (extractKeyFiles new_URL now repoUrl paths))
       = SuccessResponse data meta
       /\ kf_default_branch data = "main".
Proof.
  intros Hparse o r Hnet Hok Hbody.
  rewrite (run_extractKeyFiles new_URL now net repoUrl paths info Hparse).
  fold o r.
  assert (Hb : fst (run net (getDefaultBranch o r)) = Some "main").
  { unfold getDefaultBranch. cbn [run fst mbind io_bind bind rateLimitedFetch].
    rewrite Hnet. unfold body_of in *. rewrite Hok, Hbody. reflexivity. }
  rewrite Hb. cbn [Js.truthy default fst snd].
  split; [reflexivity |]. eexists _, _. split; reflexivity.
Qed.

(** X9.  A repository without commits: the commits call answers 2xx with
    an empty list, and the activity snapshot treats it as a commit that
    could not be fetched: date and message are null, and the warning
    [Could not fetch latest commit information] is given. *)
Theorem empty_commit_list_is_reported_missing (net : upstream)
    (repoUrl : string) (info : ParsedRepoInfo) (rd : GitHubRepoResponse)
    (response : Response (body_of SCommits)) :
  parseRepoUrl new_URL repoUrl = Some info ->
  let api := repo_api_url (pr_owner info) (pr_repo info) in
  fst (run net (fetchRepoInfo (pr_owner info) (pr_repo info))) = Some rd ->
  net SCommits (api +:+ "/commits?per_page=1") = Ok response ->
  ok response = true ->
  body response = Ok [] ->
  exists data meta,
    fst (run net (activitySnapshot new_URL now requestTimeoutMs repoUrl)) = SuccessResponse data meta
    /\ last_commit_date data = None
    /\ last_commit_message data = None
    /\ In "Could not fetch latest commit information" (warnings meta).
Proof.
  intros Hparse api Hrepo Hnet Hok Hbody.
  rewrite (run_activitySnapshot new_URL now requestTimeoutMs net repoUrl info Hparse), Hrepo.
  assert (Hc : fst (run net (fetchLatestCommit (pr_owner info) (pr_repo info)))
               = None).
  { unfold fetchLatestCommit. cbn [run fst mbind io_bind bind rateLimitedFetch].
    fold api. rewrite Hnet. unfold body_of in *. rewrite Hok, Hbody. reflexivity. }
  rewrite Hc. unfold merge_activity, createSuccessResponse.
  eexists _, _. split; [reflexivity |].
  cbn [last_commit_date last_commit_message warnings opt_warnings default fmap
       option_fmap option_map].
  repeat split. apply in_or_app. right. apply in_or_app. right. left. reflexivity.
Qed.

Lemma count_of_response_natural {E} (response : Response (list E))
    (n : Js.number) :
  count_of_response response = Some n ->
  n <> Js.NaN /\ forall z, n = Js.Int z -> 0 <= z.
Proof.
  unfold count_of_response. destruct (negb _); [discriminate |].
  set (lastMatch := match headers_get response "link" with
                    | Some h => _ | None => None end).
  destruct lastMatch as [group1 |] eqn:E1.
  - assert (Hs : exists h, Js.search_page_rel "last" h = Some group1).
    { subst lastMatch. destruct (headers_get response "link") as [h |];
        [| discriminate].
      destruct (Js.truthy _); [eauto | discriminate]. }
    destruct Hs as (h & Hs). apply search_page_rel_digits in Hs as [Hne Hd].
    rewrite (parseInt_decimal _ 10 (or_intror eq_refl) Hne Hd).
    intros [= <-]. split; [discriminate |].
    intros z [= <-]. apply decimal_nonneg, Hd.
  - destruct (body response); [| discriminate].
    intros [= <-]. split; [discriminate |]. intros z [= <-]. lia.
Qed.

Lemma merge_activity_counts (info : ParsedRepoInfo)
    (repoData : option GitHubRepoResponse)
    (latestCommit : option GitHubCommitResponse)
    (openPRsCount contributorsCount : option Js.number)
    (data : ActivitySnapshotData) (meta : SuccessMeta) :
  merge_activity now requestTimeoutMs info repoData latestCommit openPRsCount
    contributorsCount = SuccessResponse data meta ->
  open_prs_count data = default (Js.Int 0) openPRsCount
  /\ contributors_count data = default (Js.Int 0) contributorsCount.
Proof.
  unfold merge_activity. destruct repoData as [rd |]; [| discriminate].
  destruct latestCommit as [c |];
    [destruct (commit c) as [detail | n]; cbn [reading];
     [destruct (author detail) as [a | n]; cbn [reading] |] |];
    unfold createSuccessResponse, on_throw; cbn; try discriminate;
    intros [= <- _]; split; reflexivity.
Qed.

(** X10.  The two counts of an activity snapshot are never [NaN] and
    never negative, whatever the [Link] headers hold: a count is read
    from digits only, or is the length of a list, or is the 0 of a count
    that could not be fetched. *)
Theorem activity_counts_are_natural (net : upstream) (repoUrl : string)
    (data : ActivitySnapshotData) (meta : SuccessMeta) :
  fst (run net (activitySnapshot new_URL now requestTimeoutMs repoUrl)) = SuccessResponse data meta ->
  (open_prs_count data <> Js.NaN
   /\ forall z, open_prs_count data = Js.Int z -> 0 <= z)
  /\ (contributors_count data <> Js.NaN
      /\ forall z, contributors_count data = Js.Int z -> 0 <= z).
Proof.
  destruct (parseRepoUrl new_URL repoUrl) as [info |] eqn:Hparse.
  - rewrite (run_activitySnapshot new_URL now requestTimeoutMs net repoUrl info Hparse).
    intros Hm. apply merge_activity_counts in Hm as [-> ->].
    assert (G : forall (o : option Js.number),
              (forall n, o = Some n ->
                 n <> Js.NaN /\ forall z, n = Js.Int z -> 0 <= z) ->
              default (Js.Int 0) o <> Js.NaN
              /\ forall z, default (Js.Int 0) o = Js.Int z -> 0 <= z).
    { intros [n |] H; [exact (H n eq_refl) |].
      cbn. split; [discriminate | intros z [= <-]; lia]. }
    split; apply G; intros n.
    + unfold fetchOpenPRsCount. cbn [run fst mbind io_bind bind rateLimitedFetch].
      destruct (net SPulls _) as [resp | e]; [| discriminate].
      apply count_of_response_natural.
    + unfold fetchContributorsCount.
      cbn [run fst mbind io_bind bind rateLimitedFetch].
      destruct (net SContributors _) as [resp | e]; [| discriminate].
      apply count_of_response_natural.
  - unfold activitySnapshot. rewrite Hparse. discriminate.
Qed.

(** X25.  An overview call that answers 2xx with a body that parses:
    the stars are the stargazers, not the watchers; [topics] is a list
    also when the answer has none; [license] is the SPDX identifier, and
    null when the repository has no license; the source is the URL that
    was called; and there is neither a warning nor a cursor. *)
Theorem repoOverview_success_fields (net : upstream) (repoUrl : string)
    (info : ParsedRepoInfo) (response : Response (body_of SRepo))
    (data : GitHubRepoResponse) :
  parseRepoUrl new_URL repoUrl = Some info ->
  let api := repo_api_url (pr_owner info) (pr_repo info) in
  net SRepo api = Ok response ->
  ok response = true ->
  body response = Ok data ->
  exists d meta,
    fst (run net (repoOverview new_URL now requestTimeoutMs repoUrl))
    = SuccessResponse d meta
    /\ ov_stars d = stargazers_count data
    /\ ov_forks d = forks_count data
    /\ (topics data = None -> ov_topics d = [])
    /\ (forall l, topics data = Some l -> ov_topics d = l)
    /\ (license data = None -> ov_license d = None)
    /\ (forall lic, license data = Some lic -> ov_license d = Some (spdx_id lic))
    /\ ov_default_branch d = default_branch data
    /\ ov_owner d = owner data
    /\ source meta = Some api
    /\ warnings meta = []
    /\ next_cursor meta = None.
Proof.
  intros Hparse api Hnet Hok Hbody.
  unfold repoOverview. rewrite Hparse.
  cbn [run fst mbind io_bind bind rateLimitedFetch]. fold api.
  rewrite Hnet. unfold body_of in *.
  pose proof Hok as Hrange. unfold ok in Hrange.
  apply andb_prop in Hrange as [H200 H299]. apply Z.leb_le in H200, H299.
  replace (status response =? 404) with false by (symmetry; apply Z.eqb_neq; lia).
  replace (status response =? 403) with false by (symmetry; apply Z.eqb_neq; lia).
  rewrite Hok, Hbody. cbn [negb]. unfold createSuccessResponse.
  eexists _, _. split; [reflexivity |].
  cbn [ov_stars ov_forks ov_topics ov_license ov_default_branch ov_owner source
       warnings next_cursor opt_source opt_warnings opt_next_cursor default].
  repeat split; try reflexivity.
  - intros ->. reflexivity.
  - intros l ->. reflexivity.
  - intros ->. reflexivity.
  - intros lic ->. reflexivity.
  - destruct (owner data). reflexivity.
Qed.

End MoreToolTheorems2.

(** ** More on the throttle *)

Module ThrottleFacts.
Import RateLimiter.

Lemma run_events_app (d : Z) (l1 l2 : list event) (st : state) :
  run_events d (l1 ++ l2) st = run_events d l2 (run_events d l1 st).
Proof. apply fold_left_app. Qed.

Lemma run_events_cons (d : Z) (e : event) (l : list event) (st : state) :
  run_events d (e :: l) st = run_events d l (step d st e).
Proof. reflexivity. Qed.

Lemma run_events_nil (d : Z) (st : state) : run_events d [] st = st.
Proof. reflexivity. Qed.

Lemma elapse_idle (ms c last : Z) (log : list (nat * Z)) :
  elapse ms {| clock := c; lastRequestTime := last; timers := [];
               dispatched := log |}
  = {| clock := Z.max c (c + ms); lastRequestTime := last; timers := [];
       dispatched := log |}.
Proof. reflexivity. Qed.

(** X13.  A delay of zero or less switches the throttle off: whatever
    the callers and the pauses between them, at no point of the run is a
    caller waiting on a timer, and the callers are dispatched in the
    order in which they entered. *)
Theorem no_throttle_without_positive_delay (d : Z) (evs : list event)
    (st : state) :
  d <= 0 -> timers st = [] -> lastRequestTime st <= clock st ->
  (forall pre post, evs = (pre ++ post)%list -> timers (run_events d pre st) = [])
  /\ map fst (dispatched (run_events d evs st))
     = (map fst (dispatched st) ++ Throttle.callers evs)%list.
Proof.
  intros Hd Ht Hl.
  assert (Inv : forall l s, timers s = [] -> lastRequestTime s <= clock s ->
                  timers (run_events d l s) = []
                  /\ lastRequestTime (run_events d l s) <= clock (run_events d l s)
                  /\ map fst (dispatched (run_events d l s))
                     = (map fst (dispatched s) ++ Throttle.callers l)%list).
  { clear -Hd. intros l. unfold run_events.
    induction l as [| e l IH]; intros s Hs1 Hs2.
    - cbn. rewrite app_nil_r. auto.
    - cbn [fold_left]. destruct e as [id | ms]; cbn [step].
      + rewrite RateLimiterFacts.enter_at_once by lia.
        destruct (IH (dispatch id s)) as (H1 & H2 & H3);
          [exact Hs1 | cbn; lia |].
        split; [exact H1 |]. split; [exact H2 |].
        rewrite H3. unfold dispatch. cbn [dispatched].
        rewrite map_app, <- app_assoc. reflexivity.
      + destruct s as [c last tm log]. cbn [timers] in Hs1. subst tm.
        rewrite elapse_idle.
        destruct (IH {| clock := Z.max c (c + ms); lastRequestTime := last;
                        timers := []; dispatched := log |}) as (H1 & H2 & H3);
          [reflexivity | cbn in *; lia |].
        split; [exact H1 |]. split; [exact H2 |]. exact H3. }
  split.
  - intros pre post _. exact (proj1 (Inv pre st Ht Hl)).
  - exact (proj2 (proj2 (Inv evs st Ht Hl))).
Qed.

End ThrottleFacts.

(** ** The throttle with timers as they come *)

Module EventLoopFacts.
Import RateLimiter EventLoop.

(** Callers that find the last request too recent each set a timer for
    the same moment. *)
Lemma burst_waits (d c last : Z) (ids : list nat) :
  c - last < d ->
  forall l log,
    run d (map Enter ids)
      {| clock := c; lastRequestTime := last; timers := l; dispatched := log |}
    = {| clock := c; lastRequestTime := last;
         timers := (l ++ map (fun id => (last + d, id)) ids)%list;
         dispatched := log |}.
Proof.
  intros Hlt. unfold run.
  induction ids as [| id ids IH]; intros l log; cbn [map fold_left step].
  - rewrite app_nil_r. reflexivity.
  - rewrite RateLimiterFacts.enter_sleeps by (cbn; exact Hlt).
    cbn [clock lastRequestTime timers dispatched].
    rewrite IH, <- app_assoc. reflexivity.
Qed.

(** X12.  A burst: callers that enter [rateLimitedFetch] in one turn of
    the event loop, with a positive delay.  If the last request is less
    than one delay old, every caller of the burst sets a timer, and all
    these timers are due at the same instant, one delay after the last
    request.  Otherwise the first caller leaves at once, and every other
    caller sets a timer for one delay after that.  So however many
    callers there are, the timers of a burst are due together: the
    throttle asks for no gap between the callers that wait. *)
Theorem burst_sets_one_due_time (d : Z) (ids : list nat) (st : state) :
  0 < d ->
  let st' := run d (map Enter ids) st in
  (clock st - lastRequestTime st < d ->
   st' = {| clock := clock st;
            lastRequestTime := lastRequestTime st;
            timers :=
              (timers st ++ map (fun id => (lastRequestTime st + d, id)) ids)%list;
            dispatched := dispatched st |})
  /\ (d <= clock st - lastRequestTime st ->
      match ids with
      | [] => st' = st
      | id :: rest =>
          st' = {| clock := clock st;
                   lastRequestTime := clock st;
                   timers := (timers st ++ map (fun i => (clock st + d, i)) rest)%list;
                   dispatched := (dispatched st ++ [(id, clock st)])%list |}
      end).
Proof.
  intros Hd st'. destruct st as [c last tm log]. subst st'.
  cbn [clock lastRequestTime timers dispatched]. split.
  - intros Hlt. apply burst_waits, Hlt.
  - intros Hge. destruct ids as [| id rest]; [reflexivity |].
    cbn [map]. unfold run. cbn [fold_left step].
    rewrite RateLimiterFacts.enter_at_once by (cbn; exact Hge).
    unfold dispatch. cbn [clock lastRequestTime timers dispatched].
    apply (burst_waits d c c rest). lia.
Qed.

Lemma dispatch_spaced (early d : Z) (id : nat) (c last : Z)
    (log : list (nat * Z)) :
  0 <= early -> last <= c -> last + d - early <= c ->
  spaced (d - early) (map snd log) ->
  Forall (fun x => x <= last) (map snd log) ->
  spaced_so_far early d
    {| clock := c; lastRequestTime := c; timers := [];
       dispatched := (log ++ [(id, c)])%list |}.
Proof.
  intros He Hc Hdue Hs Hall. unfold spaced_so_far, dispatch_times.
  cbn [clock lastRequestTime timers dispatched].
  rewrite RateLimiterFacts.dispatch_times_snoc.
  split; [lia |]. split; [| split; [| left; reflexivity]].
  - apply RateLimiterFacts.spaced_snoc; [exact Hs |].
    eapply List.Forall_impl; [| exact Hall]. cbn beta. intros; lia.
  - apply List.Forall_app. split.
    + eapply List.Forall_impl; [| exact Hall]. cbn beta. intros; lia.
    + repeat constructor. lia.
Qed.

Lemma step_spaced (early d : Z) (e : event) (st : state) :
  0 <= early ->
  spaced_so_far early d st ->
  match e with
  | Enter _ => timers st = []
  | Pass ms => 0 <= ms
  | Resume id =>
      exists due, waiting id (timers st) = Some due /\ due - early <= clock st
  end ->
  spaced_so_far early d (step d st e).
Proof.
  intros He (Hc & Hs & Hall & Ht) Hev.
  destruct st as [c last tm log]. unfold dispatch_times in *.
  cbn [clock lastRequestTime timers dispatched] in *.
  destruct e as [id | ms | id]; cbn [step].
  - subst tm. destruct (Z.lt_ge_cases (c - last) d) as [Hlt | Hge].
    + rewrite RateLimiterFacts.enter_sleeps by exact Hlt.
      unfold spaced_so_far, dispatch_times.
      cbn [clock lastRequestTime timers dispatched app].
      split; [exact Hc |]. split; [exact Hs |]. split; [exact Hall |].
      right. exists id. reflexivity.
    + rewrite RateLimiterFacts.enter_at_once by exact Hge.
      unfold dispatch. cbn [clock lastRequestTime timers dispatched].
      apply (dispatch_spaced early d id c last); try assumption. lia.
  - unfold pass, spaced_so_far, dispatch_times.
    cbn [clock lastRequestTime timers dispatched].
    split; [lia |]. split; [exact Hs |]. split; [exact Hall |]. exact Ht.
  - destruct Hev as (due & Hw & Hdue).
    destruct Ht as [-> | (id' & ->)]; [discriminate |].
    unfold resume. cbn [timers waiting cleared] in *.
    destruct (Nat.eqb id' id); [| discriminate].
    injection Hw as <-.
    unfold dispatch. cbn [clock lastRequestTime timers dispatched].
    apply (dispatch_spaced early d id c last); assumption.
Qed.

(** X11.  Callers that do not overlap, with timers as they come.  In a
    run in which a caller enters only when none is waiting, the clock does
    not go back and no timer fires more than [early] before it is due,
    successive calls leave at least the delay less [early] apart: the
    full delay with timers that are never early, and one millisecond less
    with timers that fire up to a millisecond early.  At most one caller
    is waiting at any time, for one delay after the last request. *)
Theorem non_overlapping_calls_are_spaced (early d : Z) (evs : list event)
    (st : state) :
  0 <= early ->
  settled (d - early) st ->
  orderly early d evs st ->
  let st' := run d evs st in
  spaced (d - early) (dispatch_times st')
  /\ (timers st' = [] \/ exists id, timers st' = [(lastRequestTime st' + d, id)]).
Proof.
  intros He (Ht & Hc & Hs & Hall) Ho.
  assert (Hinv : spaced_so_far early d st)
    by (split; [exact Hc |]; split; [exact Hs |]; split; [exact Hall |];
        left; exact Ht).
  clear Ht Hc Hs Hall. cbn zeta. unfold run.
  revert st Ho Hinv. induction evs as [| e evs IH]; intros st Ho Hinv.
  - cbn [fold_left]. destruct Hinv as (_ & Hs & _ & Ht). split; assumption.
  - cbn [fold_left]. destruct Ho as [Hev Ho].
    apply IH; [exact Ho |]. apply step_spaced; assumption.
Qed.

End EventLoopFacts.

(** ** The configuration *)

Module ConfigFacts.
Import Config.

(** The digits [parseInt] reads stop at the first character that is no
    decimal digit. *)
Lemma read_digits_prefix (ds rest : string) (acc : Z) (n : nat) :
  Spec.all_digits ds = true ->
  match rest with
  | "" => True
  | String c _ => Js.is_digit c = false
  end ->
  Js.read_digits 10 acc n (ds +:+ rest) =
  (fold_left (fun a c => 10 * a + (Js.code c - 48)) (list_ascii_of_string ds) acc,
   (n + String.length ds)%nat).
Proof.
  revert acc n. induction ds as [| c ds IH]; intros acc n Hd Hrest.
  - rewrite string_app_nil_l. cbn [list_ascii_of_string fold_left String.length].
    rewrite Nat.add_0_r. destruct rest as [| c rest]; [reflexivity |].
    cbn [Js.read_digits]. unfold Js.digit_value. fold (Js.is_digit c).
    rewrite Hrest.
    destruct ((97 <=? Js.code c) && (Js.code c <=? 122)) eqn:E1.
    + apply andb_prop in E1 as [E1 _]. apply Z.leb_le in E1.
      replace (Js.code c - 87 <? 10) with false
        by (symmetry; apply Z.ltb_ge; lia).
      reflexivity.
    + destruct ((65 <=? Js.code c) && (Js.code c <=? 90)) eqn:E2; [| reflexivity].
      apply andb_prop in E2 as [E2 _]. apply Z.leb_le in E2.
      replace (Js.code c - 55 <? 10) with false
        by (symmetry; apply Z.ltb_ge; lia).
      reflexivity.
  - unfold Spec.all_digits in Hd. cbn [list_ascii_of_string forallb] in Hd.
    apply andb_prop in Hd as [Hc Hds].
    rewrite string_app_cons.
    cbn [Js.read_digits list_ascii_of_string fold_left String.length].
    rewrite (digit_value_digit c Hc). apply is_digit_code in Hc.
    replace (Js.code c - 48 <? 10) with true by (symmetry; apply Z.ltb_lt; lia).
    rewrite IH by assumption. f_equal. lia.
Qed.

Lemma trim_start_digit (c : ascii) (s : string) :
  Js.is_white c = false -> Js.trim_start (String c s) = String c s.
Proof. intros H. cbn [Js.trim_start]. rewrite H. reflexivity. Qed.

Lemma digit_not_white (c : ascii) : Js.is_digit c = true -> Js.is_white c = false.
Proof.
  intros H. apply is_digit_code in H. unfold Js.is_white.
  replace ((9 <=? Js.code c) && (Js.code c <=? 13)) with false
    by (symmetry; apply andb_false_iff; right; apply Z.leb_gt; lia).
  replace (Js.code c =? 32) with false by (symmetry; apply Z.eqb_neq; lia).
  replace (Js.code c =? 160) with false by (symmetry; apply Z.eqb_neq; lia).
  reflexivity.
Qed.

(** [parseInt(s, 10)] of a text that begins with decimal digits is the
    number those digits write, whatever follows them. *)
Lemma parseInt_10_prefix (ds rest : string) :
  ds <> "" -> Spec.all_digits ds = true ->
  match rest with
  | "" => True
  | String c _ => Js.is_digit c = false
  end ->
  Js.parseInt (ds +:+ rest) 10 = Js.Int (Spec.decimal ds)
  /\ Js.parseInt ("-" +:+ ds +:+ rest) 10 = Js.Int (- Spec.decimal ds).
Proof.
  intros Hne Hd Hrest. destruct ds as [| c ds]; [contradiction |].
  pose proof Hd as Hd'. unfold Spec.all_digits in Hd'.
  cbn [list_ascii_of_string forallb] in Hd'. apply andb_prop in Hd' as [Hc _].
  pose proof (digit_not_white c Hc) as Hw. apply is_digit_code in Hc.
  pose proof (read_digits_prefix (String c ds) rest 0 0 Hd Hrest) as Hr.
  split.
  - unfold Js.parseInt. rewrite string_app_cons, trim_start_digit by exact Hw.
    unfold Js.read_sign.
    rewrite (ascii_eqb_code c "-") by (change (Js.code "-") with 45; lia).
    rewrite (ascii_eqb_code c "+") by (change (Js.code "+") with 43; lia).
    cbn [Z.eqb Z.ltb Z.compare Pos.compare Pos.compare_cont Pos.eqb negb andb orb].
    rewrite <- string_app_cons, Hr. cbn [Nat.add String.length].
    unfold Spec.decimal. f_equal; lia.
  - unfold Js.parseInt.
    change ("-" +:+ String c ds +:+ rest) with (String "-" (String c ds +:+ rest)).
    rewrite trim_start_digit by reflexivity.
    unfold Js.read_sign. rewrite Ascii.eqb_refl.
    cbn [Z.eqb Z.ltb Z.compare Pos.compare Pos.compare_cont Pos.eqb negb andb orb].
    rewrite Hr. cbn [Nat.add String.length].
    unfold Spec.decimal. f_equal; lia.
Qed.

(** [parseInt(s, 10)] of a text that begins with neither white space, nor
    a sign, nor a decimal digit is [NaN]. *)
Lemma parseInt_10_no_number (c : ascii) (rest : string) :
  Js.is_white c = false -> c <> "-"%char -> c <> "+"%char ->
  Js.is_digit c = false ->
  Js.parseInt (String c rest) 10 = Js.NaN.
Proof.
  intros Hw Hm Hp Hd. unfold Js.parseInt.
  rewrite trim_start_digit by exact Hw. unfold Js.read_sign.
  rewrite (proj2 (Ascii.eqb_neq c "-") Hm), (proj2 (Ascii.eqb_neq c "+") Hp).
  cbn [Z.eqb Z.ltb Z.compare Pos.compare Pos.compare_cont Pos.eqb negb andb orb].
  pose proof (read_digits_prefix "" (String c rest) 0 0 eq_refl Hd) as Hr.
  rewrite string_app_nil_l in Hr. rewrite Hr. reflexivity.
Qed.

(** X14.  A numeric setting is read with [parseInt(value, 10)] and is not
    checked further.  A variable that is not set, is empty, or begins with
    something that is no number gives the default.  A value that begins
    with decimal digits gives the number they write and ignores what
    follows them ([30000ms] is 30000, [1e3] is 1, [0x10] is 0); a leading
    minus sign is accepted, so a setting can be negative. *)
Theorem getEnvNumber_reads_leading_integer (env : Env) (key : string)
    (defaultValue : Z) :
  (env !! key = None -> getEnvNumber env key defaultValue = defaultValue)
  /\ (env !! key = Some "" -> getEnvNumber env key defaultValue = defaultValue)
  /\ (forall c rest,
        env !! key = Some (String c rest) ->
        Js.is_white c = false -> c <> "-"%char -> c <> "+"%char ->
        Js.is_digit c = false ->
        getEnvNumber env key defaultValue = defaultValue)
  /\ (forall ds rest,
        ds <> "" -> Spec.all_digits ds = true -> Spec.decimal ds <= 2 ^ 53 ->
        match rest with
        | "" => True
        | String c _ => Js.is_digit c = false
        end ->
        (env !! key = Some (ds +:+ rest) ->
         getEnvNumber env key defaultValue = Spec.decimal ds)
        /\ (env !! key = Some ("-" +:+ ds +:+ rest) ->
            getEnvNumber env key defaultValue = - Spec.decimal ds)).
Proof.
  unfold getEnvNumber. split; [| split; [| split]].
  - intros ->. reflexivity.
  - intros ->. reflexivity.
  - intros c rest -> Hw Hm Hp Hd.
    rewrite (parseInt_10_no_number c rest Hw Hm Hp Hd). reflexivity.
  - intros ds rest Hne Hd _ Hrest.
    destruct (parseInt_10_prefix ds rest Hne Hd Hrest) as [H1 H2].
    split; intros ->; [rewrite H1 | rewrite H2]; reflexivity.
Qed.

Lemma step_loaded (c : Config) (env1 env2 : Env) (k : call) :
  k <> CallReset ->
  step (Some c) (env1, k) = step (Some c) (env2, k)
  /\ exists c', snd (step (Some c) (env1, k)) = Some c'.
Proof.
  intros Hk. destruct k as [| p |]; [| | contradiction].
  - split; [reflexivity | exists c; reflexivity].
  - split; [reflexivity | eexists; reflexivity].
Qed.

(** X15.  The environment is read once.  From the moment a
    configuration is held, a sequence of [getConfig] and [setConfig]
    calls returns the same configurations and ends in the same state
    whatever the environment is at each call.  Only [resetConfig] makes
    the next call read the environment again, and it also drops what
    [setConfig] had set. *)
Theorem environment_is_read_once (cs1 cs2 : list (Env * call)) (c : Config) :
  map snd cs1 = map snd cs2 ->
  Forall (fun x => snd x <> CallReset) cs1 ->
  run_calls cs1 (Some c) = run_calls cs2 (Some c)
  /\ forall env1 env2 env3 p inst,
       run_calls [(env1, CallSet p); (env2, CallReset); (env3, CallGet)] inst
       = ([None; None; Some (loadConfig env3)], Some (loadConfig env3)).
Proof.
  intros Hsame Hno. split; [| reflexivity].
  revert cs2 c Hsame.
  induction cs1 as [| [env1 k] cs1 IH]; intros [| [env2 k2] cs2] c Hsame;
    try discriminate; [reflexivity |].
  cbn [map snd] in Hsame. injection Hsame as <- Hsame.
  inversion Hno as [| ? ? Hk Hno']; subst. cbn [snd] in Hk.
  destruct (step_loaded c env1 env2 k Hk) as [Heq (c' & Hc')].
  cbn [run_calls]. rewrite <- Heq.
  destruct (step (Some c) (env1, k)) as [out inst]. cbn [snd] in Hc'. subst inst.
  rewrite (IH Hno' cs2 c' Hsame). reflexivity.
Qed.

(** X16.  Two [setConfig] calls in a row amount to one, with the second
    argument spread over the first; the environment at the second call
    plays no part. *)
Theorem setConfig_twice (env1 env2 : Env) (p q : PartialConfig)
    (inst : option Config) :
  setConfig env2 q (setConfig env1 p inst)
  = setConfig env1
      {| set_githubToken :=
           match set_githubToken q with Some v => Some v | None => set_githubToken p end;
         set_requestDelayMs :=
           match set_requestDelayMs q with Some v => Some v | None => set_requestDelayMs p end;
         set_requestTimeoutMs :=
           match set_requestTimeoutMs q with Some v => Some v | None => set_requestTimeoutMs p end;
         set_transportMode :=
           match set_transportMode q with Some v => Some v | None => set_transportMode p end;
         set_httpPort :=
           match set_httpPort q with Some v => Some v | None => set_httpPort p end;
         set_userAgent :=
           match set_userAgent q with Some v => Some v | None => set_userAgent p end |}
      inst.
Proof.
  unfold setConfig, spread. cbn [getConfig fst].
  destruct q as [[?|] [?|] [?|] [?|] [?|] [?|]]; cbn; reflexivity.
Qed.

(** X17.  The headers [rateLimitedFetch] sends.  With a token that is a
    non-empty string the [Authorization] header is [Bearer <token>],
    whatever headers the caller passed; with no token, or an empty one,
    none is added and the caller's own, if any, stays.  [User-Agent] and
    [Accept] are defaults, which a header of the caller replaces.  With
    no headers from the caller, as in the four tools, nothing else is
    sent. *)
Theorem request_headers_sent (config : Config)
    (options_headers : option (gmap string string)) :
  let h := request_headers config options_headers in
  let given := default ∅ options_headers in
  (forall t, githubToken config = Some t -> t <> "" ->
     h !! "Authorization" = Some ("Bearer " +:+ t))
  /\ (githubToken config = None \/ githubToken config = Some "" ->
      h !! "Authorization" = given !! "Authorization")
  /\ h !! "User-Agent" = Some (default (userAgent config) (given !! "User-Agent"))
  /\ h !! "Accept"
     = Some (default "application/vnd.github.v3+json" (given !! "Accept"))
  /\ (options_headers = None ->
      forall name, is_Some (h !! name) ->
        name = "User-Agent" \/ name = "Accept"
        \/ (name = "Authorization" /\ Js.truthy (githubToken config) = true)).
Proof.
  intros h given. unfold h, request_headers. fold given.
  set (base := ({[ "User-Agent" := userAgent config;
                   "Accept" := "application/vnd.github.v3+json" ]}
                : gmap string string)).
  assert (Hua : (given ∪ base) !! "User-Agent"
                = Some (default (userAgent config) (given !! "User-Agent"))).
  { rewrite lookup_union. destruct (given !! "User-Agent"); reflexivity. }
  assert (Hacc : (given ∪ base) !! "Accept"
                 = Some (default "application/vnd.github.v3+json" (given !! "Accept"))).
  { rewrite lookup_union. destruct (given !! "Accept"); reflexivity. }
  assert (Hauth : (given ∪ base) !! "Authorization" = given !! "Authorization").
  { rewrite lookup_union. destruct (given !! "Authorization"); reflexivity. }
  split; [| split; [| split; [| split]]].
  - intros t -> Hne. replace (Js.truthy (Some t)) with true
      by (destruct t; [contradiction | reflexivity]).
    rewrite lookup_insert. reflexivity.
  - intros [-> | ->]; exact Hauth.
  - destruct (Js.truthy _); [rewrite lookup_insert_ne by discriminate |]; exact Hua.
  - destruct (Js.truthy _); [rewrite lookup_insert_ne by discriminate |]; exact Hacc.
  - intros -> name [v Hv]. subst given. cbn [default] in *.
    assert (Hb : forall w, (∅ ∪ base) !! name = Some w ->
                           name = "User-Agent" \/ name = "Accept").
    { intros w. rewrite (left_id_L ∅ (∪)). unfold base.
      intros Hw. apply lookup_insert_Some in Hw as [[<- _] | [_ Hw]]; [now left |].
      apply lookup_singleton_Some in Hw as [<- _]. now right. }
    destruct (Js.truthy (githubToken config)) eqn:Et.
    + apply lookup_insert_Some in Hv as [[<- _] | [_ Hv]].
      * right. right. split; reflexivity.
      * destruct (Hb v Hv); auto.
    + destruct (Hb v Hv); auto.
Qed.

End ConfigFacts.
(** ** The command line *)

Module CliFacts.
Import Cli.

Lemma scan_help (args : list string) (mode : string) :
  scan args mode = None <-> exists arg, In arg args /\ asks_help arg = true.
Proof.
  revert mode. induction args as [| a args IH]; intros mode; cbn [scan].
  - split; [discriminate | intros (? & [] & _)].
  - unfold asks_help in *.
    destruct (String.eqb a "--stdio") eqn:E1.
    { apply String.eqb_eq in E1. subst a. rewrite IH. split.
      - intros (x & Hx & Hh). exists x. split; [now right | exact Hh].
      - intros (x & [<- | Hx] & Hh); [discriminate | eauto]. }
    destruct (String.eqb a "--http") eqn:E2.
    { apply String.eqb_eq in E2. subst a. rewrite IH. split.
      - intros (x & Hx & Hh). exists x. split; [now right | exact Hh].
      - intros (x & [<- | Hx] & Hh); [discriminate | eauto]. }
    destruct (String.eqb a "--help" || String.eqb a "-h") eqn:E3.
    { split; [intros _; exists a; split; [now left | exact E3] | reflexivity]. }
    rewrite IH. split.
    + intros (x & Hx & Hh). exists x. split; [now right | exact Hh].
    + intros (x & [<- | Hx] & Hh); [congruence | eauto].
Qed.

Lemma scan_last (args : list string) (mode m : string) :
  scan args mode = Some m ->
  (Forall (fun a => sets_transport a = false) args /\ m = mode)
  \/ exists pre flag post,
       args = (pre ++ flag :: post)%list
       /\ Forall (fun a => sets_transport a = false) post
       /\ ((flag = "--stdio" /\ m = "stdio") \/ (flag = "--http" /\ m = "http")).
Proof.
  revert mode. induction args as [| a args IH]; intros mode; cbn [scan].
  - intros [= <-]. left. split; [constructor | reflexivity].
  - assert (Hflag : forall flag mode',
              a = flag ->
              ((flag = "--stdio" /\ mode' = "stdio")
               \/ (flag = "--http" /\ mode' = "http")) ->
              scan args mode' = Some m ->
              (Forall (fun a => sets_transport a = false) (a :: args) /\ m = mode)
              \/ exists pre flag post,
                   a :: args = (pre ++ flag :: post)%list
                   /\ Forall (fun a => sets_transport a = false) post
                   /\ ((flag = "--stdio" /\ m = "stdio")
                       \/ (flag = "--http" /\ m = "http"))).
    { intros flag mode' -> Hf Hs. right.
      destruct (IH mode' Hs) as [[Hall ->] | (pre & f & post & -> & Hpost & Hm)].
      - exists [], flag, args. auto.
      - exists (flag :: pre), f, post. auto. }
    destruct (String.eqb a "--stdio") eqn:E1.
    { apply String.eqb_eq in E1. apply (Hflag "--stdio" "stdio" E1). auto. }
    destruct (String.eqb a "--http") eqn:E2.
    { apply String.eqb_eq in E2. apply (Hflag "--http" "http" E2). auto. }
    destruct (String.eqb a "--help" || String.eqb a "-h"); [discriminate |].
    intros Hs.
    destruct (IH mode Hs) as [[Hall ->] | (pre & f & post & -> & Hpost & Hm)].
    + left. split; [| reflexivity]. constructor; [| exact Hall].
      unfold sets_transport. rewrite E1, E2. reflexivity.
    + right. exists (a :: pre), f, post. auto.
Qed.

(** X26.  The command line.  The usage is shown exactly when [--help]
    or [-h] is among the arguments, wherever it stands.  Otherwise the
    last of [--stdio] and [--http] decides the transport, and without
    either the configured transport mode does; the HTTP transport runs
    exactly when that transport is the string [http], so any other
    configured mode, an unknown one included, runs stdio. *)
Theorem main_chooses_transport (argv : list string) (config : Config.Config) :
  let args := skipn 2 argv in
  (main argv config = ShowHelp <-> exists arg, In arg args /\ asks_help arg = true)
  /\ (main argv config = RunHttp ->
      (Forall (fun a => sets_transport a = false) args
       /\ Config.transportMode config = "http")
      \/ exists pre post,
           args = (pre ++ "--http" :: post)%list
           /\ Forall (fun a => sets_transport a = false) post)
  /\ (main argv config = RunStdio ->
      (Forall (fun a => sets_transport a = false) args
       /\ Config.transportMode config <> "http")
      \/ exists pre post,
           args = (pre ++ "--stdio" :: post)%list
           /\ Forall (fun a => sets_transport a = false) post).
Proof.
  intros args. unfold main. fold args.
  pose proof (scan_help args (Config.transportMode config)) as Hh.
  destruct (scan args (Config.transportMode config)) as [m |] eqn:Es.
  - assert (Hno : ~ exists arg, In arg args /\ asks_help arg = true)
      by (intros H; apply Hh in H; discriminate).
    pose proof (scan_last args _ m Es) as Hl.
    destruct (String.eqb m "http") eqn:Em.
    + apply String.eqb_eq in Em. subst m.
      split; [split; [discriminate | intros H; contradiction] |].
      split; [| discriminate]. intros _.
      destruct Hl as [[Hall <-] | (pre & flag & post & Hargs & Hpost & [[_ H] | [-> _]])].
      * left. auto.
      * discriminate.
      * right. eauto.
    + apply String.eqb_neq in Em.
      split; [split; [discriminate | intros H; contradiction] |].
      split; [discriminate |]. intros _.
      destruct Hl as [[Hall ->] | (pre & flag & post & Hargs & Hpost & [[-> _] | [_ ->]])].
      * left. auto.
      * right. eauto.
      * contradiction.
  - split; [split; [intros _; apply Hh; reflexivity | reflexivity] |].
    split; discriminate.
Qed.

End CliFacts.

(** ** The handlers *)

Module ServerFacts.
Import Server.

Lemma equals_spec (v : option Json.value) (s : string) :
  Json.equals v s = true <-> v = Some (Json.JStr s).
Proof.
  unfold Json.equals. destruct v as [[] |]; try (split; [discriminate | congruence]).
  rewrite String.eqb_eq. split; congruence.
Qed.

Lemma run_then {A B} (net : upstream) (m : io A) (f : A -> B) :
  run net (x ← m; Ret (f x)) = (f (fst (run net m)), snd (run net m)).
Proof. rewrite run_bind. cbn [run fst snd]. rewrite app_nil_r. reflexivity. Qed.

Section HandlerTheorems.

Variable new_URL : string -> option URL.
Variable now : string.
Variable requestTimeoutMs : Z.

Lemma RepoUrlSchema_spec (v : option Json.value) (out : string) :
  RepoUrlSchema new_URL v = Some out <->
  v = Some (Json.JStr out)
  /\ exists u, new_URL out = Some u
               /\ (hostname u = "github.com" \/ hostname u = "www.github.com").
Proof using Type.
  unfold RepoUrlSchema, Zod.url, Zod.refine, Zod.z_string. split.
  - destruct v as [[] |]; try discriminate.
    destruct (new_URL s) as [u |] eqn:Eu; cbn; [| discriminate].
    rewrite Eu.
    destruct (String.eqb (hostname u) "github.com"
              || String.eqb (hostname u) "www.github.com") eqn:Eh; [| discriminate].
    intros [= <-]. split; [reflexivity |]. exists u. split; [exact Eu |].
    apply orb_true_iff in Eh. rewrite !String.eqb_eq in Eh. exact Eh.
  - intros [-> (u & Eu & Hh)]. rewrite Eu. cbn. rewrite Eu.
    replace (String.eqb (hostname u) "github.com"
             || String.eqb (hostname u) "www.github.com") with true; [reflexivity |].
    symmetry. apply orb_true_iff. rewrite !String.eqb_eq. exact Hh.
Qed.

(** X18.  The schema of [repo_url] and [parseRepoUrl].  The schema
    accepts a value exactly when it is a string that [new URL] reads and
    whose host is [github.com] or [www.github.com], and it hands the
    string on as it is.  So it accepts every string the parser accepts;
    what it accepts and the parser rejects are the GitHub URLs with fewer
    than two path segments, which the tools answer themselves. *)
Theorem schema_accepts_what_the_parser_accepts (url : string) :
  (forall v out,
     RepoUrlSchema new_URL v = Some out <->
     v = Some (Json.JStr out)
     /\ exists u, new_URL out = Some u
                  /\ (hostname u = "github.com" \/ hostname u = "www.github.com"))
  /\ (parseRepoUrl new_URL url <> None ->
      RepoUrlSchema new_URL (Some (Json.JStr url)) = Some url)
  /\ (RepoUrlSchema new_URL (Some (Json.JStr url)) = Some url
      /\ parseRepoUrl new_URL url = None
      <-> exists u,
            new_URL url = Some u
            /\ (hostname u = "github.com" \/ hostname u = "www.github.com")
            /\ (length (Spec.path_segments (pathname u)) < 2)%nat).
Proof using Type.
  split; [exact RepoUrlSchema_spec |]. split.
  - intros Hp. apply RepoUrlSchema_spec. split; [reflexivity |].
    rewrite parseRepoUrl_unfold in Hp.
    destruct (new_URL url) as [u |]; [| contradiction].
    exists u. split; [reflexivity |].
    destruct (negb _ && negb _) eqn:Eh; [contradiction |].
    apply github_host in Eh. exact Eh.
  - rewrite RepoUrlSchema_spec, parseRepoUrl_unfold. split.
    + intros [[_ (u & Eu & Hh)] Hp]. rewrite Eu in Hp. exists u.
      split; [exact Eu |]. split; [exact Hh |].
      apply github_host in Hh. rewrite Hh in Hp.
      destruct (Spec.path_segments (pathname u)) as [| o [| r rest]];
        [cbn; lia | cbn; lia | discriminate].
    + intros (u & Eu & Hh & Hlen). rewrite Eu. split.
      * split; [reflexivity |]. eauto.
      * apply github_host in Hh. rewrite Hh.
        destruct (Spec.path_segments (pathname u)) as [| o [| r rest]];
          [reflexivity | reflexivity | cbn in Hlen; lia].
Qed.

Lemma limit_schema (v : option Json.value) (n : Z) :
  Zod.default_ 5 (Zod.optional (Zod.max 100 (Zod.positive (Zod.int Zod.z_number)))) v
    = Some n ->
  1 <= n <= 100
  /\ (v = None -> n = 5)
  /\ (forall w, v = Some w -> w = Json.JNum (Json.Integer n)).
Proof.
  unfold Zod.default_, Zod.optional, Zod.max, Zod.positive, Zod.int, Zod.refine,
    Zod.z_number.
  destruct v as [w |].
  - destruct w as [| | [k | t] | | |]; try discriminate.
    destruct (0 <? k) eqn:E1; [| discriminate].
    destruct (k <=? 100) eqn:E2; [| discriminate].
    intros [= <-]. apply Z.ltb_lt in E1. apply Z.leb_le in E2.
    split; [lia |]. split; [discriminate | intros w [= <-]; reflexivity].
  - intros [= <-]. split; [lia |]. split; [reflexivity | discriminate].
Qed.

Lemma tools_call_nothing_without_reference (net : upstream) (url : string)
    (paths : option (list string)) (limit : option Js.double) :
  parseRepoUrl new_URL url = None ->
  run net (repoOverview new_URL now requestTimeoutMs url)
    = (invalid_url now url, [])
  /\ run net (extractKeyFiles new_URL now url paths) = (invalid_url now url, [])
  /\ run net (releaseNotes new_URL now requestTimeoutMs url limit)
     = (invalid_url now url, [])
  /\ run net (activitySnapshot new_URL now requestTimeoutMs url) = (invalid_url now url, []).
Proof.
  intros H. unfold repoOverview, extractKeyFiles, releaseNotes, activitySnapshot.
  rewrite H. repeat split.
Qed.

(** X19.  Arguments that [ReleaseNotesInputSchema] accepts carry a limit
    from 1 to 100: the whole number that was given, or 5 when none was.
    The release-notes tool, called by a handler with such arguments,
    never answers with its own [Limit must be between 1 and 100]: if its
    envelope is [INVALID_INPUT], it is the one for a URL that names no
    repository. *)
Theorem schema_bounds_the_limit (net : upstream) (message : string)
    (args : option Json.value) (data : ReleaseNotesInput) :
  ReleaseNotesInputSchema new_URL args = Some data ->
  1 <= rn_limit data <= 100
  /\ (Json.get_opt args "limit" = None -> rn_limit data = 5)
  /\ (forall w, Json.get_opt args "limit" = Some w ->
        w = Json.JNum (Json.Integer (rn_limit data)))
  /\ (let r := fst (run net (case_release_notes new_URL now requestTimeoutMs
                               message args)) in
      result_code r = Some INVALID_INPUT ->
      r = ReleasesResult (invalid_url now (rn_repo_url data))).
Proof.
  intros Hs.
  assert (Hl : Zod.default_ 5
                 (Zod.optional (Zod.max 100 (Zod.positive (Zod.int Zod.z_number))))
                 (Json.get_opt args "limit") = Some (rn_limit data)).
  { unfold ReleaseNotesInputSchema, Zod.object, Zod.field in Hs.
    destruct args as [[| | | | | members] |]; try discriminate.
    cbn [mbind option_bind] in Hs.
    destruct (RepoUrlSchema new_URL _); [| discriminate]. cbn in Hs.
    cbn [Json.get_opt Json.get].
    destruct (Zod.default_ _ _ _) as [n |]; [| discriminate].
    cbn in Hs. injection Hs as <-. reflexivity. }
  destruct (limit_schema _ _ Hl) as (H1 & H2 & H3).
  split; [exact H1 |]. split; [exact H2 |]. split; [exact H3 |].
  unfold case_release_notes. rewrite Hs, run_then. cbn [fst result_code].
  destruct (parseRepoUrl new_URL (rn_repo_url data)) as [info |] eqn:Hp.
  - intros Hc. exfalso.
    assert (Hacc : Spec.limit_accepted
                     (default (Js.Whole 5) (Some (Js.Whole (rn_limit data)))))
      by (split; cbn; apply Z.ltb_ge; lia).
    assert (Hk : Outcome.classified
                   (net SReleases
                      (repo_api_url (pr_owner info) (pr_repo info)
                         +:+ "/releases?per_page="
                         +:+ Js.double_to_string
                               (default (Js.Whole 5)
                                  (Some (Js.Whole (rn_limit data))))))
                   (fst (run net (releaseNotes new_URL now requestTimeoutMs
                                    (rn_repo_url data)
                                    (Some (Js.Whole (rn_limit data)))))))
      by (apply (releaseNotes_classified new_URL now requestTimeoutMs
                   net _ (Some (Js.Whole (rn_limit data))) info Hp Hacc)).
    exact (proj1 (Outcome.no_other_code _ _ Hk) Hc).
  - intros _.
    destruct (tools_call_nothing_without_reference net _ None (Some (Js.Whole (rn_limit data))) Hp)
      as (_ & _ & -> & _).
    reflexivity.
Qed.

Lemma key_files_never_invalid (net : upstream) (url : string)
    (paths : option (list string)) (info : ParsedRepoInfo) :
  parseRepoUrl new_URL url = Some info ->
  error_code (fst (run net (extractKeyFiles new_URL now url paths)))
  <> Some INVALID_INPUT.
Proof.
  intros Hp. rewrite (run_extractKeyFiles new_URL now net url paths info Hp).
  destruct (Js.truthy _); discriminate.
Qed.

Lemma activity_never_invalid (net : upstream) (url : string)
    (info : ParsedRepoInfo) :
  parseRepoUrl new_URL url = Some info ->
  error_code (fst (run net (activitySnapshot new_URL now requestTimeoutMs url))) <> Some INVALID_INPUT.
Proof.
  intros Hp. rewrite (run_activitySnapshot new_URL now requestTimeoutMs net url info Hp).
  destruct (fst (run net (fetchRepoInfo _ _))) as [rd |]; [| discriminate].
  match goal with
  | |- error_code (merge_activity _ _ _ _ ?lc ?p ?c) <> _ =>
      destruct (merge_activity_fetched now requestTimeoutMs info rd lc p c)
        as [[H | H] _]
  end; rewrite H; discriminate.
Qed.

Lemma schema_repo_url {A} (rest : string -> Json.value -> option A)
    (args : option Json.value) (data : A) :
  Zod.object (fun o => repo_url ← Zod.field "repo_url" (RepoUrlSchema new_URL) o;
                       rest repo_url o) args = Some data ->
  exists url o,
    args = Some o
    /\ Json.get_opt args "repo_url" = Some (Json.JStr url)
    /\ RepoUrlSchema new_URL (Some (Json.JStr url)) = Some url
    /\ rest url o = Some data.
Proof using Type.
  unfold Zod.object, Zod.field.
  destruct args as [[| | | | | members] |]; try discriminate.
  cbn [mbind option_bind].
  destruct (RepoUrlSchema new_URL _) as [url |] eqn:E; [| discriminate].
  cbn [option_bind]. intros H.
  pose proof (proj1 (RepoUrlSchema_spec _ _) E) as [Hv _].
  exists url, (Json.JObj members). cbn [Json.get_opt]. rewrite Hv in *.
  auto.
Qed.

Lemma case_repo_overview_outcome (net : upstream) (message : string)
    (args : option Json.value) :
  case_outcome new_URL args
    (run net (case_repo_overview new_URL now requestTimeoutMs message args)).
Proof.
  unfold case_repo_overview.
  destruct (RepoOverviewInputSchema new_URL args) as [data |] eqn:Hs.
  - apply schema_repo_url in Hs as (url & o & _ & Hurl & _ & [= <-]).
    cbn [ro_repo_url]. rewrite run_then.
    destruct (parseRepoUrl new_URL url) as [info |] eqn:Hp.
    + split; cbn [fst snd result_code].
      * intros _. exists url. split; [exact Hurl | congruence].
      * intros Hc. exfalso.
        exact (proj1 (Outcome.no_other_code _ _
                        (repoOverview_classified new_URL now requestTimeoutMs
                           net url info Hp)) Hc).
    + destruct (tools_call_nothing_without_reference net url None None Hp) as (-> & _).
      split; cbn [fst snd]; [contradiction | reflexivity].
  - split; cbn; [contradiction | reflexivity].
Qed.

Lemma case_extract_key_files_outcome (net : upstream) (message : string)
    (args : option Json.value) :
  case_outcome new_URL args
    (run net (case_extract_key_files new_URL now message args)).
Proof.
  unfold case_extract_key_files.
  destruct (ExtractKeyFilesInputSchema new_URL args) as [data |] eqn:Hs.
  - apply schema_repo_url in Hs as (url & o & _ & Hurl & _ & Hrest).
    destruct (Zod.field "paths" _ o) as [paths |]; [| discriminate].
    cbn in Hrest. injection Hrest as <-.
    cbn [kf_repo_url kf_paths]. rewrite run_then.
    destruct (parseRepoUrl new_URL url) as [info |] eqn:Hp.
    + split; cbn [fst snd result_code].
      * intros _. exists url. split; [exact Hurl | congruence].
      * intros Hc. exfalso. exact (key_files_never_invalid net url paths info Hp Hc).
    + destruct (tools_call_nothing_without_reference net url paths None Hp) as (_ & -> & _).
      split; cbn [fst snd]; [contradiction | reflexivity].
  - split; cbn; [contradiction | reflexivity].
Qed.

Lemma case_release_notes_outcome (net : upstream) (message : string)
    (args : option Json.value) :
  case_outcome new_URL args
    (run net (case_release_notes new_URL now requestTimeoutMs message args)).
Proof.
  unfold case_release_notes.
  destruct (ReleaseNotesInputSchema new_URL args) as [data |] eqn:Hs.
  - pose proof Hs as Hs'.
    apply schema_repo_url in Hs as (url & o & _ & Hurl & _ & Hrest).
    destruct (Zod.field "limit" _ o) as [limit |] eqn:Hl; [| discriminate].
    cbn in Hrest. injection Hrest as <-.
    cbn [rn_repo_url rn_limit]. rewrite run_then.
    destruct (parseRepoUrl new_URL url) as [info |] eqn:Hp.
    + split; cbn [fst snd result_code].
      * intros _. exists url. split; [exact Hurl | congruence].
      * intros Hc. exfalso.
        unfold Zod.field in Hl. apply limit_schema in Hl as [Hlim _].
        assert (Hacc : Spec.limit_accepted
                         (default (Js.Whole 5) (Some (Js.Whole limit))))
          by (split; cbn; apply Z.ltb_ge; lia).
        exact (proj1 (Outcome.no_other_code _ _
                        (releaseNotes_classified new_URL now requestTimeoutMs
                           net url (Some (Js.Whole limit)) info Hp Hacc)) Hc).
    + destruct (tools_call_nothing_without_reference net url None
                  (Some (Js.Whole limit)) Hp) as (_ & _ & -> & _).
      split; cbn [fst snd]; [contradiction | reflexivity].
  - split; cbn; [contradiction | reflexivity].
Qed.

Lemma case_activity_snapshot_outcome (net : upstream) (message : string)
    (args : option Json.value) :
  case_outcome new_URL args
    (run net (case_activity_snapshot new_URL now requestTimeoutMs message args)).
Proof.
  unfold case_activity_snapshot.
  destruct (ActivitySnapshotInputSchema new_URL args) as [data |] eqn:Hs.
  - apply schema_repo_url in Hs as (url & o & _ & Hurl & _ & [= <-]).
    cbn [as_repo_url]. rewrite run_then.
    destruct (parseRepoUrl new_URL url) as [info |] eqn:Hp.
    + split; cbn [fst snd result_code].
      * intros _. exists url. split; [exact Hurl | congruence].
      * intros Hc. exfalso. exact (activity_never_invalid net url info Hp Hc).
    + destruct (tools_call_nothing_without_reference net url None None Hp) as (_ & _ & _ & ->).
      split; cbn [fst snd]; [contradiction | reflexivity].
  - split; cbn; [contradiction | reflexivity].
Qed.

Lemma listed (name : string) :
  In name toolDefinitions <->
  String.eqb name "repo_overview" || String.eqb name "extract_key_files"
  || String.eqb name "release_notes" || String.eqb name "activity_snapshot" = true.
Proof.
  unfold toolDefinitions. cbn [In].
  rewrite !orb_true_iff, !String.eqb_eq. intuition congruence.
Qed.

(** X20.  The handler of tool calls of the MCP server.  A name that is
    not one of the four listed tools is answered in-band, with an
    [INVALID_INPUT] envelope, and nothing is called.  An outbound call is
    made only for a listed tool whose [repo_url] argument is a string that
    [parseRepoUrl] accepts.  And every [INVALID_INPUT] answer, of the
    handler or of a tool, is given before any outbound call. *)
Theorem CallTool_calls_only_for_a_reference (net : upstream) (name : string)
    (args : option Json.value) :
  let r := run net (CallToolRequestHandler new_URL now requestTimeoutMs name args) in
  (~ In name toolDefinitions ->
   r = (LiteralError INVALID_INPUT ("Unknown tool: " +:+ name) false now, []))
  /\ (snd r <> [] ->
      In name toolDefinitions
      /\ exists url, Json.get_opt args "repo_url" = Some (Json.JStr url)
                     /\ parseRepoUrl new_URL url <> None)
  /\ (result_code (fst r) = Some INVALID_INPUT -> snd r = []).
Proof.
  intros r. subst r. unfold CallToolRequestHandler.
  pose proof (listed name) as Hl.
  destruct (String.eqb name "repo_overview") eqn:E1;
    [| destruct (String.eqb name "extract_key_files") eqn:E2;
       [| destruct (String.eqb name "release_notes") eqn:E3;
          [| destruct (String.eqb name "activity_snapshot") eqn:E4]]];
    cbn [orb] in Hl.
  - destruct (case_repo_overview_outcome net "Invalid input parameters" args)
      as [H1 H2].
    split; [intros Hn; exfalso; apply Hn, Hl; reflexivity |].
    split; [intros H; split; [apply Hl; reflexivity | exact (H1 H)] | exact H2].
  - destruct (case_extract_key_files_outcome net "Invalid input parameters" args)
      as [H1 H2].
    split; [intros Hn; exfalso; apply Hn, Hl; reflexivity |].
    split; [intros H; split; [apply Hl; reflexivity | exact (H1 H)] | exact H2].
  - destruct (case_release_notes_outcome net "Invalid input parameters" args)
      as [H1 H2].
    split; [intros Hn; exfalso; apply Hn, Hl; reflexivity |].
    split; [intros H; split; [apply Hl; reflexivity | exact (H1 H)] | exact H2].
  - destruct (case_activity_snapshot_outcome net "Invalid input parameters" args)
      as [H1 H2].
    split; [intros Hn; exfalso; apply Hn, Hl; reflexivity |].
    split; [intros H; split; [apply Hl; reflexivity | exact (H1 H)] | exact H2].
  - cbn [run fst snd]. split; [reflexivity |].
    split; [contradiction | reflexivity].
Qed.

Section JsonRpc.

Variable ToString : Json.value -> result string.

Lemma equals_name (name s : string) :
  Json.equals (Some (Json.JStr name)) s = String.eqb name s.
Proof. reflexivity. Qed.

Lemma jsonrpc_calls (net : upstream) (request : Json.value) :
  Json.get request "method" <> Some (Json.JStr "tools/call") ->
  snd (run net (handleJsonRpcRequest new_URL now requestTimeoutMs ToString request))
  = [].
Proof.
  intros Hm. unfold handleJsonRpcRequest.
  destruct (Json.equals (Json.get request "method") "initialize"); [reflexivity |].
  destruct (Json.equals (Json.get request "method") "tools/list"); [reflexivity |].
  destruct (Json.equals (Json.get request "method") "tools/call") eqn:E;
    [| reflexivity].
  apply equals_spec in E. contradiction.
Qed.

(** X21.  A JSON-RPC request on the HTTP transport.  The answer carries
    the [id] of the request.  Only [tools/call] can lead to an outbound
    call.  For [tools/call] with a listed tool the answer is a result,
    never a JSON-RPC error, and it holds what the handler of the MCP
    server returns for that tool and those arguments, with the same
    calls; a name that is not listed gives the error -32601 [Unknown
    tool], where the MCP server answers in-band.  A method that is none of
    [initialize], [tools/list] and [tools/call] gives the error -32601
    [Method not found]. *)
Theorem jsonrpc_answers (net : upstream) (request : Json.value) :
  let r := run net (handleJsonRpcRequest new_URL now requestTimeoutMs ToString
                      request) in
  let id := Json.get request "id" in
  let args := Json.get_opt (Json.get request "params") "arguments" in
  rpc_id (fst r) = id
  /\ (Json.get request "method" <> Some (Json.JStr "tools/call") -> snd r = [])
  /\ (forall name,
        Json.get request "method" = Some (Json.JStr "tools/call") ->
        Json.get_opt (Json.get request "params") "name" = Some (Json.JStr name) ->
        (In name toolDefinitions ->
         r = (RpcOk id
                (ToolCallResult
                   (fst (run net (CallToolRequestHandler new_URL now
                                    requestTimeoutMs name args)))),
              snd (run net (CallToolRequestHandler new_URL now requestTimeoutMs
                              name args))))
        /\ (~ In name toolDefinitions ->
            r = (RpcError id (-32601) ("Unknown tool: " +:+ name), [])))
  /\ (forall m,
        Json.get request "method" = Some (Json.JStr m) ->
        m <> "initialize" -> m <> "tools/list" -> m <> "tools/call" ->
        r = (RpcError id (-32601) ("Method not found: " +:+ m), [])).
Proof.
  intros r id args. subst r. unfold handleJsonRpcRequest. fold id args.
  set (method := Json.get request "method").
  set (toolName := Json.get_opt (Json.get request "params") "name").
  assert (Hrun : forall m : io ToolResult,
            run net (result ← m; Ret (RpcOk id (ToolCallResult result)))
            = (RpcOk id (ToolCallResult (fst (run net m))), snd (run net m)))
    by (intros m; apply (run_then net m (fun x => RpcOk id (ToolCallResult x)))).
  assert (Hcatch : forall (t : result string) (p : string),
            rpc_id match t with
                   | Ok text => RpcError id (-32601) (p +:+ text)
                   | Throw e => internal_error id e
                   end = id)
    by (intros [] p; reflexivity).
  split; [| split; [| split]].
  - destruct (Json.equals method "initialize"); [reflexivity |].
    destruct (Json.equals method "tools/list"); [reflexivity |].
    destruct (Json.equals method "tools/call"); [| apply Hcatch].
    destruct (Json.equals toolName "repo_overview"); [rewrite Hrun; reflexivity |].
    destruct (Json.equals toolName "extract_key_files"); [rewrite Hrun; reflexivity |].
    destruct (Json.equals toolName "release_notes"); [rewrite Hrun; reflexivity |].
    destruct (Json.equals toolName "activity_snapshot"); [rewrite Hrun; reflexivity |].
    apply Hcatch.
  - intros Hm. exact (jsonrpc_calls net request Hm).
  - intros name Hm Hn. subst method toolName. rewrite Hm, Hn. cbn [Json.equals String.eqb Ascii.eqb
      Bool.eqb]. rewrite ?equals_name.
    unfold CallToolRequestHandler. pose proof (listed name) as Hl.
    destruct (String.eqb name "repo_overview") eqn:E1;
      [| destruct (String.eqb name "extract_key_files") eqn:E2;
         [| destruct (String.eqb name "release_notes") eqn:E3;
            [| destruct (String.eqb name "activity_snapshot") eqn:E4]]];
      cbn [orb] in Hl;
      try (split; [intros _; apply Hrun
                  | intros Hno; exfalso; apply Hno, Hl; reflexivity]).
    split; [intros Hin; apply Hl in Hin; discriminate |].
    intros _. reflexivity.
  - intros m Hm H1 H2 H3. subst method. rewrite Hm. rewrite ?equals_name.
    rewrite (proj2 (String.eqb_neq _ _) H1), (proj2 (String.eqb_neq _ _) H2),
      (proj2 (String.eqb_neq _ _) H3).
    reflexivity.
Qed.

Lemma version_check (v : option Json.value) :
  negb (Json.truthy v) || negb (Json.equals v "2.0") = false
  <-> v = Some (Json.JStr "2.0").
Proof.
  split.
  - intros H. apply orb_false_iff in H as [_ H].
    apply negb_false_iff in H. apply equals_spec, H.
  - intros ->. reflexivity.
Qed.

(** X22.  The status of the HTTP answer on [/mcp].  It is 200 exactly
    when the body is JSON, other than [null], whose [jsonrpc] member is
    the string [2.0], whatever the request then leads to: an unknown
    method, an unknown tool and a tool that fails are all answered with
    status 200.  It is 400, with the JSON-RPC error -32600, for any other
    JSON but [null]; the [id] sent back is that of the request, or 0 when
    it has none or a falsy one.  It is 500 when the body could not be read
    or parsed, or is [null].  Only an answer with status 200 can have made
    an outbound call. *)
Theorem mcp_http_status (net : upstream) (body : result Json.value) :
  let r := run net (handleMcpRequest new_URL now requestTimeoutMs ToString body) in
  (statusCode (fst r) = 200 <->
   exists request, body = Ok request
                   /\ Json.get request "jsonrpc" = Some (Json.JStr "2.0"))
  /\ (statusCode (fst r) = 400 <->
      exists request, body = Ok request /\ request <> Json.JNull
                      /\ Json.get request "jsonrpc" <> Some (Json.JStr "2.0"))
  /\ (statusCode (fst r) = 500 <->
      (exists e, body = Throw e) \/ body = Ok Json.JNull)
  /\ (forall request,
        body = Ok request -> statusCode (fst r) = 400 ->
        sent (fst r)
        = RpcBody
            (RpcError
               (if Json.truthy (Json.get request "id")
                then Json.get request "id"
                else Some (Json.JNum (Json.Integer 0)))
               (-32600) "Invalid Request: missing or invalid jsonrpc version"))
  /\ (statusCode (fst r) <> 200 -> snd r = []).
Proof.
  intros r. subst r. unfold handleMcpRequest.
  destruct body as [request | e].
  - assert (Hnn : forall q : Json.value,
              q <> Json.JNull ->
              run net
                (if negb (Json.truthy (Json.get q "jsonrpc"))
                    || negb (Json.equals (Json.get q "jsonrpc") "2.0")
                 then
                   Ret {| statusCode := 400;
                          sent := RpcBody
                            (RpcError
                               (if Json.truthy (Json.get q "id")
                                then Json.get q "id"
                                else Some (Json.JNum (Json.Integer 0)))
                               (-32600)
                               "Invalid Request: missing or invalid jsonrpc version") |}
                 else
                   response ← handleJsonRpcRequest new_URL now requestTimeoutMs
                                ToString q;
                   Ret {| statusCode := 200; sent := RpcBody response |})
              = if negb (Json.truthy (Json.get q "jsonrpc"))
                   || negb (Json.equals (Json.get q "jsonrpc") "2.0")
                then
                  ({| statusCode := 400;
                      sent := RpcBody
                        (RpcError
                           (if Json.truthy (Json.get q "id")
                            then Json.get q "id"
                            else Some (Json.JNum (Json.Integer 0)))
                           (-32600)
                           "Invalid Request: missing or invalid jsonrpc version") |},
                   [])
                else
                  ({| statusCode := 200;
                      sent := RpcBody
                        (fst (run net (handleJsonRpcRequest new_URL now
                                         requestTimeoutMs ToString q))) |},
                   snd (run net (handleJsonRpcRequest new_URL now requestTimeoutMs
                                   ToString q)))).
    { intros q _. destruct (_ || _); [reflexivity |].
      apply (run_then net _ (fun x => {| statusCode := 200; sent := RpcBody x |})). }
    assert (Hcases : request = Json.JNull \/ request <> Json.JNull)
      by (destruct request; (now left) || (right; discriminate)).
    destruct Hcases as [-> | Hne].
    + cbn [run fst snd statusCode sent].
      split; [split; [discriminate | intros (q & [= <-] & Hq); discriminate] |].
      split; [split; [discriminate | intros (q & [= <-] & Hq & _); contradiction] |].
      split; [split; [intros _; now right | reflexivity] |].
      split; [discriminate | reflexivity].
    + replace (run net match request with
                       | Json.JNull => _
                       | _ => _
                       end)
        with (run net
                (if negb (Json.truthy (Json.get request "jsonrpc"))
                    || negb (Json.equals (Json.get request "jsonrpc") "2.0")
                 then
                   Ret {| statusCode := 400;
                          sent := RpcBody
                            (RpcError
                               (if Json.truthy (Json.get request "id")
                                then Json.get request "id"
                                else Some (Json.JNum (Json.Integer 0)))
                               (-32600)
                               "Invalid Request: missing or invalid jsonrpc version") |}
                 else
                   response ← handleJsonRpcRequest new_URL now requestTimeoutMs
                                ToString request;
                   Ret {| statusCode := 200; sent := RpcBody response |}))
        by (destruct request; (contradiction || reflexivity)).
      rewrite (Hnn request Hne).
      pose proof (version_check (Json.get request "jsonrpc")) as Hv.
      destruct (negb _ || negb _); cbn [fst snd statusCode sent].
      * assert (Hno : Json.get request "jsonrpc" <> Some (Json.JStr "2.0"))
          by (intros H; apply Hv in H; discriminate).
        split; [split; [discriminate | intros (q & [= <-] & Hq); contradiction] |].
        split; [split; [intros _; exists request; auto | reflexivity] |].
        split; [split; [discriminate | intros [(e & H) | H]; congruence] |].
        split; [intros q [= <-] _; reflexivity | reflexivity].
      * assert (Hyes : Json.get request "jsonrpc" = Some (Json.JStr "2.0"))
          by (apply Hv; reflexivity).
        split; [split; [intros _; exists request; auto | reflexivity] |].
        split; [split; [discriminate | intros (q & [= <-] & _ & Hq); contradiction] |].
        split; [split; [discriminate | intros [(e & H) | H]; congruence] |].
        split; [discriminate | contradiction].
  - cbn [run fst snd statusCode sent].
    split; [split; [discriminate | intros (q & H & _); discriminate] |].
    split; [split; [discriminate | intros (q & H & _); discriminate] |].
    split; [split; [intros _; left; eauto | reflexivity] |].
    split; [discriminate | reflexivity].
Qed.

Lemma handleMcpRequest_calls (net : upstream) (body : result Json.value) :
  snd (run net (handleMcpRequest new_URL now requestTimeoutMs ToString body)) <> [] ->
  exists request,
    body = Ok request
    /\ Json.get request "jsonrpc" = Some (Json.JStr "2.0")
    /\ Json.get request "method" = Some (Json.JStr "tools/call").
Proof.
  unfold handleMcpRequest. destruct body as [request | e]; [| contradiction].
  assert (G : snd (run net
                (if negb (Json.truthy (Json.get request "jsonrpc"))
                    || negb (Json.equals (Json.get request "jsonrpc") "2.0")
                 then
                   Ret {| statusCode := 400;
                          sent := RpcBody
                            (RpcError
                               (if Json.truthy (Json.get request "id")
                                then Json.get request "id"
                                else Some (Json.JNum (Json.Integer 0)))
                               (-32600)
                               "Invalid Request: missing or invalid jsonrpc version") |}
                 else
                   response ← handleJsonRpcRequest new_URL now requestTimeoutMs
                                ToString request;
                   Ret {| statusCode := 200; sent := RpcBody response |})) <> [] ->
              exists q, Ok request = Ok q
                        /\ Json.get q "jsonrpc" = Some (Json.JStr "2.0")
                        /\ Json.get q "method" = Some (Json.JStr "tools/call")).
  { pose proof (version_check (Json.get request "jsonrpc")) as Hv.
    destruct (negb _ || negb _); [contradiction |].
    rewrite (run_then net _ (fun x => {| statusCode := 200; sent := RpcBody x |})).
    cbn [snd]. intros Hc. exists request. split; [reflexivity |].
    split; [apply Hv; reflexivity |].
    destruct (Json.get request "method") as [[| | | m | |] |] eqn:Em;
      try (exfalso; apply Hc, jsonrpc_calls; rewrite Em; discriminate).
    destruct (String.eqb m "tools/call") eqn:E.
    - apply String.eqb_eq in E. subst m. reflexivity.
    - exfalso. apply Hc, jsonrpc_calls. rewrite Em. intros [= ->].
      rewrite String.eqb_refl in E. discriminate. }
  destruct request; (contradiction || exact G).
Qed.

(** X24.  The routes of the HTTP server.  An outbound call is made only
    for a [POST] to [/mcp] whose body is a JSON-RPC 2.0 request with the
    method [tools/call]; every other path, method or body is answered
    without one. *)
Theorem route_calls_only_for_tools_call (net : upstream)
    (pathname method : string) (body : result Json.value) :
  snd (run net (route new_URL now requestTimeoutMs ToString pathname method body))
  <> [] ->
  pathname = "/mcp" /\ method = "POST"
  /\ exists request,
       body = Ok request
       /\ Json.get request "jsonrpc" = Some (Json.JStr "2.0")
       /\ Json.get request "method" = Some (Json.JStr "tools/call").
Proof.
  unfold route.
  destruct (String.eqb pathname "/mcp") eqn:Ep.
  - apply String.eqb_eq in Ep.
    destruct (String.eqb method "POST") eqn:Em; [| contradiction].
    apply String.eqb_eq in Em. intros H.
    split; [exact Ep |]. split; [exact Em |].
    exact (handleMcpRequest_calls net body H).
  - destruct (String.eqb pathname "/health");
      [destruct (String.eqb method "GET") |]; contradiction.
Qed.

End JsonRpc.

Section Rest.

Variable JSON_parse : string -> option Json.value.

(** X23.  The HTTP transport with one endpoint per tool.  An envelope
    is sent with status 200 exactly when it is [ok: true].  An envelope
    with the code [UPSTREAM_ERROR], [RATE_LIMITED] or [TIMEOUT] is sent
    with status 400: what failed upstream is reported as an error of the
    client.  A [POST] whose body is not JSON is answered 500 on every
    path, also on one that names no tool.  An outbound call is made only
    by a [POST] to one of the four tool paths with a body that parses. *)
Theorem rest_status_follows_envelope (net : upstream) (method path body : string) :
  let r := run net (handleRequest new_URL now requestTimeoutMs JSON_parse
                      method path body) in
  (forall e, sent (fst r) = EnvelopeBody e ->
     (statusCode (fst r) = 200 <-> result_ok e = true)
     /\ (result_code e = Some UPSTREAM_ERROR \/ result_code e = Some RATE_LIMITED
         \/ result_code e = Some TIMEOUT ->
         statusCode (fst r) = 400))
  /\ (method = "POST" -> body <> "" -> JSON_parse body = None ->
      statusCode (fst r) = 500 /\ snd r = [])
  /\ (snd r <> [] ->
      method = "POST"
      /\ In path (map (fun name => "/tools/" +:+ name) toolDefinitions)
      /\ exists parsed, parseBody JSON_parse body = Ok parsed).
Proof.
  intros r. subst r. unfold handleRequest.
  assert (Hrun : forall m : io ToolResult,
            run net (result ← m;
                     Ret {| statusCode := if result_ok result then 200 else 400;
                            sent := EnvelopeBody result |})
            = ({| statusCode := if result_ok (fst (run net m)) then 200 else 400;
                  sent := EnvelopeBody (fst (run net m)) |}, snd (run net m)))
    by (intros m;
        apply (run_then net m
                 (fun x => {| statusCode := if result_ok x then 200 else 400;
                              sent := EnvelopeBody x |}))).
  assert (Htool : forall m : io ToolResult,
            let q := run net (result ← m;
                              Ret {| statusCode := if result_ok result then 200 else 400;
                                     sent := EnvelopeBody result |}) in
            forall e, sent (fst q) = EnvelopeBody e ->
              (statusCode (fst q) = 200 <-> result_ok e = true)
              /\ (result_code e = Some UPSTREAM_ERROR
                  \/ result_code e = Some RATE_LIMITED
                  \/ result_code e = Some TIMEOUT ->
                  statusCode (fst q) = 400)).
  { intros m q e. subst q. rewrite Hrun. cbn [fst sent statusCode].
    intros [= <-]. destruct (fst (run net m)) as [[] | [] | [] | [] |];
      cbn [result_ok result_code ok_flag error_code];
      (split; [split; (reflexivity || discriminate)
              | intros [H | [H | H]]; (reflexivity || discriminate)]). }
  destruct (String.eqb method "OPTIONS") eqn:Eo.
  { apply String.eqb_eq in Eo. subst method. cbn [run fst snd sent statusCode].
    split; [discriminate |]. split; [discriminate | contradiction]. }
  destruct (String.eqb path "/health" && String.eqb method "GET") eqn:Eh.
  { apply andb_prop in Eh as [_ Eh]. apply String.eqb_eq in Eh. subst method.
    cbn [run fst snd sent statusCode].
    split; [discriminate |]. split; [discriminate | contradiction]. }
  destruct (String.eqb path "/tools" && String.eqb method "GET") eqn:Et.
  { apply andb_prop in Et as [_ Et]. apply String.eqb_eq in Et. subst method.
    cbn [run fst snd sent statusCode].
    split; [discriminate |]. split; [discriminate | contradiction]. }
  destruct (String.eqb method "POST") eqn:Ep; cbn [negb].
  2:{ apply String.eqb_neq in Ep. cbn [run fst snd sent statusCode].
      split; [intros e [= <-]; cbn; split; [split; discriminate |];
              intros [H | [H | H]]; discriminate |].
      split; [contradiction | contradiction]. }
  apply String.eqb_eq in Ep. subst method.
  destruct (parseBody JSON_parse body) as [parsed | err] eqn:Eb.
  2:{ cbn [run fst snd sent statusCode].
      split; [intros e [= <-]; cbn; split; [split; discriminate |];
              intros [H | [H | H]]; discriminate |].
      split; [intros; split; reflexivity | contradiction]. }
  assert (Hparse : body <> "" -> JSON_parse body = None -> False).
  { intros Hne Hn. unfold parseBody in Eb.
    rewrite (proj2 (String.eqb_neq _ _) Hne), Hn in Eb. discriminate. }
  destruct (String.eqb path "/tools/repo_overview") eqn:E1;
    [| destruct (String.eqb path "/tools/extract_key_files") eqn:E2;
       [| destruct (String.eqb path "/tools/release_notes") eqn:E3;
          [| destruct (String.eqb path "/tools/activity_snapshot") eqn:E4]]];
    try (split; [apply Htool |];
         split; [intros _ Hne Hn; exfalso; exact (Hparse Hne Hn) |];
         intros _; split; [reflexivity |]; split; [| eauto];
         match goal with
         | H : String.eqb path _ = true |- _ =>
             apply String.eqb_eq in H; subst path; cbn; tauto
         end).
  cbn [run fst snd sent statusCode].
  split; [intros e [= <-]; cbn; split; [split; discriminate |];
          intros [H | [H | H]]; discriminate |].
  split; [intros _ Hne Hn; exfalso; exact (Hparse Hne Hn) | contradiction].
Qed.

End Rest.

End HandlerTheorems.

End ServerFacts.

(** ** The further theorems at concrete inputs *)

Lemma calls_are_fixed_by_the_reference_witness :
  parseRepoUrl Examples.plain_URL Examples.repo_url = Some Examples.test_repo
  /\ fetch_order Scenarios.aborting_upstream
       (activitySnapshot Examples.plain_URL Examples.now 30000 Examples.repo_url)
       ["https://api.github.com/repos/owner/test-repo/contributors?per_page=1&anon=true";
        "https://api.github.com/repos/owner/test-repo";
        "https://api.github.com/repos/owner/test-repo/commits?per_page=1";
        "https://api.github.com/repos/owner/test-repo/pulls?state=open&per_page=1"]
  /\ Permutation
       ["https://api.github.com/repos/owner/test-repo/contributors?per_page=1&anon=true";
        "https://api.github.com/repos/owner/test-repo";
        "https://api.github.com/repos/owner/test-repo/commits?per_page=1";
        "https://api.github.com/repos/owner/test-repo/pulls?state=open&per_page=1"]
       ["https://api.github.com/repos/owner/test-repo";
        "https://api.github.com/repos/owner/test-repo/commits?per_page=1";
        "https://api.github.com/repos/owner/test-repo/pulls?state=open&per_page=1";
        "https://api.github.com/repos/owner/test-repo/contributors?per_page=1&anon=true"].
Proof.
  assert (Ho : fetch_order Scenarios.aborting_upstream
                 (activitySnapshot Examples.plain_URL Examples.now 30000
                    Examples.repo_url)
                 ["https://api.github.com/repos/owner/test-repo/contributors?per_page=1&anon=true";
                  "https://api.github.com/repos/owner/test-repo";
                  "https://api.github.com/repos/owner/test-repo/commits?per_page=1";
                  "https://api.github.com/repos/owner/test-repo/pulls?state=open&per_page=1"]).
  { set (net := Scenarios.aborting_upstream).
    set (a := fetchRepoInfo "owner" "test-repo").
    set (b := fetchLatestCommit "owner" "test-repo").
    set (c := fetchOpenPRsCount "owner" "test-repo").
    set (d := fetchContributorsCount "owner" "test-repo").
    change (activitySnapshot Examples.plain_URL Examples.now 30000 Examples.repo_url)
      with (Promise_all4 a b c d ≫=
              (fun '(repoData, latestCommit, openPRsCount, contributorsCount) =>
                 Ret (merge_activity Examples.now 30000 Examples.test_repo repoData
                        latestCommit openPRsCount contributorsCount))).
    unfold Promise_all4, mbind, io_bind. cbn [bind].
    pose proof (fetch_order_run net a) as Ha.
    pose proof (fetch_order_run net b) as Hb.
    pose proof (fetch_order_run net c) as Hc.
    pose proof (fetch_order_run net d) as Hd.
    assert (Hcd : fetch_order net (Par c d (fun z w => Ret (z, w)))
                    ["https://api.github.com/repos/owner/test-repo/contributors?per_page=1&anon=true";
                     "https://api.github.com/repos/owner/test-repo/pulls?state=open&per_page=1"]).
    { apply (fetch_order_Par_Ret net c d _ _ _ _ Hc Hd).
      apply interleaves_second, interleaves_first, interleaves_nil. }
    assert (Hbcd : fetch_order net
                     (Par b (Par c d (fun z w => Ret (z, w)))
                        (fun y zw => Ret (y, zw)))
                     ["https://api.github.com/repos/owner/test-repo/contributors?per_page=1&anon=true";
                      "https://api.github.com/repos/owner/test-repo/commits?per_page=1";
                      "https://api.github.com/repos/owner/test-repo/pulls?state=open&per_page=1"]).
    { apply (fetch_order_Par_Ret net b _ _ _ _ _ Hb Hcd).
      apply interleaves_second, interleaves_first, interleaves_second,
        interleaves_nil. }
    apply (fetch_order_Par_Ret net a _ _ _ _ _ Ha Hbcd).
    apply interleaves_second, interleaves_first, interleaves_second,
      interleaves_second, interleaves_nil. }
  split; [reflexivity |]. split; [exact Ho |].
  exact (proj1 (proj2 (calls_are_fixed_by_the_reference Examples.plain_URL
                         Examples.now 30000 Scenarios.aborting_upstream
                         Examples.repo_url None Examples.test_repo eq_refl))
           _ Ho).
Defined.

Lemma overview_and_releases_classified_witness :
  parseRepoUrl Examples.plain_URL Examples.repo_url = Some Examples.test_repo
  /\ Spec.limit_accepted (default (Js.Whole 5) (Some (Js.Whole 10)))
  /\ Outcome.classified
       (Scenarios.aborting_upstream SRepo "https://api.github.com/repos/owner/test-repo")
       (fst (run Scenarios.aborting_upstream
               (repoOverview Examples.plain_URL Examples.now 30000
                  Examples.repo_url))).
Proof.
  split; [reflexivity |]. split; [split; reflexivity |].
  exact (proj1 (overview_and_releases_classified Examples.plain_URL Examples.now
                  30000 Scenarios.aborting_upstream Examples.repo_url
                  (Some (Js.Whole 10)) Examples.test_repo eq_refl
                  (conj eq_refl eq_refl))).
Defined.

Lemma releaseNotes_limit_witness :
  parseRepoUrl Examples.plain_URL Examples.repo_url = Some Examples.test_repo
  /\ run (Examples.releases_upstream [])
       (releaseNotes Examples.plain_URL Examples.now 30000 Examples.repo_url
          (Some (Js.Whole 150)))
     = (ErrorResponse
          {| code := INVALID_INPUT; message := "Limit must be between 1 and 100";
             details := [("provided_limit", DNumber (Js.Whole 150))] |}
          Examples.now, [])
  /\ snd (run (Examples.releases_upstream [])
            (releaseNotes Examples.plain_URL Examples.now 30000 Examples.repo_url
               (Some (Js.Fraction 1 "1.5"))))
     = ["https://api.github.com/repos/owner/test-repo/releases?per_page=1.5"]
  /\ snd (run (Examples.releases_upstream [])
            (releaseNotes Examples.plain_URL Examples.now 30000 Examples.repo_url
               (Some Js.NotANumber)))
     = ["https://api.github.com/repos/owner/test-repo/releases?per_page=NaN"].
Proof.
  split; [reflexivity |]. split; [| split].
  - apply (proj1 (releaseNotes_limit Examples.plain_URL Examples.now 30000
                    (Examples.releases_upstream []) Examples.repo_url
                    (Some (Js.Whole 150)) Examples.test_repo eq_refl)).
    right. reflexivity.
  - destruct (releaseNotes_limit Examples.plain_URL Examples.now 30000
                (Examples.releases_upstream []) Examples.repo_url
                (Some (Js.Fraction 1 "1.5")) Examples.test_repo eq_refl)
      as (_ & _ & _ & H & _).
    destruct (H 1 "1.5" eq_refl) as [_ Hin]. apply Hin. lia.
  - destruct (releaseNotes_limit Examples.plain_URL Examples.now 30000
                (Examples.releases_upstream []) Examples.repo_url
                (Some Js.NotANumber) Examples.test_repo eq_refl)
      as (_ & _ & H & _).
    exact (H eq_refl).
Defined.

Lemma releaseNotes_lists_the_answer_witness :
  parseRepoUrl Examples.plain_URL Examples.repo_url = Some Examples.test_repo
  /\ Spec.limit_accepted (default (Js.Whole 5) None)
  /\ exists d meta,
       fst (run (Examples.releases_upstream [Examples.release_payload])
              (releaseNotes Examples.plain_URL Examples.now 30000
                 Examples.repo_url None))
       = SuccessResponse d meta
       /\ releases d = [Examples.release_payload]
       /\ total_count d = 1
       /\ source meta
          = Some "https://api.github.com/repos/owner/test-repo/releases?per_page=5".
Proof.
  split; [reflexivity |]. split; [split; reflexivity |].
  destruct (releaseNotes_lists_the_answer Examples.plain_URL Examples.now 30000
              (Examples.releases_upstream [Examples.release_payload])
              Examples.repo_url None Examples.test_repo
              {| status := 200; statusText := "OK"; headers := ∅;
                 body := Ok [Examples.release_payload] |}
              [Examples.release_payload] eq_refl (conj eq_refl eq_refl) eq_refl
              eq_refl eq_refl)
    as (d & meta & H1 & H2 & H3 & H4 & _).
  exists d, meta. auto.
Defined.

Lemma parsed_reference_shape_witness :
  parseRepoUrl Examples.plain_URL "https://github.com/owner/test-repo.git"
    = Some Examples.test_repo
  /\ pr_owner Examples.test_repo <> ""
  /\ Spec.free_of "/" (pr_owner Examples.test_repo)
  /\ Spec.free_of "/" (pr_repo Examples.test_repo).
Proof.
  split; [reflexivity |].
  destruct (parsed_reference_shape Examples.plain_URL
              "https://github.com/owner/test-repo.git" Examples.test_repo eq_refl)
    as (H1 & H2 & H3 & _).
  auto.
Defined.

Lemma missing_default_branch_means_main_witness :
  parseRepoUrl Examples.plain_URL Examples.repo_url = Some Examples.test_repo
  /\ snd (run (Scenarios.unnamed_branch_upstream "text")
            (extractKeyFiles Examples.plain_URL Examples.now Examples.repo_url
               (Some ["README.md"])))
     = ["https://api.github.com/repos/owner/test-repo";
        "https://raw.githubusercontent.com/owner/test-repo/main/README.md"].
Proof.
  split; [reflexivity |].
  exact (proj1 (missing_default_branch_means_main Examples.plain_URL Examples.now
                  (Scenarios.unnamed_branch_upstream "text") Examples.repo_url
                  (Some ["README.md"]) Examples.test_repo
                  {| status := 200; statusText := "OK"; headers := ∅;
                     body := Ok None |}
                  eq_refl eq_refl eq_refl eq_refl)).
Defined.

Lemma empty_commit_list_is_reported_missing_witness :
  parseRepoUrl Examples.plain_URL Examples.repo_url = Some Examples.test_repo
  /\ exists data meta,
       fst (run Scenarios.empty_repository_upstream
              (activitySnapshot Examples.plain_URL Examples.now 30000 Examples.repo_url))
       = SuccessResponse data meta
       /\ last_commit_date data = None
       /\ last_commit_message data = None
       /\ In "Could not fetch latest commit information" (warnings meta).
Proof.
  split; [reflexivity |].
  exact (empty_commit_list_is_reported_missing Examples.plain_URL Examples.now 30000
           Scenarios.empty_repository_upstream Examples.repo_url Examples.test_repo
           Examples.repo_payload
           {| status := 200; statusText := "OK"; headers := ∅; body := Ok [] |}
           eq_refl eq_refl eq_refl eq_refl eq_refl).
Defined.

Lemma activity_counts_are_natural_witness :
  exists data meta,
    fst (run (Examples.linked_upstream Examples.pulls_link_3
                Examples.contributors_link_25 "")
           (activitySnapshot Examples.plain_URL Examples.now 30000 Examples.repo_url))
    = SuccessResponse data meta
    /\ open_prs_count data <> Js.NaN
    /\ contributors_count data <> Js.NaN.
Proof.
  eexists _, _. split; [vm_compute; reflexivity |].
  match goal with
  | |- open_prs_count ?d <> _ /\ _ =>
      destruct (activity_counts_are_natural Examples.plain_URL Examples.now 30000
                  (Examples.linked_upstream Examples.pulls_link_3
                     Examples.contributors_link_25 "")
                  Examples.repo_url d
                  {| source := Some "https://api.github.com/repos/owner/test-repo";
                     retrieved_at := Examples.now; next_cursor := None;
                     warnings := [] |})
        as [[H1 _] [H2 _]]; [vm_compute; reflexivity |]
  end.
  split; assumption.
Defined.

Lemma non_overlapping_calls_are_spaced_witness :
  0 <= 1
  /\ RateLimiter.settled (100 - 1) (RateLimiter.init 1000)
  /\ EventLoop.orderly 1 100
       [EventLoop.Enter 0; EventLoop.Pass 30; EventLoop.Enter 1;
        EventLoop.Pass 69; EventLoop.Resume 1]
       (RateLimiter.init 1000)
  /\ RateLimiter.dispatch_times
       (EventLoop.run 100
          [EventLoop.Enter 0; EventLoop.Pass 30; EventLoop.Enter 1;
           EventLoop.Pass 69; EventLoop.Resume 1]
          (RateLimiter.init 1000))
     = [1000; 1099]
  /\ RateLimiter.spaced (100 - 1)
       (RateLimiter.dispatch_times
          (EventLoop.run 100
             [EventLoop.Enter 0; EventLoop.Pass 30; EventLoop.Enter 1;
              EventLoop.Pass 69; EventLoop.Resume 1]
             (RateLimiter.init 1000))).
Proof.
  assert (Hs : RateLimiter.settled (100 - 1) (RateLimiter.init 1000))
    by (split; [reflexivity |]; split; [cbn; lia |]; split;
        [exact I | constructor]).
  assert (Ho : EventLoop.orderly 1 100
                 [EventLoop.Enter 0; EventLoop.Pass 30; EventLoop.Enter 1;
                  EventLoop.Pass 69; EventLoop.Resume 1]
                 (RateLimiter.init 1000)).
  { cbn. split; [reflexivity |]. split; [lia |]. split; [reflexivity |].
    split; [lia |]. split; [| exact I]. exists 1100.
    split; [reflexivity | vm_compute; discriminate]. }
  split; [lia |]. split; [exact Hs |]. split; [exact Ho |].
  split; [reflexivity |].
  exact (proj1 (EventLoopFacts.non_overlapping_calls_are_spaced 1 100
                  [EventLoop.Enter 0; EventLoop.Pass 30; EventLoop.Enter 1;
                   EventLoop.Pass 69; EventLoop.Resume 1]
                  (RateLimiter.init 1000) ltac:(lia) Hs Ho)).
Defined.

Lemma burst_sets_one_due_time_witness :
  0 < 100
  /\ RateLimiter.timers
       (EventLoop.run 100
          (map EventLoop.Enter [0%nat; 1%nat; 2%nat; 3%nat])
          (RateLimiter.init 1000))
     = [(1100, 1%nat); (1100, 2%nat); (1100, 3%nat)]
  /\ RateLimiter.dispatched
       (EventLoop.run 100
          (map EventLoop.Enter [0%nat; 1%nat; 2%nat; 3%nat])
          (RateLimiter.init 1000))
     = [(0%nat, 1000)].
Proof.
  split; [lia |].
  pose proof (proj2 (EventLoopFacts.burst_sets_one_due_time 100
                       [0%nat; 1%nat; 2%nat; 3%nat] (RateLimiter.init 1000)
                       ltac:(lia)) ltac:(cbn; lia)) as H.
  cbn [app] in H. rewrite H. split; reflexivity.
Defined.

Lemma no_throttle_without_positive_delay_witness :
  0 <= 0
  /\ map fst
       (RateLimiter.dispatched
          (RateLimiter.run_events 0
             [RateLimiter.Call 0; RateLimiter.Call 1; RateLimiter.Elapse 5;
              RateLimiter.Call 2]
             (RateLimiter.init 1000)))
     = [0%nat; 1%nat; 2%nat].
Proof.
  split; [lia |].
  exact (proj2 (ThrottleFacts.no_throttle_without_positive_delay 0
                  [RateLimiter.Call 0; RateLimiter.Call 1; RateLimiter.Elapse 5;
                   RateLimiter.Call 2]
                  (RateLimiter.init 1000) ltac:(lia) eq_refl ltac:(cbn; lia))).
Defined.

Lemma getEnvNumber_reads_leading_integer_witness :
  Scenarios.delay_env !! "REQUEST_DELAY_MS" = Some ("250" +:+ "ms")
  /\ Config.getEnvNumber Scenarios.delay_env "REQUEST_DELAY_MS" 100 = 250
  /\ Config.getEnvNumber Scenarios.delay_env "REQUEST_TIMEOUT_MS" 30000 = 30000.
Proof.
  split; [reflexivity |]. split.
  - exact (proj1 (proj2 (proj2 (proj2 (ConfigFacts.getEnvNumber_reads_leading_integer
                                         Scenarios.delay_env "REQUEST_DELAY_MS" 100)))
                    "250" "ms" ltac:(discriminate) eq_refl
                    ltac:(vm_compute; discriminate) eq_refl)
             eq_refl).
  - exact (proj1 (ConfigFacts.getEnvNumber_reads_leading_integer
                    Scenarios.delay_env "REQUEST_TIMEOUT_MS" 30000) eq_refl).
Defined.

Lemma environment_is_read_once_witness :
  Config.run_calls
    [(Scenarios.delay_env, Config.CallGet);
     (Scenarios.delay_env, Config.CallSet Scenarios.no_delay);
     (Scenarios.delay_env, Config.CallGet)]
    (Some (Config.loadConfig ∅))
  = Config.run_calls
      [(Scenarios.token_env, Config.CallGet);
       (∅, Config.CallSet Scenarios.no_delay);
       (Scenarios.token_env, Config.CallGet)]
      (Some (Config.loadConfig ∅)).
Proof.
  exact (proj1 (ConfigFacts.environment_is_read_once
                  [(Scenarios.delay_env, Config.CallGet);
                   (Scenarios.delay_env, Config.CallSet Scenarios.no_delay);
                   (Scenarios.delay_env, Config.CallGet)]
                  [(Scenarios.token_env, Config.CallGet);
                   (∅, Config.CallSet Scenarios.no_delay);
                   (Scenarios.token_env, Config.CallGet)]
                  (Config.loadConfig ∅) eq_refl
                  ltac:(repeat constructor; discriminate))).
Defined.

Lemma schema_bounds_the_limit_witness :
  Server.ReleaseNotesInputSchema Examples.plain_URL
    (Some (Scenarios.limit_args Examples.repo_url 10))
  = Some {| Server.rn_repo_url := Examples.repo_url; Server.rn_limit := 10 |}
  /\ 1 <= 10 <= 100.
Proof.
  split; [reflexivity |].
  exact (proj1 (ServerFacts.schema_bounds_the_limit Examples.plain_URL Examples.now
                  30000 (Examples.releases_upstream []) "Invalid input parameters"
                  (Some (Scenarios.limit_args Examples.repo_url 10))
                  {| Server.rn_repo_url := Examples.repo_url; Server.rn_limit := 10 |}
                  eq_refl)).
Defined.
Lemma route_calls_only_for_tools_call_witness :
  snd (run (Examples.status_upstream 404 "Not Found" ∅)
         (Server.route Examples.plain_URL Examples.now 30000 Scenarios.ToString
            "/mcp" "POST"
            (Ok (Scenarios.tools_call 7 "repo_overview"
                   (Scenarios.url_args Examples.repo_url)))))
  = ["https://api.github.com/repos/owner/test-repo"]
  /\ exists request,
       Ok (Scenarios.tools_call 7 "repo_overview"
             (Scenarios.url_args Examples.repo_url)) = Ok request
       /\ Json.get request "jsonrpc" = Some (Json.JStr "2.0")
       /\ Json.get request "method" = Some (Json.JStr "tools/call").
Proof.
  split; [reflexivity |].
  exact (proj2 (proj2 (ServerFacts.route_calls_only_for_tools_call
                         Examples.plain_URL Examples.now 30000 Scenarios.ToString
                         (Examples.status_upstream 404 "Not Found" ∅) "/mcp" "POST"
                         (Ok (Scenarios.tools_call 7 "repo_overview"
                                (Scenarios.url_args Examples.repo_url)))
                         ltac:(vm_compute; discriminate)))).
Defined.
Lemma repoOverview_success_fields_witness :
  parseRepoUrl Examples.plain_URL Examples.repo_url = Some Examples.test_repo
  /\ exists d meta,
       fst (run (Examples.linked_upstream "" "" "")
              (repoOverview Examples.plain_URL Examples.now 30000
                 Examples.repo_url))
       = SuccessResponse d meta
       /\ ov_stars d = 100
       /\ ov_topics d = ["test"]
       /\ ov_license d = Some "MIT"
       /\ source meta = Some "https://api.github.com/repos/owner/test-repo".
Proof.
  split; [reflexivity |].
  destruct (repoOverview_success_fields Examples.plain_URL Examples.now 30000
              (Examples.linked_upstream "" "" "") Examples.repo_url
              Examples.test_repo
              {| status := 200; statusText := "OK"; headers := ∅;
                 body := Ok Examples.repo_payload |}
              Examples.repo_payload eq_refl eq_refl eq_refl eq_refl)
    as (d & meta & H1 & H2 & _ & _ & H3 & _ & H4 & _ & _ & H5 & _).
  exists d, meta. repeat split.
  - exact H1.
  - exact H2.
  - exact (H3 _ eq_refl).
  - exact (H4 _ eq_refl).
  - exact H5.
Defined.

(** ** The schema tests of the repository, replayed

    The inputs of the [Input Schemas] tests of [tests/e2e/server.test.ts]
    and what they expect of [safeParse]. *)

Example test_overview_schema_accepts_github :
  Server.RepoOverviewInputSchema Examples.plain_URL
    (Some (Scenarios.url_args "https://github.com/owner/repo"))
  = Some {| Server.ro_repo_url := "https://github.com/owner/repo" |}.
Proof. vm_compute. reflexivity. Qed.

Example test_overview_schema_rejects :
  Server.RepoOverviewInputSchema Examples.plain_URL
    (Some (Scenarios.url_args "https://gitlab.com/owner/repo")) = None
  /\ Server.RepoOverviewInputSchema Examples.plain_URL (Some (Json.JObj [])) = None.
Proof. split; vm_compute; reflexivity. Qed.

Example test_key_files_schema_paths :
  Server.ExtractKeyFilesInputSchema Examples.plain_URL
    (Some (Scenarios.url_args "https://github.com/owner/repo"))
  = Some {| Server.kf_repo_url := "https://github.com/owner/repo";
            Server.kf_paths := None |}
  /\ Server.ExtractKeyFilesInputSchema Examples.plain_URL
       (Some (Scenarios.paths_args "https://github.com/owner/repo"
                ["README.md"; "Cargo.toml"]))
     = Some {| Server.kf_repo_url := "https://github.com/owner/repo";
               Server.kf_paths := Some ["README.md"; "Cargo.toml"] |}.
Proof. split; vm_compute; reflexivity. Qed.

Example test_release_schema_limits :
  Server.rn_limit
    <$> Server.ReleaseNotesInputSchema Examples.plain_URL
          (Some (Scenarios.url_args "https://github.com/owner/repo")) = Some 5
  /\ Server.rn_limit
       <$> Server.ReleaseNotesInputSchema Examples.plain_URL
             (Some (Scenarios.limit_args "https://github.com/owner/repo" 10))
     = Some 10
  /\ Server.ReleaseNotesInputSchema Examples.plain_URL
       (Some (Scenarios.limit_args "https://github.com/owner/repo" 150)) = None
  /\ Server.ReleaseNotesInputSchema Examples.plain_URL
       (Some (Scenarios.limit_args "https://github.com/owner/repo" (-1))) = None.
Proof. repeat split; vm_compute; reflexivity. Qed.

(** ** The handlers on concrete requests *)

(** A [tools/call] for the overview of a repository GitHub does not
    know: the HTTP status is 200, the JSON-RPC answer is a result, and the
    failure is in the envelope. *)
Example mcp_answers_a_missing_repository :
  fst (run (Examples.status_upstream 404 "Not Found" ∅)
         (Server.handleMcpRequest Examples.plain_URL Examples.now 30000
            Scenarios.ToString
            (Ok (Scenarios.tools_call 7 "repo_overview"
                   (Scenarios.url_args Examples.repo_url)))))
  = {| Server.statusCode := 200;
       Server.sent :=
         Server.RpcBody
           (Server.RpcOk (Some (Json.JNum (Json.Integer 7)))
              (Server.ToolCallResult
                 (Server.OverviewResult
                    (ErrorResponse
                       {| code := UPSTREAM_ERROR;
                          message := "Repository not found: owner/test-repo";
                          details := [("status", DNum 404)] |}
                       Examples.now)))) |}.
Proof. vm_compute. reflexivity. Qed.

(** The same request on the transport with one endpoint per tool: the
    status is 400. *)
Example rest_answers_a_missing_repository :
  fst (run (Examples.status_upstream 404 "Not Found" ∅)
         (Server.handleRequest Examples.plain_URL Examples.now 30000
            (Scenarios.parse_only "body" (Scenarios.url_args Examples.repo_url))
            "POST" "/tools/repo_overview" "body"))
  = {| Server.statusCode := 400;
       Server.sent :=
         Server.EnvelopeBody
           (Server.OverviewResult
              (ErrorResponse
                 {| code := UPSTREAM_ERROR;
                    message := "Repository not found: owner/test-repo";
                    details := [("status", DNum 404)] |}
                 Examples.now)) |}.
Proof. vm_compute. reflexivity. Qed.

(** A [tools/call] without [params]: the name of the tool is
    [undefined]. *)
Example tools_call_without_params :
  run (Examples.rejecting_upstream Examples.fetch_failed)
    (Server.handleJsonRpcRequest Examples.plain_URL Examples.now 30000
       Scenarios.ToString
       (Json.JObj [("jsonrpc", Json.JStr "2.0"); ("id", Json.JStr "a");
                   ("method", Json.JStr "tools/call")]))
  = (Server.RpcError (Some (Json.JStr "a")) (-32601) "Unknown tool: undefined", []).
Proof. vm_compute. reflexivity. Qed.

(** A setting of the token to the empty string sends no [Authorization]
    header. *)
Example commit_without_author_is_internal_error :
  fst (run Examples.authorless_commit_upstream
         (activitySnapshot Examples.plain_URL Examples.now 30000 Examples.repo_url))
  = ErrorResponse
      {| code := INTERNAL_ERROR;
         message := "Cannot read properties of null (reading 'date')";
         details := [("error_name", DStr "TypeError")] |} Examples.now.
Proof. vm_compute. reflexivity. Qed.

Example empty_token_sends_no_authorization :
  Config.request_headers (Config.loadConfig {[ "GITHUB_TOKEN" := "" ]}) None
  = {[ "User-Agent" := "git-repo-brief/1.0.0";
       "Accept" := "application/vnd.github.v3+json" ]}.
Proof. vm_compute. reflexivity. Qed.
